(** * TouchUserInterfaceForArduino: touch events, menu layout and widgets

    A shallow embedding of the parts of the library's implementation file
    that decide the behaviour of the touch event state machine
    ([getTouchEvents], [getTouchScreenCoords]), the menu layout and
    dispatch engine ([getMenuButtonSizeAndLocation],
    [displayAndExecuteMenu]) and the widgets built on top of them (Button,
    NumberBox for [int] and for [float], SelectionBox and the numeric
    keypad).

    Conventions.
    - [unsigned long] (the [millis()] clock) is a 32-bit value: a [Z] in
      [0, 2^32) whose additions are reduced with [ulong].
    - [int] values supplied by the application (the value, bounds and step
      of a Number Box, the repeat counter) are 32-bit two's complement:
      a [Z] whose arithmetic is reduced with [int32].
    - [float] values (the value, bounds and step of a float Number Box) are
      IEEE 754 binary32 numbers, with the operations of the standard
      library's specification of IEEE arithmetic ([SpecFloat]), rounding to
      nearest, ties to even.
    - Pixel coordinates are bounded by the size of the LCD (320 x 240), far
      from the limits of [int]; the layout routines are written over [Z]
      with C's truncating division [Z.quot].
    - Drawing is recorded, where a property needs it, as a list of drawing
      commands appended to the state. *)

From Stdlib Require Import ZArith List Bool Lia String Ascii.
From Stdlib Require Import DecimalString.
From Stdlib Require Import SpecFloat.
Import ListNotations.
Open Scope Z_scope.

Ltac Zify.zify_post_hook ::= Z.to_euclidean_division_equations.

(** ** Machine integers *)

Definition ULONG_MODULUS : Z := 2 ^ 32.

(** The result of an [unsigned long] operation. *)
Definition ulong (z : Z) : Z := z mod ULONG_MODULUS.

Definition INT_MIN : Z := - 2 ^ 31.
Definition INT_MAX : Z := 2 ^ 31 - 1.

(** The result of an [int] operation (two's complement wrap-around). *)
Definition int32 (z : Z) : Z := (z + 2 ^ 31) mod 2 ^ 32 - 2 ^ 31.

Definition in_int (z : Z) : Prop := INT_MIN <= z <= INT_MAX.

(** ** Floating point numbers *)

Module Float32.

(** The binary32 format: 24 bits of precision, exponents below 128. *)
Definition prec : Z := 24.
Definition emax : Z := 128.

Definition float : Type := spec_float.

(** The number is one of the format: its mantissa and exponent are the
    normalized ones. *)
Definition isFloat (x : float) : bool := valid_binary prec emax x.

Definition isNaN (x : float) : bool :=
  match x with S754_nan => true | _ => false end.

Definition isFinite (x : float) : bool :=
  match x with
  | S754_zero _ | S754_finite _ _ _ => true
  | _ => false
  end.

(** [x + y], [x * y], [-x], [x < y], [x <= y], [x == y] on floats. *)
Definition fadd (x y : float) : float := SFadd prec emax x y.
Definition fmul (x y : float) : float := SFmul prec emax x y.
Definition fopp (x : float) : float := SFopp x.
Definition fltb (x y : float) : bool := SFltb x y.
Definition fleb (x y : float) : bool := SFleb x y.
Definition feqb (x y : float) : bool := SFeqb x y.

Definition fzero : float := S754_zero false.

(** The conversion [(float)n] of an [int], and the float [m * 2^e]. *)
Definition ofInt (n : Z) : float := binary_normalize prec emax n 0 false.
Definition ofDyadic (m e : Z) : float := binary_normalize prec emax m e false.

(** The magnitude, the sign and the value of a float, in units of
    [2^-149], the smallest positive float; an infinity stands beyond every
    finite float, at [2^277]. *)
Definition mag (x : float) : Z :=
  match x with
  | S754_zero _ | S754_nan => 0
  | S754_infinity _ => 2 ^ 277
  | S754_finite _ m e => Zpos m * 2 ^ (e + 149)
  end.

Definition sign (x : float) : bool :=
  match x with
  | S754_zero s | S754_infinity s | S754_finite s _ _ => s
  | S754_nan => false
  end.

Definition ev (x : float) : Z := cond_Zopp (sign x) (mag x).

(** The last step of [binary_round_aux]: the float of a sign, a mantissa
    and an exponent, an infinity when the exponent is too large. *)
Definition build (sx : bool) (m e : Z) : float :=
  match m with
  | Z0 => S754_zero sx
  | Zpos p => if e <=? emax - prec then S754_finite sx p e else S754_infinity sx
  | Zneg _ => S754_nan
  end.

(** The exponent is the one the format gives to a mantissa of that many
    digits. *)
Definition canonicalZ (m e : Z) : Prop := fexp prec emax (Zdigits2 m + e) = e.

End Float32.

(** ** Touch screen functions *)

Module Touch.

(** Values for [touchEventType]. *)
Inductive TouchEventType : Type :=
  | TOUCH_NO_EVENT
  | TOUCH_PUSHED_EVENT
  | TOUCH_RELEASED_EVENT
  | TOUCH_REPEAT_EVENT.

(** Values for [touchState]. *)
Inductive TouchState : Type :=
  | WAITING_FOR_TOUCH_DOWN_STATE
  | CONFIRM_TOUCH_DOWN_STATE
  | WAITING_FOR_TOUCH_UP_STATE
  | WAITING_FOR_TOUCH_UP_AFTER_AUTO_REPEAT_STATE
  | CONFIRM_TOUCH_UP_STATE.

(** Delay periods for dealing with touches, in milliseconds. *)
Definition TOUCH_DEBOUNCE_PERIOD : Z := 30.
Definition TOUCH_AUTO_REPEAT_DELAY : Z := 800.
Definition TOUCH_AUTO_REPEAT_RATE : Z := 120.

(** The members of the UI object and the function statics that
    [getTouchEvents] reads and writes. *)
Record TouchUI : Type := mkTouchUI {
  touchState : TouchState;
  touchEventStartTime : Z;
  recordedTouchX : Z;
  recordedTouchY : Z;
  touchEventType : TouchEventType;
  touchEventX : Z;
  touchEventY : Z
}.

Definition eventType_eqb (a b : TouchEventType) : bool :=
  match a, b with
  | TOUCH_NO_EVENT, TOUCH_NO_EVENT
  | TOUCH_PUSHED_EVENT, TOUCH_PUSHED_EVENT
  | TOUCH_RELEASED_EVENT, TOUCH_RELEASED_EVENT
  | TOUCH_REPEAT_EVENT, TOUCH_REPEAT_EVENT => true
  | _, _ => false
  end.

(** [checkForTouchEventInRect]: the most recent event has the given type and
    happened inside the rectangle, corners included. *)
Definition checkForTouchEventInRect (ui : TouchUI) (eventType : TouchEventType)
    (rectX1 rectY1 rectX2 rectY2 : Z) : bool :=
  if negb (eventType_eqb eventType (touchEventType ui)) then false
  else if (rectX1 <=? touchEventX ui) && (touchEventX ui <=? rectX2) then
    if (rectY1 <=? touchEventY ui) && (touchEventY ui <=? rectY2) then true
    else false
  else false.

(** [getTouchEvents]: one poll.  [currentTime] is the value of [millis()],
    [touch] the result of [getTouchScreenCoords]: [None] when the screen is
    not touched, the LCD coordinates of the touch otherwise. *)
Definition getTouchEvents (currentTime : Z) (touch : option (Z * Z))
    (ui : TouchUI) : TouchUI :=
  let st := touchState ui in
  let start := touchEventStartTime ui in
  let rx := recordedTouchX ui in
  let ry := recordedTouchY ui in
  let ex := touchEventX ui in
  let ey := touchEventY ui in
  let quiet st' start' := mkTouchUI st' start' rx ry TOUCH_NO_EVENT ex ey in
  match st with
  | WAITING_FOR_TOUCH_DOWN_STATE =>
      match touch with
      | Some _ => quiet CONFIRM_TOUCH_DOWN_STATE currentTime
      | None => quiet st start
      end
  | CONFIRM_TOUCH_DOWN_STATE =>
      if currentTime <? ulong (start + TOUCH_DEBOUNCE_PERIOD) then quiet st start
      else
        match touch with
        | None => quiet WAITING_FOR_TOUCH_DOWN_STATE start
        | Some (currentTouchX, currentTouchY) =>
            mkTouchUI WAITING_FOR_TOUCH_UP_STATE currentTime
              currentTouchX currentTouchY
              TOUCH_PUSHED_EVENT currentTouchX currentTouchY
        end
  | WAITING_FOR_TOUCH_UP_STATE =>
      match touch with
      | None => quiet CONFIRM_TOUCH_UP_STATE start
      | Some _ =>
          if currentTime <? ulong (start + TOUCH_AUTO_REPEAT_DELAY)
          then quiet st start
          else mkTouchUI WAITING_FOR_TOUCH_UP_AFTER_AUTO_REPEAT_STATE
                 currentTime rx ry TOUCH_REPEAT_EVENT rx ry
      end
  | WAITING_FOR_TOUCH_UP_AFTER_AUTO_REPEAT_STATE =>
      match touch with
      | None => quiet CONFIRM_TOUCH_UP_STATE start
      | Some _ =>
          if currentTime <? ulong (start + TOUCH_AUTO_REPEAT_RATE)
          then quiet st start
          else mkTouchUI st currentTime rx ry TOUCH_REPEAT_EVENT rx ry
      end
  | CONFIRM_TOUCH_UP_STATE =>
      match touch with
      | Some _ => quiet st currentTime
      | None =>
          if currentTime <? ulong (start + TOUCH_DEBOUNCE_PERIOD)
          then quiet st start
          else mkTouchUI WAITING_FOR_TOUCH_DOWN_STATE start rx ry
                 TOUCH_RELEASED_EVENT rx ry
      end
  end.

(** The state left by [touchScreenSetOrientation]. *)
Definition touchScreenInitialize : TouchUI :=
  mkTouchUI WAITING_FOR_TOUCH_DOWN_STATE 0 0 0 TOUCH_NO_EVENT 0 0.

(** A poll of the control loop: the clock and the sample it reads. *)
Abbreviation Poll := (Z * option (Z * Z))%type.

Definition pollTime (p : Poll) : Z := fst p.
Definition pollTouch (p : Poll) : option (Z * Z) := snd p.

(** The states of the UI after each poll of a sequence. *)
Fixpoint run (ui : TouchUI) (polls : list Poll) : list TouchUI :=
  match polls with
  | [] => []
  | p :: rest =>
      let ui' := getTouchEvents (pollTime p) (pollTouch p) ui in
      ui' :: run ui' rest
  end.

(** The state of the UI after the last poll of a sequence. *)
Fixpoint steps (ui : TouchUI) (polls : list Poll) : TouchUI :=
  match polls with
  | [] => ui
  | p :: rest => steps (getTouchEvents (pollTime p) (pollTouch p) ui) rest
  end.

(** The event a poll reported, as the widgets see it. *)
Definition event (ui : TouchUI) : TouchEventType * Z * Z :=
  (touchEventType ui, touchEventX ui, touchEventY ui).

Definition events (ui : TouchUI) (polls : list Poll)
    : list (TouchEventType * Z * Z) :=
  map event (run ui polls).

Definition kinds (ui : TouchUI) (polls : list Poll) : list TouchEventType :=
  map touchEventType (run ui polls).

Definition countKind (k : TouchEventType) (ks : list TouchEventType) : Z :=
  Z.of_nat (List.length (filter (eventType_eqb k) ks)).

(** *** Vocabulary for statements about poll sequences *)

Definition touched (p : Poll) : bool :=
  match pollTouch p with Some _ => true | None => false end.

(** A finger resting on the screen, polled once per millisecond: the polls
    at times [t + 1], [t + 2], ... each reading one element of [touches]. *)
Fixpoint held (t : Z) (touches : list (Z * Z)) : list Poll :=
  match touches with
  | [] => []
  | xy :: rest => (t + 1, Some xy) :: held (t + 1) rest
  end.

(** The events of a sequence come in cycles: Pressed, then AutoRepeats,
    then Released.  [down] tells whether a cycle is open. *)
Fixpoint cycles (down : bool) (ks : list TouchEventType) : bool :=
  match ks with
  | [] => true
  | TOUCH_NO_EVENT :: rest => cycles down rest
  | TOUCH_PUSHED_EVENT :: rest => negb down && cycles true rest
  | TOUCH_REPEAT_EVENT :: rest => down && cycles true rest
  | TOUCH_RELEASED_EVENT :: rest => down && cycles false rest
  end.

(** The state machine is inside a touch-down cycle: Pressed was reported and
    Released not yet. *)
Definition isDown (ui : TouchUI) : bool :=
  match touchState ui with
  | WAITING_FOR_TOUCH_UP_STATE
  | WAITING_FOR_TOUCH_UP_AFTER_AUTO_REPEAT_STATE
  | CONFIRM_TOUCH_UP_STATE => true
  | _ => false
  end.

(** The coordinates recorded for the touch-down cycle in progress. *)
Definition pressedAt (ui : TouchUI) : option (Z * Z) :=
  if isDown ui then Some (recordedTouchX ui, recordedTouchY ui) else None.

(** The coordinates of the events of a sequence are frozen: a Pressed event
    carries the sample of its own poll, and every AutoRepeat and Released
    event carries the coordinates of the latest Pressed event, kept in
    [pressed]. *)
Fixpoint frozen (pressed : option (Z * Z)) (polls : list Poll)
    (uis : list TouchUI) : Prop :=
  match polls, uis with
  | p :: polls', ui :: uis' =>
      match touchEventType ui with
      | TOUCH_NO_EVENT => frozen pressed polls' uis'
      | TOUCH_PUSHED_EVENT =>
          pollTouch p = Some (touchEventX ui, touchEventY ui) /\
          frozen (Some (touchEventX ui, touchEventY ui)) polls' uis'
      | TOUCH_REPEAT_EVENT =>
          pressed = Some (touchEventX ui, touchEventY ui) /\
          frozen pressed polls' uis'
      | TOUCH_RELEASED_EVENT =>
          pressed = Some (touchEventX ui, touchEventY ui) /\
          frozen None polls' uis'
      end
  | _, _ => True
  end.

(** The lengths of the contiguous touches of a sequence: for each maximal run
    of touched polls, the time from its first poll to the first untouched
    poll after it (to its last poll when the sequence ends touched).
    [since] is the start of the run in progress, [last] the time of the
    previous poll. *)
Fixpoint touchDurations (since : option Z) (last : Z) (polls : list Poll)
    : list Z :=
  match polls with
  | [] => match since with Some t0 => [last - t0] | None => [] end
  | p :: rest =>
      match pollTouch p, since with
      | Some _, None => touchDurations (Some (pollTime p)) (pollTime p) rest
      | Some _, Some _ => touchDurations since (pollTime p) rest
      | None, Some t0 =>
          (pollTime p - t0) :: touchDurations None (pollTime p) rest
      | None, None => touchDurations None (pollTime p) rest
      end
  end.

(** The clock does not wrap around during the sequence: every poll leaves
    room for the longest delay that is added to it. *)
Definition clockInRange (polls : list Poll) : Prop :=
  Forall (fun p => 0 <= pollTime p < ULONG_MODULUS - TOUCH_AUTO_REPEAT_DELAY)
         polls.

(** The formula of the specification for the number of AutoRepeat events of
    a touch held for [duration] milliseconds. *)
Definition specRepeatCount (duration : Z) : Z :=
  (duration - TOUCH_AUTO_REPEAT_DELAY) / TOUCH_AUTO_REPEAT_RATE.

(** The number of AutoRepeat events the state machine reports for a touch
    seen at every millisecond over [duration] milliseconds. *)
Definition repeatCount (duration : Z) : Z :=
  if duration <? TOUCH_DEBOUNCE_PERIOD + TOUCH_AUTO_REPEAT_DELAY then 0
  else (duration - (TOUCH_DEBOUNCE_PERIOD + TOUCH_AUTO_REPEAT_DELAY))
         / TOUCH_AUTO_REPEAT_RATE + 1.

(** Where the state machine stands after a finger has rested on the screen
    for [d] milliseconds, seen first at time [t0] and then at every
    millisecond. *)
Definition holdPhase (t0 d : Z) (ui : TouchUI) : Prop :=
  (d < TOUCH_DEBOUNCE_PERIOD /\
   touchState ui = CONFIRM_TOUCH_DOWN_STATE /\
   touchEventStartTime ui = t0) \/
  (TOUCH_DEBOUNCE_PERIOD <= d < TOUCH_DEBOUNCE_PERIOD + TOUCH_AUTO_REPEAT_DELAY /\
   touchState ui = WAITING_FOR_TOUCH_UP_STATE /\
   touchEventStartTime ui = t0 + TOUCH_DEBOUNCE_PERIOD) \/
  (TOUCH_DEBOUNCE_PERIOD + TOUCH_AUTO_REPEAT_DELAY <= d /\
   touchState ui = WAITING_FOR_TOUCH_UP_AFTER_AUTO_REPEAT_STATE /\
   touchEventStartTime ui =
     t0 + TOUCH_DEBOUNCE_PERIOD + TOUCH_AUTO_REPEAT_DELAY +
     TOUCH_AUTO_REPEAT_RATE *
       ((d - (TOUCH_DEBOUNCE_PERIOD + TOUCH_AUTO_REPEAT_DELAY))
          / TOUCH_AUTO_REPEAT_RATE)).

(** Two touches, each shorter than the debounce period, the second one
    under the finger when the debounce period of the first one ends. *)
Definition bouncePolls : list Poll :=
  [(0, Some (5, 5)); (10, None); (29, Some (6, 6)); (30, Some (6, 6));
   (31, None); (70, None)].

(** A finger resting at one place, seen at time 0 and at each of the
    following [d] milliseconds. *)
Definition restingPolls (d : nat) : list Poll :=
  (0, Some (5, 5)) :: held 0 (repeat (5, 5) d).

(** The poll reported no event; no event or an AutoRepeat. *)
Definition isQuiet (u : TouchUI) : Prop := touchEventType u = TOUCH_NO_EVENT.

Definition isQuietOrRepeat (u : TouchUI) : Prop :=
  touchEventType u = TOUCH_NO_EVENT \/ touchEventType u = TOUCH_REPEAT_EVENT.

(** An event of the given type at the given place. *)
Definition eventAt (k : TouchEventType) (x y : Z) : TouchUI :=
  mkTouchUI WAITING_FOR_TOUCH_UP_STATE 0 x y k x y.


(** A finger that drifts across the screen while it rests on it. *)
Definition dragPolls : list Poll :=
  [(0, Some (10, 10)); (15, Some (11, 10)); (30, Some (12, 11));
   (400, Some (50, 60)); (830, Some (80, 90)); (950, Some (100, 100));
   (960, None); (1000, None)].

(** A false alarm: the screen is untouched during [idlePolls], a touch is
    first seen at [alarmStart], the polls of [windowPolls] come before the
    debounce period of that touch has elapsed (and sample whatever they
    like), and the poll at [alarmEnd], the first one at or after the end of
    the debounce period, finds the screen untouched. *)
Record FalseAlarm : Type := mkFalseAlarm {
  idlePolls : list Poll;
  alarmStart : Z;
  alarmTouch : Z * Z;
  windowPolls : list Poll;
  alarmEnd : Z
}.

Definition alarmPolls (a : FalseAlarm) : list Poll :=
  idlePolls a
  ++ (alarmStart a, Some (alarmTouch a))
     :: windowPolls a ++ [(alarmEnd a, None)].

Definition isFalseAlarm (a : FalseAlarm) : Prop :=
  Forall (fun p => touched p = false) (idlePolls a) /\
  0 <= alarmStart a < ULONG_MODULUS - TOUCH_AUTO_REPEAT_DELAY /\
  Forall (fun p => pollTime p < alarmStart a + TOUCH_DEBOUNCE_PERIOD)
         (windowPolls a) /\
  alarmStart a + TOUCH_DEBOUNCE_PERIOD <= alarmEnd a.

(** Two touches of 10 ms, one second apart, polled every 5 ms while they
    last and once more 40 ms after they began. *)
Definition isolatedTouches : list FalseAlarm :=
  [mkFalseAlarm [(0, None)] 5 (5, 5) [(10, Some (5, 5)); (15, None)] 45;
   mkFalseAlarm [(500, None)] 1005 (6, 6)
     [(1010, Some (6, 6)); (1015, None)] 1045].

(** The AutoRepeat events of a sequence keep their distance: [last] holds
    the time of the latest Pressed or AutoRepeat event of the touch-down
    cycle and the period the next AutoRepeat has to wait for. *)
Fixpoint spaced (last : option (Z * Z)) (polls : list Poll)
    (uis : list TouchUI) : Prop :=
  match polls, uis with
  | p :: polls', ui :: uis' =>
      match touchEventType ui with
      | TOUCH_PUSHED_EVENT =>
          spaced (Some (pollTime p, TOUCH_AUTO_REPEAT_DELAY)) polls' uis'
      | TOUCH_REPEAT_EVENT =>
          (exists t period, last = Some (t, period) /\
                            t + period <= pollTime p) /\
          spaced (Some (pollTime p, TOUCH_AUTO_REPEAT_RATE)) polls' uis'
      | _ => spaced last polls' uis'
      end
  | _, _ => True
  end.

(** What [spaced] has to remember in each state. *)
Definition repeatTimer (ui : TouchUI) (last : option (Z * Z)) : Prop :=
  match touchState ui with
  | WAITING_FOR_TOUCH_UP_STATE =>
      last = Some (touchEventStartTime ui, TOUCH_AUTO_REPEAT_DELAY)
  | WAITING_FOR_TOUCH_UP_AFTER_AUTO_REPEAT_STATE =>
      last = Some (touchEventStartTime ui, TOUCH_AUTO_REPEAT_RATE)
  | _ => True
  end.

End Touch.



(** ** Drawing *)

(** The drawing routines the modelled functions call, recorded in the order
    of the calls. *)
Inductive Drawing : Type :=
  | DrawButton (labelText : string) (centerX centerY width height : Z)
      (showButtonTouchedFlg : bool)
  | DrawDownButtonInNumberBox (showButtonTouchedFlg : bool)
  | DrawUpButtonInNumberBox (showButtonTouchedFlg : bool)
  | DrawNumberInNumberBox (value : Z)
  | DrawNumberInNumberBoxFloat (value : Float32.float)
  | DrawSelectionBoxCell (cellNumber value : Z) (showButtonTouchedFlg : bool)
  | DrawTitleBar (titleBarText : string) (buttonType : Z)
  | DrawTitleBarBackButton (buttonSelectedFlg : bool)
  | DrawTitleBarMenuButton (buttonSelectedFlg : bool)
  | ClearDisplaySpace
  | DrawMenuItem (menuIdx : Z) (buttonText : string) (buttonSelectedFlg : bool)
  | KeypadDisplayValueInStringBuf (valueStr : string)
  | Delay (milliseconds : Z).

(** ** Button functions *)

Module Button.
Import Touch.

Record BUTTON : Type := mkBUTTON {
  labelText : string;
  centerX : Z;
  centerY : Z;
  width : Z;
  height : Z
}.

Definition isNoEvent (ui : TouchUI) : bool :=
  eventType_eqb (touchEventType ui) TOUCH_NO_EVENT.

Definition buttonX1 (b : BUTTON) : Z := centerX b - width b ÷ 2.
Definition buttonY1 (b : BUTTON) : Z := centerY b - height b ÷ 2.
Definition buttonX2 (b : BUTTON) : Z := buttonX1 b + width b - 1.
Definition buttonY2 (b : BUTTON) : Z := buttonY1 b + height b - 1.

Definition drawButton (b : BUTTON) (showButtonTouchedFlg : bool) : Drawing :=
  DrawButton (labelText b) (centerX b) (centerY b) (width b) (height b)
    showButtonTouchedFlg.

(** [checkForButtonClicked]: the user has touched and released the button;
    the button is highlighted when first touched. *)
Definition checkForButtonClicked (ui : TouchUI) (uiButton : BUTTON)
    : bool * list Drawing :=
  if isNoEvent ui then (false, [])
  else
    let X1 := buttonX1 uiButton in
    let Y1 := buttonY1 uiButton in
    let X2 := buttonX2 uiButton in
    let Y2 := buttonY2 uiButton in
    if checkForTouchEventInRect ui TOUCH_PUSHED_EVENT X1 Y1 X2 Y2
    then (false, [drawButton uiButton true])
    else if checkForTouchEventInRect ui TOUCH_RELEASED_EVENT X1 Y1 X2 Y2
    then (true, [drawButton uiButton false])
    else (false, []).

(** [checkForButtonAutoRepeat]: the user holds the button down. *)
Definition checkForButtonAutoRepeat (ui : TouchUI) (uiButton : BUTTON)
    : bool * list Drawing :=
  if isNoEvent ui then (false, [])
  else
    let X1 := buttonX1 uiButton in
    let Y1 := buttonY1 uiButton in
    let X2 := buttonX2 uiButton in
    let Y2 := buttonY2 uiButton in
    if checkForTouchEventInRect ui TOUCH_PUSHED_EVENT X1 Y1 X2 Y2
    then (true, [drawButton uiButton true])
    else if checkForTouchEventInRect ui TOUCH_REPEAT_EVENT X1 Y1 X2 Y2
    then (true, [])
    else if checkForTouchEventInRect ui TOUCH_RELEASED_EVENT X1 Y1 X2 Y2
    then (false, [drawButton uiButton false])
    else (false, []).

(** [checkForButtonFirstTouched]: the user has just touched the button. *)
Definition checkForButtonFirstTouched (ui : TouchUI) (uiButton : BUTTON)
    : bool * list Drawing :=
  if isNoEvent ui then (false, [])
  else
    let X1 := buttonX1 uiButton in
    let Y1 := buttonY1 uiButton in
    let X2 := buttonX2 uiButton in
    let Y2 := buttonY2 uiButton in
    if checkForTouchEventInRect ui TOUCH_PUSHED_EVENT X1 Y1 X2 Y2
    then (true, [drawButton uiButton true])
    else (false, []).

(** The point lies in the rectangle of the button, borders included. *)
Definition inButton (b : BUTTON) (x y : Z) : Prop :=
  buttonX1 b <= x <= buttonX2 b /\ buttonY1 b <= y <= buttonY2 b.

(** The button of the "Hold to say hello" screen of the examples, on the
    320 x 240 display. *)
Definition sayHelloButton : BUTTON :=
  mkBUTTON "Hold to say hello" 90 136 140 120.

(** One click on [sayHelloButton]: the finger comes down, rests long enough
    to auto repeat twice, and leaves. *)
Definition helloClickPolls : list Poll :=
  [(0, None); (5, Some (90, 130)); (20, Some (90, 130)); (35, Some (91, 131));
   (400, Some (92, 131)); (835, Some (92, 131)); (955, Some (92, 131));
   (960, None); (990, None); (1000, None)].

End Button.

(** ** Number Box functions *)

Module NumberBox.
Import Touch.

Record NUMBER_BOX : Type := mkNUMBER_BOX {
  labelText : string;
  value : Z;
  minimumValue : Z;
  maximumValue : Z;
  stepAmount : Z;
  centerX : Z;
  centerY : Z;
  width : Z;
  height : Z
}.

Definition setValue (numberBox : NUMBER_BOX) (newValue : Z) : NUMBER_BOX :=
  mkNUMBER_BOX (labelText numberBox) newValue (minimumValue numberBox)
    (maximumValue numberBox) (stepAmount numberBox) (centerX numberBox)
    (centerY numberBox) (width numberBox) (height numberBox).

(** [getNumberBoxCoordinates]. *)
Definition buttonWidth (numberBox : NUMBER_BOX) : Z :=
  let w := (height numberBox * 16) ÷ 10 in
  let w := if w >? (width numberBox * 4) ÷ 10
           then (width numberBox * 4) ÷ 10 else w in
  if w <? 30 then 30 else w.

Definition numberWidth (numberBox : NUMBER_BOX) : Z :=
  let w := width numberBox - 2 * buttonWidth numberBox in
  if w <? 30 then 30 else w.

Definition upButtonX (numberBox : NUMBER_BOX) : Z :=
  centerX numberBox - width numberBox ÷ 2.
Definition numberX (numberBox : NUMBER_BOX) : Z :=
  upButtonX numberBox + buttonWidth numberBox.
Definition downButtonX (numberBox : NUMBER_BOX) : Z :=
  numberX numberBox + numberWidth numberBox.
Definition topY (numberBox : NUMBER_BOX) : Z :=
  centerY numberBox - height numberBox ÷ 2.

(** [updateNumberBoxNumber]: add the signed [step] to the value and clamp
    the sum at the bound it moves towards. *)
Definition updateNumberBoxNumber (numberBox : NUMBER_BOX) (step : Z)
    : bool * NUMBER_BOX * list Drawing :=
  if step >? 0 then
    let newValue := int32 (value numberBox + step) in
    let newValue := if newValue >? maximumValue numberBox
                    then maximumValue numberBox else newValue in
    if value numberBox =? newValue then (false, numberBox, [])
    else (true, setValue numberBox newValue, [DrawNumberInNumberBox newValue])
  else if step <? 0 then
    let newValue := int32 (value numberBox + step) in
    let newValue := if newValue <? minimumValue numberBox
                    then minimumValue numberBox else newValue in
    if value numberBox =? newValue then (false, numberBox, [])
    else (true, setValue numberBox newValue, [DrawNumberInNumberBox newValue])
  else (false, numberBox, []).

(** The result of [checkForNumberBoxTouched]: the returned flag, the
    [numberBoxRepeatCount] member of the UI, the Number Box and the
    drawing done. *)
Record Touched : Type := mkTouched {
  changed : bool;
  numberBoxRepeatCount : Z;
  box : NUMBER_BOX;
  drawn : list Drawing
}.

(** The step of an auto repeat: the step amount times a multiplier that
    grows by one every 16 repeats. *)
Definition stepSize (numberBox : NUMBER_BOX) (repeatCount : Z) : Z :=
  int32 (stepAmount numberBox * int32 (repeatCount ÷ 16 + 1)).

(** [checkForNumberBoxTouched]. *)
Definition checkForNumberBoxTouched (ui : TouchUI) (repeatCount : Z)
    (numberBox : NUMBER_BOX) : Touched :=
  if eventType_eqb (touchEventType ui) TOUCH_NO_EVENT
  then mkTouched false repeatCount numberBox []
  else
    let X1 := downButtonX numberBox in
    let Y1 := topY numberBox in
    let X2 := downButtonX numberBox + buttonWidth numberBox - 1 in
    let Y2 := topY numberBox + height numberBox - 1 in
    if checkForTouchEventInRect ui TOUCH_PUSHED_EVENT X1 Y1 X2 Y2 then
      let '(_, numberBox', d) :=
        updateNumberBoxNumber numberBox (int32 (- stepAmount numberBox)) in
      mkTouched true 0 numberBox' (DrawDownButtonInNumberBox true :: d)
    else if checkForTouchEventInRect ui TOUCH_REPEAT_EVENT X1 Y1 X2 Y2 then
      let repeatCount' := int32 (repeatCount + 1) in
      let '(_, numberBox', d) :=
        updateNumberBoxNumber numberBox
          (int32 (- stepSize numberBox repeatCount')) in
      mkTouched true repeatCount' numberBox' d
    else if checkForTouchEventInRect ui TOUCH_RELEASED_EVENT X1 Y1 X2 Y2 then
      mkTouched false repeatCount numberBox [DrawDownButtonInNumberBox false]
    else
      let X1 := upButtonX numberBox in
      let X2 := upButtonX numberBox + buttonWidth numberBox - 1 in
      if checkForTouchEventInRect ui TOUCH_PUSHED_EVENT X1 Y1 X2 Y2 then
        let '(_, numberBox', d) :=
          updateNumberBoxNumber numberBox (stepAmount numberBox) in
        mkTouched true 0 numberBox' (DrawUpButtonInNumberBox true :: d)
      else if checkForTouchEventInRect ui TOUCH_REPEAT_EVENT X1 Y1 X2 Y2 then
        let repeatCount' := int32 (repeatCount + 1) in
        let '(_, numberBox', d) :=
          updateNumberBoxNumber numberBox (stepSize numberBox repeatCount') in
        mkTouched true repeatCount' numberBox' d
      else if checkForTouchEventInRect ui TOUCH_RELEASED_EVENT X1 Y1 X2 Y2 then
        mkTouched false repeatCount numberBox [DrawUpButtonInNumberBox false]
      else mkTouched false repeatCount numberBox [].

(** The Number Box and the repeat counter after the screen loop has passed
    each of the events [uis] to [checkForNumberBoxTouched]. *)
Fixpoint touches (uis : list TouchUI) (repeatCount : Z)
    (numberBox : NUMBER_BOX) : Z * NUMBER_BOX :=
  match uis with
  | [] => (repeatCount, numberBox)
  | ui :: rest =>
      let r := checkForNumberBoxTouched ui repeatCount numberBox in
      touches rest (numberBoxRepeatCount r) (box r)
  end.




(** The Number Box after [updateNumberBoxNumber]. *)
Definition updated (numberBox : NUMBER_BOX) (step : Z) : NUMBER_BOX :=
  snd (fst (updateNumberBoxNumber numberBox step)).







End NumberBox.

(** ** Number Box functions (float) *)

Module NumberBoxFloat.
Import Touch.
Import Float32.

Record NUMBER_BOX_FLOAT : Type := mkNUMBER_BOX_FLOAT {
  labelText : string;
  value : float;
  minimumValue : float;
  maximumValue : float;
  stepAmount : float;
  digitsRightOfDecimal : Z;
  centerX : Z;
  centerY : Z;
  width : Z;
  height : Z
}.

Definition setValue (numberBox : NUMBER_BOX_FLOAT) (newValue : float)
    : NUMBER_BOX_FLOAT :=
  mkNUMBER_BOX_FLOAT (labelText numberBox) newValue (minimumValue numberBox)
    (maximumValue numberBox) (stepAmount numberBox)
    (digitsRightOfDecimal numberBox) (centerX numberBox) (centerY numberBox)
    (width numberBox) (height numberBox).

(** [getNumberBoxCoordinatesFloat]. *)
Definition buttonWidth (numberBox : NUMBER_BOX_FLOAT) : Z :=
  let w := (height numberBox * 16) ÷ 10 in
  let w := if w >? (width numberBox * 4) ÷ 10
           then (width numberBox * 4) ÷ 10 else w in
  if w <? 30 then 30 else w.

Definition numberWidth (numberBox : NUMBER_BOX_FLOAT) : Z :=
  let w := width numberBox - 2 * buttonWidth numberBox in
  if w <? 30 then 30 else w.

Definition upButtonX (numberBox : NUMBER_BOX_FLOAT) : Z :=
  centerX numberBox - width numberBox ÷ 2.
Definition numberX (numberBox : NUMBER_BOX_FLOAT) : Z :=
  upButtonX numberBox + buttonWidth numberBox.
Definition downButtonX (numberBox : NUMBER_BOX_FLOAT) : Z :=
  numberX numberBox + numberWidth numberBox.
Definition topY (numberBox : NUMBER_BOX_FLOAT) : Z :=
  centerY numberBox - height numberBox ÷ 2.

(** [updateNumberBoxNumberFloat]: add the signed [step] to the value and
    clamp the sum at the bound it moves towards. *)
Definition updateNumberBoxNumberFloat (numberBox : NUMBER_BOX_FLOAT)
    (step : float) : bool * NUMBER_BOX_FLOAT * list Drawing :=
  if fltb fzero step then
    let newValue := fadd (value numberBox) step in
    let newValue := if fltb (maximumValue numberBox) newValue
                    then maximumValue numberBox else newValue in
    if feqb (value numberBox) newValue then (false, numberBox, [])
    else (true, setValue numberBox newValue,
          [DrawNumberInNumberBoxFloat newValue])
  else if fltb step fzero then
    let newValue := fadd (value numberBox) step in
    let newValue := if fltb newValue (minimumValue numberBox)
                    then minimumValue numberBox else newValue in
    if feqb (value numberBox) newValue then (false, numberBox, [])
    else (true, setValue numberBox newValue,
          [DrawNumberInNumberBoxFloat newValue])
  else (false, numberBox, []).

(** The result of [checkForNumberBoxTouched]: the returned flag, the
    [numberBoxRepeatCount] member of the UI, the Number Box and the
    drawing done. *)
Record Touched : Type := mkTouched {
  changed : bool;
  numberBoxRepeatCount : Z;
  box : NUMBER_BOX_FLOAT;
  drawn : list Drawing
}.

(** The step of an auto repeat: the step amount times a multiplier that
    grows by one every 16 repeats. *)
Definition stepSize (numberBox : NUMBER_BOX_FLOAT) (repeatCount : Z) : float :=
  fmul (stepAmount numberBox) (ofInt (int32 (repeatCount ÷ 16 + 1))).

(** [checkForNumberBoxTouched] for a float Number Box. *)
Definition checkForNumberBoxTouched (ui : TouchUI) (repeatCount : Z)
    (numberBox : NUMBER_BOX_FLOAT) : Touched :=
  if eventType_eqb (touchEventType ui) TOUCH_NO_EVENT
  then mkTouched false repeatCount numberBox []
  else
    let X1 := downButtonX numberBox in
    let Y1 := topY numberBox in
    let X2 := downButtonX numberBox + buttonWidth numberBox - 1 in
    let Y2 := topY numberBox + height numberBox - 1 in
    if checkForTouchEventInRect ui TOUCH_PUSHED_EVENT X1 Y1 X2 Y2 then
      let '(_, numberBox', d) :=
        updateNumberBoxNumberFloat numberBox (fopp (stepAmount numberBox)) in
      mkTouched true 0 numberBox' (DrawDownButtonInNumberBox true :: d)
    else if checkForTouchEventInRect ui TOUCH_REPEAT_EVENT X1 Y1 X2 Y2 then
      let repeatCount' := int32 (repeatCount + 1) in
      let '(_, numberBox', d) :=
        updateNumberBoxNumberFloat numberBox
          (fopp (stepSize numberBox repeatCount')) in
      mkTouched true repeatCount' numberBox' d
    else if checkForTouchEventInRect ui TOUCH_RELEASED_EVENT X1 Y1 X2 Y2 then
      mkTouched false repeatCount numberBox [DrawDownButtonInNumberBox false]
    else
      let X1 := upButtonX numberBox in
      let X2 := upButtonX numberBox + buttonWidth numberBox - 1 in
      if checkForTouchEventInRect ui TOUCH_PUSHED_EVENT X1 Y1 X2 Y2 then
        let '(_, numberBox', d) :=
          updateNumberBoxNumberFloat numberBox (stepAmount numberBox) in
        mkTouched true 0 numberBox' (DrawUpButtonInNumberBox true :: d)
      else if checkForTouchEventInRect ui TOUCH_REPEAT_EVENT X1 Y1 X2 Y2 then
        let repeatCount' := int32 (repeatCount + 1) in
        let '(_, numberBox', d) :=
          updateNumberBoxNumberFloat numberBox
            (stepSize numberBox repeatCount') in
        mkTouched true repeatCount' numberBox' d
      else if checkForTouchEventInRect ui TOUCH_RELEASED_EVENT X1 Y1 X2 Y2 then
        mkTouched false repeatCount numberBox [DrawUpButtonInNumberBox false]
      else mkTouched false repeatCount numberBox [].

(** The Number Box and the repeat counter after the screen loop has passed
    each of the events [uis] to [checkForNumberBoxTouched]. *)
Fixpoint touches (uis : list TouchUI) (repeatCount : Z)
    (numberBox : NUMBER_BOX_FLOAT) : Z * NUMBER_BOX_FLOAT :=
  match uis with
  | [] => (repeatCount, numberBox)
  | ui :: rest =>
      let r := checkForNumberBoxTouched ui repeatCount numberBox in
      touches rest (numberBoxRepeatCount r) (box r)
  end.

(** The Number Box after [updateNumberBoxNumberFloat]. *)
Definition updated (numberBox : NUMBER_BOX_FLOAT) (step : float)
    : NUMBER_BOX_FLOAT :=
  snd (fst (updateNumberBoxNumberFloat numberBox step)).

(** The fields of the Number Box are floats. *)
Definition wellFormed (numberBox : NUMBER_BOX_FLOAT) : bool :=
  isFloat (value numberBox) && isFloat (minimumValue numberBox)
  && isFloat (maximumValue numberBox) && isFloat (stepAmount numberBox).

(** [minimumValue <= value && value <= maximumValue]. *)
Definition inRange (numberBox : NUMBER_BOX_FLOAT) : bool :=
  fleb (minimumValue numberBox) (value numberBox)
  && fleb (value numberBox) (maximumValue numberBox).

(** Both bounds are numbers, not infinities. *)
Definition finiteBounds (numberBox : NUMBER_BOX_FLOAT) : bool :=
  isFinite (minimumValue numberBox) && isFinite (maximumValue numberBox).

(** The Number Box of the documentation, "Set X scaler", between 0 and 1,
    here with the step 0.25 and the value 0.5. *)
Definition scalerBox : NUMBER_BOX_FLOAT :=
  mkNUMBER_BOX_FLOAT "Set X scaler" (ofDyadic 1 (-1)) fzero (ofInt 1)
    (ofDyadic 1 (-2)) 2 100 100 200 40.


(** A Number Box that has reached 2^24 = 16777216 in steps of 1. *)
Definition countBox : NUMBER_BOX_FLOAT :=
  mkNUMBER_BOX_FLOAT "Count" (ofInt 16777216) fzero (ofInt 100000000)
    (ofInt 1) 0 100 100 200 40.


End NumberBoxFloat.

(** ** Selection Box functions *)

Module SelectionBox.
Import Touch.

Record SELECTION_BOX : Type := mkSELECTION_BOX {
  labelText : string;
  value : Z;
  choice0Text : string;
  choice1Text : string;
  choice2Text : string;
  choice3Text : string;
  centerX : Z;
  centerY : Z;
  width : Z;
  height : Z
}.

Definition setValue (selectionBox : SELECTION_BOX) (newValue : Z)
    : SELECTION_BOX :=
  mkSELECTION_BOX (labelText selectionBox) newValue
    (choice0Text selectionBox) (choice1Text selectionBox)
    (choice2Text selectionBox) (choice3Text selectionBox)
    (centerX selectionBox) (centerY selectionBox)
    (width selectionBox) (height selectionBox).

(** The test [text[0] == 0] of a C string. *)
Definition isEmpty (text : string) : bool :=
  match text with EmptyString => true | String _ _ => false end.

(** [countSelectionBoxChoices]: the number of choices, 1 to 4. *)
Definition countSelectionBoxChoices (selectionBox : SELECTION_BOX) : Z :=
  if isEmpty (choice1Text selectionBox) then 1
  else if isEmpty (choice2Text selectionBox) then 2
  else if isEmpty (choice3Text selectionBox) then 3
  else 4.

(** [getCoordsOfSelectionBoxCell]: the corner and the size of one cell. *)
Definition cellWidth (selectionBox : SELECTION_BOX) : Z :=
  (width selectionBox - 3) ÷ countSelectionBoxChoices selectionBox.

Definition cellX (selectionBox : SELECTION_BOX) (cellNumber : Z) : Z :=
  let overallWidth :=
    cellWidth selectionBox * countSelectionBoxChoices selectionBox in
  (centerX selectionBox - overallWidth ÷ 2)
  + cellNumber * cellWidth selectionBox.

Definition cellY (selectionBox : SELECTION_BOX) : Z :=
  centerY selectionBox - (height selectionBox - 3) ÷ 2.

Definition cellHeight (selectionBox : SELECTION_BOX) : Z :=
  height selectionBox - 3.

(** The redrawing of all the cells, [for (cell = 0; cell < numberOfCells;
    cell++) drawSelectionBoxCell(...)]. *)
Definition drawCells (selectionBox : SELECTION_BOX)
    (showButtonTouchedFlg : bool) : list Drawing :=
  map (fun cell => DrawSelectionBoxCell (Z.of_nat cell) (value selectionBox)
                     showButtonTouchedFlg)
      (seq 0 (Z.to_nat (countSelectionBoxChoices selectionBox))).

(** The loop of [checkForSelectionBoxTouched] over the cells, from
    [cellNumber] on, [remaining] of them left. *)
Fixpoint checkCells (ui : TouchUI) (selectionBox : SELECTION_BOX)
    (cellNumber : Z) (remaining : nat)
    : bool * SELECTION_BOX * list Drawing :=
  match remaining with
  | O => (false, selectionBox, [])
  | S remaining' =>
      let X := cellX selectionBox cellNumber in
      let Y := cellY selectionBox in
      let width := cellWidth selectionBox in
      let height := cellHeight selectionBox in
      if checkForTouchEventInRect ui TOUCH_PUSHED_EVENT
           X Y (X + width - 1) (Y + height - 1)
      then
        let oldSelectionValue := value selectionBox in
        let selectionBox' := setValue selectionBox cellNumber in
        (negb (oldSelectionValue =? value selectionBox'), selectionBox',
         drawCells selectionBox' true)
      else if checkForTouchEventInRect ui TOUCH_RELEASED_EVENT
                X Y (X + width - 1) (Y + height - 1)
      then (false, selectionBox, drawCells selectionBox false)
      else checkCells ui selectionBox (cellNumber + 1) remaining'
  end.

(** [checkForSelectionBoxTouched]. *)
Definition checkForSelectionBoxTouched (ui : TouchUI)
    (selectionBox : SELECTION_BOX) : bool * SELECTION_BOX * list Drawing :=
  if eventType_eqb (touchEventType ui) TOUCH_NO_EVENT
  then (false, selectionBox, [])
  else
    let numberOfCells := countSelectionBoxChoices selectionBox in
    checkCells ui selectionBox 0 (Z.to_nat numberOfCells).

(** The point lies in the cell, borders included. *)
Definition inCell (selectionBox : SELECTION_BOX) (cellNumber x y : Z) : Prop :=
  cellX selectionBox cellNumber <= x
    <= cellX selectionBox cellNumber + cellWidth selectionBox - 1 /\
  cellY selectionBox <= y <= cellY selectionBox + cellHeight selectionBox - 1.

(** The user pressed the cell: a Pressed event inside it. *)
Definition pressedCell (ui : TouchUI) (selectionBox : SELECTION_BOX)
    (cellNumber : Z) : Prop :=
  touchEventType ui = TOUCH_PUSHED_EVENT /\
  0 <= cellNumber < countSelectionBoxChoices selectionBox /\
  inCell selectionBox cellNumber (touchEventX ui) (touchEventY ui).

(** The Selection Box of the documentation, on the 320 x 240 display, with
    Medium selected. *)
Definition powerSelectionBox : SELECTION_BOX :=
  mkSELECTION_BOX "Laser power level" 1 "Low" "Medium" "High" ""
    160 116 250 33.

(** The result of [checkForSelectionBoxTouched]: the flag and the box. *)
Definition touchedFlag (r : bool * SELECTION_BOX * list Drawing) : bool :=
  fst (fst r).
Definition touchedBox (r : bool * SELECTION_BOX * list Drawing)
    : SELECTION_BOX :=
  snd (fst r).

End SelectionBox.

(** ** Menu functions *)

Module Menu.
Import Touch.

(** The size of features for drawing the user interface. *)
Definition titleBarHeight : Z := 34.
Definition arrowWidth : Z := 8.

Definition TITLE_BAR_BUTTON_TYPE_NONE : Z := 0.
Definition TITLE_BAR_BUTTON_TYPE_BACK : Z := 1.
Definition TITLE_BAR_BUTTON_TYPE_MENU : Z := 2.

(** The geometry members of the UI object. *)
Record Display : Type := mkDisplay {
  lcdWidth : Z;
  lcdHeight : Z;
  displaySpaceWidth : Z;
  displaySpaceHeight : Z;
  displaySpaceLeftX : Z;
  displaySpaceRightX : Z;
  displaySpaceTopY : Z;
  displaySpaceBottomY : Z;
  displaySpaceCenterX : Z;
  displaySpaceCenterY : Z
}.

(** [setOrientation], for an LCD that reports the given width and height. *)
Definition setOrientation (width height : Z) : Display :=
  let displaySpaceWidth := width - 2 in
  let displaySpaceHeight := height - titleBarHeight - 1 in
  let displaySpaceLeftX := 1 in
  let displaySpaceTopY := titleBarHeight in
  mkDisplay width height displaySpaceWidth displaySpaceHeight
    displaySpaceLeftX (displaySpaceLeftX + displaySpaceWidth - 1)
    displaySpaceTopY (displaySpaceTopY + displaySpaceHeight - 1)
    (displaySpaceLeftX + displaySpaceWidth ÷ 2)
    (displaySpaceTopY + displaySpaceHeight ÷ 2).

(** The 320 x 240 LCD in landscape orientation. *)
Definition landscape : Display := setOrientation 320 240.

Inductive ItemType : Type :=
  | MENU_ITEM_TYPE_MAIN_MENU_HEADER
  | MENU_ITEM_TYPE_SUB_MENU_HEADER
  | MENU_ITEM_TYPE_SUB_MENU
  | MENU_ITEM_TYPE_COMMAND
  | MENU_ITEM_TYPE_TOGGLE
  | MENU_ITEM_TYPE_END_OF_MENU.

Definition itemType_eqb (a b : ItemType) : bool :=
  match a, b with
  | MENU_ITEM_TYPE_MAIN_MENU_HEADER, MENU_ITEM_TYPE_MAIN_MENU_HEADER
  | MENU_ITEM_TYPE_SUB_MENU_HEADER, MENU_ITEM_TYPE_SUB_MENU_HEADER
  | MENU_ITEM_TYPE_SUB_MENU, MENU_ITEM_TYPE_SUB_MENU
  | MENU_ITEM_TYPE_COMMAND, MENU_ITEM_TYPE_COMMAND
  | MENU_ITEM_TYPE_TOGGLE, MENU_ITEM_TYPE_TOGGLE
  | MENU_ITEM_TYPE_END_OF_MENU, MENU_ITEM_TYPE_END_OF_MENU => true
  | _, _ => false
  end.

(** A row of a menu table.  [MenuItemFunction] is the value of the function
    pointer: the address of a callback, the number of columns in a header
    row, 0 for NULL.  [MenuItemSubMenu] points to a menu table of the
    application, [None] being NULL. *)
Record MENU_ITEM : Type := mkMENU_ITEM {
  MenuItemType : ItemType;
  MenuItemText : string;
  MenuItemFunction : Z;
  MenuItemSubMenu : option nat
}.

Definition MENU_COLUMNS_1 : Z := 1.
Definition MENU_COLUMNS_2 : Z := 2.
Definition MENU_COLUMNS_3 : Z := 3.
Definition MENU_COLUMNS_4 : Z := 4.

(** The loop that counts the buttons of a table: [items] is the table from
    index 1 on.  A table without its END_OF_MENU row makes the loop run off
    the table, which is undefined: [None]. *)
Fixpoint countButtons (items : list MENU_ITEM) : option Z :=
  match items with
  | [] => None
  | item :: rest =>
      if itemType_eqb (MenuItemType item) MENU_ITEM_TYPE_END_OF_MENU
      then Some 0
      else match countButtons rest with
           | Some n => Some (n + 1)
           | None => None
           end
  end.

(** The number of columns a header row asks for. *)
Definition columnsOfButtons (header : MENU_ITEM) : Z :=
  let columns := MenuItemFunction header in
  if (columns <? 1) || (columns >? 4) then 1 else columns.

Definition rowsOfButtons (buttonCount columns : Z) : Z :=
  (buttonCount + columns - 1) ÷ columns.

(** [getMenuButtonSizeAndLocation]: the corner and the size of the button
    of row [menuIdx] of the table, [(buttonX, buttonY, buttonWidth,
    buttonHeight)].  A menu without buttons divides by zero: [None]. *)
Definition getMenuButtonSizeAndLocation (d : Display)
    (currentMenuTable : list MENU_ITEM) (menuIdx : Z)
    : option (Z * Z * Z * Z) :=
  match currentMenuTable with
  | [] => None
  | header :: items =>
      match countButtons items with
      | None => None
      | Some buttonCount =>
          let menuButtonNumber := menuIdx - 1 in
          let columns := columnsOfButtons header in
          let rows := rowsOfButtons buttonCount columns in
          if rows =? 0 then None
          else
            let paddingOnTheSidesOfButtons := 10 in
            let paddingBetweenButtons := 10 in
            let buttonWidth :=
              (displaySpaceWidth d - paddingOnTheSidesOfButtons * 2
               - paddingBetweenButtons * (columns - 1)) ÷ columns in
            let paddingOnTopAndBottomOfButtons := 10 in
            let buttonHeight :=
              (displaySpaceHeight d - paddingOnTopAndBottomOfButtons * 2
               - paddingBetweenButtons * (rows - 1)) ÷ rows in
            let paddingOnTopAndBottomOfButtons :=
              (displaySpaceHeight d - buttonHeight * rows
               - paddingBetweenButtons * (rows - 1)) ÷ 2 in
            let buttonRow := menuButtonNumber ÷ columns in
            let buttonColumn := menuButtonNumber - buttonRow * columns in
            let buttonCountOnThisRow :=
              if negb (buttonRow =? rows - 1)
                 || (Z.rem buttonCount columns =? 0)
              then columns
              else Z.rem buttonCount columns in
            let leftMostButtonX :=
              displaySpaceLeftX d
              + (displaySpaceWidth d - buttonWidth * buttonCountOnThisRow
                 - paddingBetweenButtons * (buttonCountOnThisRow - 1)) ÷ 2 in
            Some (leftMostButtonX
                    + (buttonWidth + paddingBetweenButtons) * buttonColumn,
                  displaySpaceTopY d + paddingOnTopAndBottomOfButtons
                    + (buttonHeight + paddingBetweenButtons) * buttonRow,
                  buttonWidth, buttonHeight)
      end
  end.

(** The table of the "Menus with Columns" example: six commands in two
    columns, a main menu that links back to itself (table 0). *)
Definition mainMenu : list MENU_ITEM :=
  [mkMENU_ITEM MENU_ITEM_TYPE_MAIN_MENU_HEADER
     "Example Three - Menus with Columns" MENU_COLUMNS_2 (Some 0%nat);
   mkMENU_ITEM MENU_ITEM_TYPE_COMMAND "Count to one" 101 None;
   mkMENU_ITEM MENU_ITEM_TYPE_COMMAND "Count to two" 102 None;
   mkMENU_ITEM MENU_ITEM_TYPE_COMMAND "Count to three" 103 None;
   mkMENU_ITEM MENU_ITEM_TYPE_COMMAND "Count to four" 104 None;
   mkMENU_ITEM MENU_ITEM_TYPE_COMMAND "Count to five" 105 None;
   mkMENU_ITEM MENU_ITEM_TYPE_COMMAND "Count to six" 106 None;
   mkMENU_ITEM MENU_ITEM_TYPE_END_OF_MENU "" 0 None].

(** A menu of three buttons in three columns. *)
Definition threeColumnMenu : list MENU_ITEM :=
  [mkMENU_ITEM MENU_ITEM_TYPE_MAIN_MENU_HEADER "Three" MENU_COLUMNS_3
     (Some 0%nat);
   mkMENU_ITEM MENU_ITEM_TYPE_COMMAND "One" 101 None;
   mkMENU_ITEM MENU_ITEM_TYPE_COMMAND "Two" 102 None;
   mkMENU_ITEM MENU_ITEM_TYPE_COMMAND "Three" 103 None;
   mkMENU_ITEM MENU_ITEM_TYPE_END_OF_MENU "" 0 None].

(** A menu of two buttons in one column. *)
Definition twoRowMenu : list MENU_ITEM :=
  [mkMENU_ITEM MENU_ITEM_TYPE_MAIN_MENU_HEADER "Two" MENU_COLUMNS_1
     (Some 0%nat);
   mkMENU_ITEM MENU_ITEM_TYPE_COMMAND "One" 101 None;
   mkMENU_ITEM MENU_ITEM_TYPE_COMMAND "Two" 102 None;
   mkMENU_ITEM MENU_ITEM_TYPE_END_OF_MENU "" 0 None].

(** The locals of [getMenuButtonSizeAndLocation], by name. *)
Definition menuButtonWidth (d : Display) (columns : Z) : Z :=
  (displaySpaceWidth d - 10 * 2 - 10 * (columns - 1)) ÷ columns.

Definition menuButtonHeight (d : Display) (rows : Z) : Z :=
  (displaySpaceHeight d - 10 * 2 - 10 * (rows - 1)) ÷ rows.

Definition menuTopPadding (d : Display) (rows : Z) : Z :=
  (displaySpaceHeight d - menuButtonHeight d rows * rows
   - 10 * (rows - 1)) ÷ 2.

Definition buttonCountOnRow (buttonCount columns rows buttonRow : Z) : Z :=
  if negb (buttonRow =? rows - 1) || (Z.rem buttonCount columns =? 0)
  then columns
  else Z.rem buttonCount columns.

Definition leftMostButtonX (d : Display) (columns buttonCountOnThisRow : Z)
    : Z :=
  displaySpaceLeftX d
  + (displaySpaceWidth d - menuButtonWidth d columns * buttonCountOnThisRow
     - 10 * (buttonCountOnThisRow - 1)) ÷ 2.

(** The rectangle of a button, [(0, 0, 0, 0)] where the source is
    undefined. *)
Definition buttonRect (d : Display) (table : list MENU_ITEM) (menuIdx : Z)
    : Z * Z * Z * Z :=
  match getMenuButtonSizeAndLocation d table menuIdx with
  | Some rect => rect
  | None => (0, 0, 0, 0)
  end.

Definition buttonX (d : Display) (table : list MENU_ITEM) (menuIdx : Z) : Z :=
  fst (fst (fst (buttonRect d table menuIdx))).
Definition buttonY (d : Display) (table : list MENU_ITEM) (menuIdx : Z) : Z :=
  snd (fst (fst (buttonRect d table menuIdx))).
Definition buttonWidth (d : Display) (table : list MENU_ITEM) (menuIdx : Z)
    : Z :=
  snd (fst (buttonRect d table menuIdx)).
Definition buttonHeight (d : Display) (table : list MENU_ITEM) (menuIdx : Z)
    : Z :=
  snd (buttonRect d table menuIdx).

(** The padding between the left edge of the display space and a button at
    [buttonX], between a button and the right edge, and the same for the top
    and the bottom. *)
Definition leftPadding (d : Display) (buttonX : Z) : Z :=
  buttonX - displaySpaceLeftX d.
Definition rightPadding (d : Display) (buttonX buttonWidth : Z) : Z :=
  displaySpaceRightX d - (buttonX + buttonWidth - 1).
Definition topPadding (d : Display) (buttonY : Z) : Z :=
  buttonY - displaySpaceTopY d.
Definition bottomPadding (d : Display) (buttonY buttonHeight : Z) : Z :=
  displaySpaceBottomY d - (buttonY + buttonHeight - 1).

(** *** The menu engine *)

(** The title bar button a header row asks for. *)
Definition titleBarButtonOf (header : MENU_ITEM) : Z :=
  if itemType_eqb (MenuItemType header) MENU_ITEM_TYPE_MAIN_MENU_HEADER
     && match MenuItemSubMenu header with Some _ => true | None => false end
  then TITLE_BAR_BUTTON_TYPE_NONE
  else TITLE_BAR_BUTTON_TYPE_BACK.

Section Engine.

(** The application: its state, the callbacks of its COMMAND and TOGGLE rows
    and its in-menu callback, each found by the value of the function
    pointer, and its menu tables, each found by its address.  A toggle
    callback reads [toggleSelectNextStateFlg] and leaves [toggleText]. *)
Variable App : Type.
Variable command : Z -> App -> App.
Variable toggle : Z -> bool -> App -> App * string.
Variable inMenuCallback : Z -> App -> App.
Variable tables : nat -> option (list MENU_ITEM).

(** The display, and the width of the text "Back" in the title bar font. *)
Variable d : Display.
Variable backTextWidth : Z.

(** The members of the UI object the menu functions read and write, with
    the state of the application and the drawing done so far. *)
Record MenuUI : Type := mkMenuUI {
  currentMenuTable : option nat;
  buttonTypeOnTitleBar : Z;
  toggleSelectNextStateFlg : bool;
  inMenuCallbackFunction : Z;
  app : App;
  drawn : list Drawing
}.

Definition draw (c : Drawing) (s : MenuUI) : MenuUI :=
  mkMenuUI (currentMenuTable s) (buttonTypeOnTitleBar s)
    (toggleSelectNextStateFlg s) (inMenuCallbackFunction s) (app s)
    (drawn s ++ [c]).

(** What drawing leaves alone: the current table and the button on the
    title bar; the drawing done so far is only added to. *)
Definition keeps (s s' : MenuUI) : Prop :=
  currentMenuTable s' = currentMenuTable s /\
  buttonTypeOnTitleBar s' = buttonTypeOnTitleBar s /\
  exists more, drawn s' = drawn s ++ more.

Definition setApp (a : App) (s : MenuUI) : MenuUI :=
  mkMenuUI (currentMenuTable s) (buttonTypeOnTitleBar s)
    (toggleSelectNextStateFlg s) (inMenuCallbackFunction s) a (drawn s).

Definition setToggleFlg (flg : bool) (s : MenuUI) : MenuUI :=
  mkMenuUI (currentMenuTable s) (buttonTypeOnTitleBar s) flg
    (inMenuCallbackFunction s) (app s) (drawn s).

(** The table [currentMenuTable] points to; NULL and wild pointers have
    none. *)
Definition currentTable (s : MenuUI) : option (list MENU_ITEM) :=
  match currentMenuTable s with
  | Some p => tables p
  | None => None
  end.

(** [currentMenuTable[menuIdx]]. *)
Definition currentItem (s : MenuUI) (menuIdx : Z) : option MENU_ITEM :=
  match currentTable s with
  | Some table => if menuIdx <? 0 then None
                  else nth_error table (Z.to_nat menuIdx)
  | None => None
  end.

(** [getBackButtonSizeAndLocation]. *)
Definition backButtonHeight : Z := titleBarHeight - 6.
Definition backButtonWidth : Z :=
  let backButtonRadius := backButtonHeight ÷ 2 in
  backButtonRadius + arrowWidth * 2 + backTextWidth + backButtonRadius - 3.
Definition backButtonX : Z := 4.
Definition backButtonY : Z := (titleBarHeight - backButtonHeight) ÷ 2.

(** [drawTitleBar(titleBarText, buttonType)]. *)
Definition drawTitleBar (titleBarText : string) (buttonType : Z)
    (s : MenuUI) : MenuUI :=
  let s := mkMenuUI (currentMenuTable s) buttonType
             (toggleSelectNextStateFlg s) (inMenuCallbackFunction s) (app s)
             (drawn s ++ [DrawTitleBar titleBarText buttonType]) in
  let s := if buttonType =? TITLE_BAR_BUTTON_TYPE_BACK
           then draw (DrawTitleBarBackButton false) s
           else s in
  if buttonType =? TITLE_BAR_BUTTON_TYPE_MENU
  then draw (DrawTitleBarMenuButton false) s
  else s.

(** [checkForBackButtonClicked]. *)
Definition checkForBackButtonClicked (ui : TouchUI) (s : MenuUI)
    : bool * MenuUI :=
  if buttonTypeOnTitleBar s =? TITLE_BAR_BUTTON_TYPE_BACK then
    if eventType_eqb (touchEventType ui) TOUCH_NO_EVENT then (false, s)
    else
      let X1 := backButtonX in
      let Y1 := backButtonY in
      let X2 := X1 + backButtonWidth - 1 in
      let Y2 := Y1 + backButtonHeight - 1 in
      if checkForTouchEventInRect ui TOUCH_PUSHED_EVENT X1 Y1 X2 Y2
      then (false, draw (DrawTitleBarBackButton true) s)
      else if checkForTouchEventInRect ui TOUCH_RELEASED_EVENT X1 Y1 X2 Y2
      then (true, draw (DrawTitleBarBackButton false) s)
      else (false, s)
  else (false, s).

(** [drawMenuItem]: a row that is not there is undefined, [None]. *)
Definition drawMenuItem (menuIdx : Z) (buttonSelectedFlg : bool)
    (s : MenuUI) : option MenuUI :=
  match currentItem s menuIdx with
  | None => None
  | Some item =>
      match MenuItemType item with
      | MENU_ITEM_TYPE_SUB_MENU
      | MENU_ITEM_TYPE_COMMAND =>
          Some (draw (DrawMenuItem menuIdx (MenuItemText item)
                        buttonSelectedFlg) s)
      | MENU_ITEM_TYPE_TOGGLE =>
          let s := setToggleFlg false s in
          let '(a, toggleText) :=
            toggle (MenuItemFunction item) false (app s) in
          Some (draw (DrawMenuItem menuIdx
                        (MenuItemText item ++ ":  " ++ toggleText)
                        buttonSelectedFlg)
                     (setApp a s))
      | _ => Some s
      end
  end.

(** The loop of [drawMenu], over the rows of the table from [menuIdx] on. *)
Fixpoint drawItems (items : list MENU_ITEM) (menuIdx : Z) (s : MenuUI)
    : option MenuUI :=
  match items with
  | [] => None
  | item :: rest =>
      if itemType_eqb (MenuItemType item) MENU_ITEM_TYPE_END_OF_MENU
      then Some s
      else match drawMenuItem menuIdx false s with
           | Some s' => drawItems rest (menuIdx + 1) s'
           | None => None
           end
  end.

Definition drawMenu (s : MenuUI) : option MenuUI :=
  match currentTable s with
  | Some (_ :: items) => drawItems items 1 s
  | _ => None
  end.

(** [selectAndDrawMenu]. *)
Definition selectAndDrawMenu (menu : option nat) (drawMenuFlg : bool)
    (s : MenuUI) : option MenuUI :=
  let s := mkMenuUI menu (buttonTypeOnTitleBar s)
             (toggleSelectNextStateFlg s) (inMenuCallbackFunction s) (app s)
             (drawn s) in
  if negb drawMenuFlg then Some s
  else
    match currentItem s 0 with
    | None => None
    | Some header =>
        let s :=
          if itemType_eqb (MenuItemType header)
               MENU_ITEM_TYPE_MAIN_MENU_HEADER
             && match MenuItemSubMenu header with
                | Some _ => true
                | None => false
                end
          then drawTitleBar (MenuItemText header)
                 TITLE_BAR_BUTTON_TYPE_NONE s
          else drawTitleBar (MenuItemText header)
                 TITLE_BAR_BUTTON_TYPE_BACK s in
        drawMenu (draw ClearDisplaySpace s)
    end.

(** The loop of [findMenuButtonForTouchEvent]. *)
Fixpoint findButton (ui : TouchUI) (table items : list MENU_ITEM)
    (menuIdx : Z) : option Z :=
  match items with
  | [] => None
  | item :: rest =>
      if itemType_eqb (MenuItemType item) MENU_ITEM_TYPE_END_OF_MENU
      then Some 0
      else
        match getMenuButtonSizeAndLocation d table menuIdx with
        | None => None
        | Some (buttonX, buttonY, buttonWidth, buttonHeight) =>
            if (buttonX <=? touchEventX ui)
               && (touchEventX ui <=? buttonX + buttonWidth - 1)
               && (buttonY <=? touchEventY ui)
               && (touchEventY ui <=? buttonY + buttonHeight - 1)
            then Some menuIdx
            else findButton ui table rest (menuIdx + 1)
        end
  end.

Definition findMenuButtonForTouchEvent (ui : TouchUI) (s : MenuUI)
    : option Z :=
  match currentTable s with
  | Some (header :: items) => findButton ui (header :: items) items 1
  | _ => None
  end.

(** [executeMenuItem]. *)
Definition executeMenuItem (menuIdx : Z) (s : MenuUI) : option MenuUI :=
  match currentItem s menuIdx with
  | None => None
  | Some item =>
      match MenuItemType item with
      | MENU_ITEM_TYPE_SUB_MENU =>
          selectAndDrawMenu (MenuItemSubMenu item) true s
      | MENU_ITEM_TYPE_COMMAND =>
          let s := setApp (command (MenuItemFunction item) (app s)) s in
          selectAndDrawMenu (currentMenuTable s) true s
      | MENU_ITEM_TYPE_TOGGLE =>
          let s := setToggleFlg true s in
          let '(a, _) := toggle (MenuItemFunction item) true (app s) in
          drawMenuItem menuIdx false (setApp a s)
      | _ => Some s
      end
  end.

(** What one pass through the loop of [displayAndExecuteMenu] leads to: the
    function returns, the loop goes on, or the behaviour is undefined. *)
Inductive Pass : Type :=
  | Returns (s : MenuUI)
  | GoesOn (s : MenuUI)
  | Undefined.

Definition goesOn (r : option MenuUI) : Pass :=
  match r with
  | Some s => GoesOn s
  | None => Undefined
  end.

(** The end of the loop body: the in-menu callback, when one is set. *)
Definition callInMenuCallback (s : MenuUI) : MenuUI :=
  if inMenuCallbackFunction s =? 0 then s
  else setApp (inMenuCallback (inMenuCallbackFunction s) (app s)) s.

(** The buttons of the menu: highlight on Pressed, run on Released. *)
Definition checkMenuButtons (ui : TouchUI) (s : MenuUI) : Pass :=
  match findMenuButtonForTouchEvent ui s with
  | None => Undefined
  | Some menuIdx =>
      if menuIdx >? 0 then
        let r :=
          if eventType_eqb (touchEventType ui) TOUCH_PUSHED_EVENT
          then drawMenuItem menuIdx true s
          else Some s in
        match r with
        | None => Undefined
        | Some s =>
            if eventType_eqb (touchEventType ui) TOUCH_RELEASED_EVENT
            then match drawMenuItem menuIdx false s with
                 | Some s => goesOn (option_map callInMenuCallback
                                       (executeMenuItem menuIdx s))
                 | None => Undefined
                 end
            else GoesOn (callInMenuCallback s)
        end
      else GoesOn (callInMenuCallback s)
  end.

(** One pass through the loop of [displayAndExecuteMenu], for the event
    [getTouchEvents] has left in [ui]. *)
Definition menuPass (ui : TouchUI) (s : MenuUI) : Pass :=
  if negb (eventType_eqb (touchEventType ui) TOUCH_NO_EVENT) then
    let '(clicked, s) := checkForBackButtonClicked ui s in
    if clicked then
      match currentItem s 0 with
      | None => Undefined
      | Some header =>
          match MenuItemType header with
          | MENU_ITEM_TYPE_SUB_MENU_HEADER =>
              goesOn (selectAndDrawMenu (MenuItemSubMenu header) true s)
          | MENU_ITEM_TYPE_MAIN_MENU_HEADER =>
              match MenuItemSubMenu header with
              | None => Returns s
              | Some _ => GoesOn s
              end
          | _ => checkMenuButtons ui s
          end
      end
    else checkMenuButtons ui s
  else GoesOn (callInMenuCallback s).

(** [displayAndExecuteMenu], over the events of the polls to come. *)
Fixpoint menuLoop (uis : list TouchUI) (s : MenuUI) : Pass :=
  match uis with
  | [] => GoesOn s
  | ui :: rest =>
      match menuPass ui s with
      | GoesOn s' => menuLoop rest s'
      | r => r
      end
  end.

Definition displayAndExecuteMenu (menu : option nat) (uis : list TouchUI)
    (s : MenuUI) : Pass :=
  match selectAndDrawMenu menu true s with
  | Some s' => menuLoop uis s'
  | None => Undefined
  end.

(** What [drawMenu] draws for the rows [items] of a table, from index
    [menuIdx] on: one button per SUB_MENU, COMMAND and TOGGLE row, up to
    the END_OF_MENU row, the text of a TOGGLE button being completed by its
    callback; with the state the callbacks leave the application in. *)
Fixpoint menuButtons (items : list MENU_ITEM) (menuIdx : Z) (a : App)
    : list Drawing * App :=
  match items with
  | [] => ([], a)
  | item :: rest =>
      match MenuItemType item with
      | MENU_ITEM_TYPE_END_OF_MENU => ([], a)
      | MENU_ITEM_TYPE_SUB_MENU
      | MENU_ITEM_TYPE_COMMAND =>
          let '(buttons, a') := menuButtons rest (menuIdx + 1) a in
          (DrawMenuItem menuIdx (MenuItemText item) false :: buttons, a')
      | MENU_ITEM_TYPE_TOGGLE =>
          let '(a1, toggleText) := toggle (MenuItemFunction item) false a in
          let '(buttons, a') := menuButtons rest (menuIdx + 1) a1 in
          (DrawMenuItem menuIdx (MenuItemText item ++ ":  " ++ toggleText)
             false :: buttons, a')
      | _ => menuButtons rest (menuIdx + 1) a
      end
  end.

(** What [selectAndDrawMenu] draws for a table: the title bar, with its
    Back button when the header asks for one, the cleared display space
    and the buttons. *)
Definition menuScreen (table : list MENU_ITEM) (a : App) : list Drawing :=
  match table with
  | [] => []
  | header :: items =>
      DrawTitleBar (MenuItemText header) (titleBarButtonOf header)
      :: (if titleBarButtonOf header =? TITLE_BAR_BUTTON_TYPE_BACK
          then [DrawTitleBarBackButton false] else [])
      ++ ClearDisplaySpace :: fst (menuButtons items 1 a)
  end.

(** The Back button was clicked: a Released event inside it. *)
Definition backClicked (ui : TouchUI) : Prop :=
  touchEventType ui = TOUCH_RELEASED_EVENT /\
  backButtonX <= touchEventX ui <= backButtonX + backButtonWidth - 1 /\
  backButtonY <= touchEventY ui <= backButtonY + backButtonHeight - 1.

End Engine.

(** The menus of the documentation: an application menu that links back
    to itself (table 0), its Settings sub menu (table 1), and a main menu
    whose fourth field is NULL (table 2). *)
Definition appMenu : list MENU_ITEM :=
  [mkMENU_ITEM MENU_ITEM_TYPE_MAIN_MENU_HEADER "My App" MENU_COLUMNS_1
     (Some 0%nat);
   mkMENU_ITEM MENU_ITEM_TYPE_COMMAND "Log data" 201 None;
   mkMENU_ITEM MENU_ITEM_TYPE_TOGGLE "Sound" 202 None;
   mkMENU_ITEM MENU_ITEM_TYPE_SUB_MENU "Settings" 0 (Some 1%nat);
   mkMENU_ITEM MENU_ITEM_TYPE_END_OF_MENU "" 0 None].

Definition settingsMenu : list MENU_ITEM :=
  [mkMENU_ITEM MENU_ITEM_TYPE_SUB_MENU_HEADER "Menu Name" MENU_COLUMNS_2
     (Some 0%nat);
   mkMENU_ITEM MENU_ITEM_TYPE_COMMAND "Set contrast" 203 None;
   mkMENU_ITEM MENU_ITEM_TYPE_TOGGLE "Power mode" 204 None;
   mkMENU_ITEM MENU_ITEM_TYPE_TOGGLE "LED" 205 None;
   mkMENU_ITEM MENU_ITEM_TYPE_END_OF_MENU "" 0 None].

Definition stopwatchMenu : list MENU_ITEM :=
  [mkMENU_ITEM MENU_ITEM_TYPE_MAIN_MENU_HEADER "Stopwatch Settings"
     MENU_COLUMNS_1 None;
   mkMENU_ITEM MENU_ITEM_TYPE_COMMAND "Set number of digits" 206 None;
   mkMENU_ITEM MENU_ITEM_TYPE_COMMAND "Set screen colors" 207 None;
   mkMENU_ITEM MENU_ITEM_TYPE_COMMAND "About" 208 None;
   mkMENU_ITEM MENU_ITEM_TYPE_END_OF_MENU "" 0 None].

Definition appTables (p : nat) : option (list MENU_ITEM) :=
  match p with
  | 0%nat => Some appMenu
  | 1%nat => Some settingsMenu
  | 2%nat => Some stopwatchMenu
  | _ => None
  end.

(** An application without state: commands do nothing, toggles read "On". *)
Definition idleCommand (f : Z) (a : unit) : unit := a.
Definition idleToggle (f : Z) (flg : bool) (a : unit) : unit * string :=
  (a, "On"%string).

Definition freshUI : MenuUI unit := mkMenuUI unit None 0 false 0 tt [].

(** A click on the Back button of a title bar whose "Back" is 30 pixels
    wide. *)
Definition backClick : TouchUI := eventAt TOUCH_RELEASED_EVENT 20 15.

End Menu.

(** ** Numeric Keypad *)

Module Keypad.
Import Touch.
Import Button.

Definition DIGIT_BUTTONS_WIDTH : Z := 56.
Definition DIGIT_BUTTONS_HEIGHT : Z := 44.
Definition DIGIT_BUTTONS_HORZ_SPACING : Z := DIGIT_BUTTONS_WIDTH + 7.
Definition DIGIT_BUTTONS_VERT_SPACING : Z := DIGIT_BUTTONS_HEIGHT + 7.
Definition DIGIT_BUTTONS_X : Z := 35.
Definition DIGIT_BUTTONS_Y : Z := 61.
Definition OTHER_BUTTONS_X : Z := 254.
Definition OTHER_BUTTONS_Y : Z := 111.
Definition OTHER_BUTTONS_WIDTH : Z := 80.
Definition OTHER_BUTTONS_HEIGHT : Z := DIGIT_BUTTONS_HEIGHT.
Definition OTHER_BUTTONS_SPACING : Z := DIGIT_BUTTONS_VERT_SPACING.

Definition MAX_CHARACTERS : nat := 12.

(** The digit button at a row and a column of the pad. *)
Definition digitButton (label : string) (row col : Z) : BUTTON :=
  mkBUTTON label
    (DIGIT_BUTTONS_X + col * DIGIT_BUTTONS_HORZ_SPACING)
    (DIGIT_BUTTONS_Y + row * DIGIT_BUTTONS_VERT_SPACING)
    DIGIT_BUTTONS_WIDTH DIGIT_BUTTONS_HEIGHT.

Definition otherButton (label : string) (n : Z) : BUTTON :=
  mkBUTTON label OTHER_BUTTONS_X (OTHER_BUTTONS_Y + n * OTHER_BUTTONS_SPACING)
    OTHER_BUTTONS_WIDTH OTHER_BUTTONS_HEIGHT.

Definition button7 : BUTTON := digitButton "7" 0 0.
Definition button8 : BUTTON := digitButton "8" 0 1.
Definition button9 : BUTTON := digitButton "9" 0 2.
Definition button4 : BUTTON := digitButton "4" 1 0.
Definition button5 : BUTTON := digitButton "5" 1 1.
Definition button6 : BUTTON := digitButton "6" 1 2.
Definition button1 : BUTTON := digitButton "1" 2 0.
Definition button2 : BUTTON := digitButton "2" 2 1.
Definition button3 : BUTTON := digitButton "3" 2 2.

(** The last row: "0", "." and "+/-" on the keypad for a float, "0" and
    "+/-" on the keypad for an int. *)
Definition button0 (forFloat : bool) : BUTTON :=
  digitButton "0" 3 (if forFloat then 0 else 1).
Definition buttonDot : BUTTON := digitButton "." 3 1.
Definition buttonMinus : BUTTON := digitButton "+/-" 3 2.

Definition okButton : BUTTON := otherButton "OK" 0.
Definition cancelButton : BUTTON := otherButton "Cancel" 1.
Definition delButton : BUTTON := otherButton "<" 2.

(** The digit buttons, in the order the loop checks them, each with the
    character it enters. *)
Definition digitKeys (forFloat : bool) : list (BUTTON * ascii) :=
  [(button0 forFloat, "0"%char); (button1, "1"%char); (button2, "2"%char);
   (button3, "3"%char); (button4, "4"%char); (button5, "5"%char);
   (button6, "6"%char); (button7, "7"%char); (button8, "8"%char);
   (button9, "9"%char)].

(** String buffer editing. *)
Fixpoint removeLast (text : string) : string :=
  match text with
  | EmptyString => EmptyString
  | String c EmptyString => EmptyString
  | String c rest => String c (removeLast rest)
  end.

Fixpoint lastChar (text : string) : option ascii :=
  match text with
  | EmptyString => None
  | String c EmptyString => Some c
  | String c rest => lastChar rest
  end.

Definition lastCharIs (c : ascii) (text : string) : bool :=
  match lastChar text with
  | Some c' => Ascii.eqb c c'
  | None => false
  end.

Fixpoint countDots (text : string) : nat :=
  match text with
  | EmptyString => O
  | String c rest =>
      ((if Ascii.eqb c "."%char then 1 else 0) + countDots rest)%nat
  end.

(** The loop that removes the trailing zeros of the initial value:
    [while (i > 1) { if (valueStr[i] != '0') break; valueStr[i] = 0; i--; }]
    with [i] the index of the last character of [text]. *)
Fixpoint trimZeros (fuel : nat) (text : string) : string :=
  match fuel with
  | O => text
  | S fuel' =>
      if (2 <? String.length text)%nat && lastCharIs "0"%char text
      then trimZeros fuel' (removeLast text)
      else text
  end.

(** The initial text of the number field, from the output of [dtostrf]. *)
Definition initialValueStr (text : string) : string :=
  let text := if (MAX_CHARACTERS <? String.length text)%nat
              then substring 0 MAX_CHARACTERS text else text in
  let text := trimZeros (String.length text) text in
  if lastCharIs "."%char text then removeLast text else text.

Section NumericKeyPad.

(** The type of the number, [float] or [int], with what the C library and
    the language do on it: [dtostrf(value, 0, 4, valueStr)], the conversion
    of [atof(valueStr)] to the type of [value], and [<=]. *)
Variable Num : Type.
Variable dtostrf : Num -> string.
Variable atof : string -> Num.
Variable numLe : Num -> Num -> bool.

(** The keypad is the one for a float. *)
Variable forFloat : bool.

(** The locals and the reference parameter of [numericKeyPad], the string
    buffer, and the drawing done. *)
Record State : Type := mkState {
  valueStr : string;
  firstFlg : bool;
  value : Num;
  drawn : list Drawing
}.

Definition addDrawn (more : list Drawing) (s : State) : State :=
  mkState (valueStr s) (firstFlg s) (value s) (drawn s ++ more).

(** [keypad_AddCharToStringBuf]. *)
Definition keypad_AddCharToStringBuf (c : ascii) (s : State) : State :=
  let len := String.length (valueStr s) in
  if (MAX_CHARACTERS <=? len)%nat then s
  else
    let len := if firstFlg s then O else len in
    let text := (substring 0 len (valueStr s) ++ String c EmptyString)%string in
    mkState text false (value s)
      (drawn s ++ [KeypadDisplayValueInStringBuf text]).

(** One button check of the loop, with what a click does. *)
Definition onClick (ui : TouchUI) (b : BUTTON) (action : State -> State)
    (s : State) : State :=
  let '(clicked, d) := checkForButtonClicked ui b in
  let s := addDrawn d s in
  if clicked then action s else s.

Definition digitPass (ui : TouchUI) (s : State) : State :=
  fold_left (fun s key => onClick ui (fst key)
                            (keypad_AddCharToStringBuf (snd key)) s)
            (digitKeys forFloat) s.

Definition dotAction (s : State) : State :=
  if (countDots (valueStr s) =? 0)%nat
  then keypad_AddCharToStringBuf "."%char s
  else s.

Definition minusAction (s : State) : State :=
  if firstFlg s || (String.length (valueStr s) =? 0)%nat
  then keypad_AddCharToStringBuf "-"%char s
  else s.

Definition delAction (s : State) : State :=
  let text := removeLast (valueStr s) in
  mkState text false (value s)
    (drawn s ++ [KeypadDisplayValueInStringBuf text]).

(** The editing part of one pass through the loop. *)
Definition editPass (ui : TouchUI) (s : State) : State :=
  let s := digitPass ui s in
  let s := if forFloat then onClick ui buttonDot dotAction s else s in
  let s := onClick ui buttonMinus minusAction s in
  onClick ui delButton delAction s.

Definition outOfRangeText : string := ">>> NUMBER OUT OF RANGE <<<".

(** What one pass through the loop of [numericKeyPad] leads to. *)
Inductive Pass : Type :=
  | Returns (result : bool) (s : State)
  | GoesOn (s : State).

(** One pass through the loop of [numericKeyPad], for the event
    [getTouchEvents] has left in [ui]. *)
Definition keypadPass (titleBar : string) (minValue maxValue : Num)
    (ui : TouchUI) (s : State) : Pass :=
  let s := editPass ui s in
  let '(okClicked, d) := checkForButtonClicked ui okButton in
  let s := addDrawn d s in
  let afterOk :=
    if okClicked then
      let s := mkState (valueStr s) (firstFlg s) (atof (valueStr s))
                 (drawn s) in
      if numLe minValue (value s) && numLe (value s) maxValue
      then Returns true s
      else GoesOn (addDrawn [DrawTitleBar outOfRangeText 0;
                             Delay 1500;
                             DrawTitleBar titleBar 0] s)
    else GoesOn s in
  match afterOk with
  | Returns result s => Returns result s
  | GoesOn s =>
      let '(cancelClicked, d) := checkForButtonClicked ui cancelButton in
      let s := addDrawn d s in
      if cancelClicked then Returns false s else GoesOn s
  end.

Fixpoint keypadLoop (titleBar : string) (minValue maxValue : Num)
    (uis : list TouchUI) (s : State) : Pass :=
  match uis with
  | [] => GoesOn s
  | ui :: rest =>
      match keypadPass titleBar minValue maxValue ui s with
      | GoesOn s' => keypadLoop titleBar minValue maxValue rest s'
      | r => r
      end
  end.

(** The screen [numericKeyPad] draws before its loop. *)
Definition keypadScreen (titleBar : string) (text : string) : list Drawing :=
  [DrawTitleBar titleBar 0; ClearDisplaySpace]
  ++ map (fun b => drawButton b false)
       ([button1; button2; button3; button4; button5; button6; button7;
         button8; button9; button0 forFloat]
        ++ (if forFloat then [buttonDot] else [])
        ++ [buttonMinus; okButton; cancelButton; delButton])
  ++ [KeypadDisplayValueInStringBuf text].

(** [numericKeyPad], over the events of the polls to come. *)
Definition numericKeyPad (titleBar : string) (value : Num)
    (minValue maxValue : Num) (uis : list TouchUI) : Pass :=
  let text := initialValueStr (dtostrf value) in
  keypadLoop titleBar minValue maxValue uis
    (mkState text true value (keypadScreen titleBar text)).

(** The user clicked the button: a Released event inside it. *)
Definition clicked (b : BUTTON) (ui : TouchUI) : Prop :=
  touchEventType ui = TOUCH_RELEASED_EVENT /\
  inButton b (touchEventX ui) (touchEventY ui).

End NumericKeyPad.


(** The keypad for an [int].  [intToString] is
    [dtostrf(value, 0, 4, valueStr)] for an [int] value. *)
Definition intToString (n : Z) : string :=
  (NilZero.string_of_int (Z.to_int n) ++ ".0000")%string.

(** The value of a decimal digit. *)
Definition digitValue (c : ascii) : option Z :=
  let n := Z.of_nat (nat_of_ascii c) in
  if (48 <=? n) && (n <=? 57) then Some (n - 48) else None.

(** The digits at the start of [text], read as a number. *)
Fixpoint leadingDigits (acc : Z) (text : string) : Z :=
  match text with
  | EmptyString => acc
  | String c rest =>
      match digitValue c with
      | Some n => leadingDigits (acc * 10 + n) rest
      | None => acc
      end
  end.

(** The whole part of [atof(text)] for the texts the keypad builds, an
    optional sign, digits and an optional fraction: [atof] reads the
    longest number at the start of the text, and gives 0 when there is
    none. *)
Definition atofWhole (text : string) : Z :=
  match text with
  | EmptyString => 0
  | String c rest =>
      if Ascii.eqb c "-"%char then - leadingDigits 0 rest
      else if Ascii.eqb c "+"%char then leadingDigits 0 rest
      else leadingDigits 0 text
  end.

(** The conversion of a [double] to [int], for a whole number: the number
    itself inside the limits of [int]; beyond them, where C leaves the
    result open, the nearest limit, as the conversion routines of the
    32-bit targets of the library give it. *)
Definition doubleToInt (v : Z) : Z :=
  if v <? INT_MIN then INT_MIN else if v >? INT_MAX then INT_MAX else v.

(** [value = atof(valueStr)] for an [int] value. *)
Definition stringToInt (text : string) : Z := doubleToInt (atofWhole text).

(** A click in the middle of a button. *)
Definition click (b : BUTTON) : TouchUI :=
  eventAt TOUCH_RELEASED_EVENT (centerX b) (centerY b).

(** The scenario of the specification: the value 50 is to be replaced by a
    number between 20 and 100; the user types "15", clicks OK, then
    Cancel. *)
Definition rejectedThenCancelled : list TouchUI :=
  [click button1; click button5; click okButton; click cancelButton].

(** Ten times the digit 9, then OK. *)
Definition tenNines : list TouchUI :=
  repeat (click button9) 10 ++ [click okButton].

End Keypad.

(** ** Touch screen coordinates *)

Module TouchScreen.
Import Touch.
Import Float32.

(** Arduino's [constrain(amt, low, high)]. *)
Definition constrain (amt low high : Z) : Z :=
  if amt <? low then low else if amt >? high then high else amt.

(** [x / y] on floats, and the float nearest to the fraction [n / d]. *)
Definition fdiv (x y : float) : float := SFdiv prec emax x y.
Definition ofRatio (n d : Z) : float := fdiv (ofInt n) (ofInt d).

(** The conversion [(int)x] of a float: the whole part of [x]; beyond the
    limits of [int], where C leaves the result open, the nearest limit, and
    0 for what is not a number. *)
Definition toInt (x : float) : Z :=
  match x with
  | S754_finite s m e =>
      Keypad.doubleToInt
        (cond_Zopp s (if 0 <=? e then Zpos m * 2 ^ e else Zpos m / 2 ^ (- e)))
  | S754_infinity s => if s then INT_MIN else INT_MAX
  | _ => 0
  end.

(** The calibration constants set by
    [setTouchScreenCalibrationConstants]. *)
Record Calibration : Type := mkCalibration {
  touchScreenToLCDOffsetX : Z;
  touchScreenToLCDScalerX : float;
  touchScreenToLCDOffsetY : Z;
  touchScreenToLCDScalerY : float
}.

(** [getTouchScreenCoords]: [raw] is the result of
    [getRAWTouchScreenCoords], [None] when the screen is not touched. *)
Definition getTouchScreenCoords (d : Menu.Display) (c : Calibration)
    (raw : option (Z * Z)) : option (Z * Z) :=
  match raw with
  | None => None
  | Some (xRaw, yRaw) =>
      let x := int32 (toInt (fdiv (ofInt xRaw) (touchScreenToLCDScalerX c))
                      - touchScreenToLCDOffsetX c) in
      let xLCD := constrain x 0 (Menu.lcdWidth d - 1) in
      let y := int32 (toInt (fdiv (ofInt yRaw) (touchScreenToLCDScalerY c))
                      - touchScreenToLCDOffsetY c) in
      let yLCD := constrain y 0 (Menu.lcdHeight d - 1) in
      Some (xLCD, yLCD)
  end.

(** The polls of the control loop, from the clock and the raw samples. *)
Definition lcdPolls (d : Menu.Display) (c : Calibration)
    (rawPolls : list (Z * option (Z * Z))) : list Poll :=
  map (fun p => (fst p, getTouchScreenCoords d c (snd p))) rawPolls.

(** The point lies on the LCD. *)
Definition onLCD (d : Menu.Display) (x y : Z) : Prop :=
  0 <= x <= Menu.lcdWidth d - 1 /\ 0 <= y <= Menu.lcdHeight d - 1.

(** The constants of [setDefaultTouchScreenCalibrationConstants] for
    LCD_ORIENTATION_LANDSCAPE_4PIN_LEFT: 17, 11.07, 20, 14.90. *)
Definition landscapeCalibration : Calibration :=
  mkCalibration 17 (ofRatio 1107 100) 20 (ofRatio 1490 100).

End TouchScreen.

(** * Properties *)

Import Touch.

(** ** The touch event state machine *)

Lemma ulong_small (z : Z) : 0 <= z < ULONG_MODULUS -> ulong z = z.
Proof. intros H. unfold ulong. apply Z.mod_small. exact H. Qed.

Lemma run_app (polls1 polls2 : list Poll) (ui : TouchUI) :
  run ui (polls1 ++ polls2) = run ui polls1 ++ run (steps ui polls1) polls2.
Proof.
  revert ui. induction polls1 as [|p polls1 IH]; intros ui; simpl.
  - reflexivity.
  - rewrite IH. reflexivity.
Qed.

Lemma steps_app (polls1 polls2 : list Poll) (ui : TouchUI) :
  steps ui (polls1 ++ polls2) = steps (steps ui polls1) polls2.
Proof.
  revert ui. induction polls1 as [|p polls1 IH]; intros ui; simpl.
  - reflexivity.
  - apply IH.
Qed.

Lemma kinds_app (polls1 polls2 : list Poll) (ui : TouchUI) :
  kinds ui (polls1 ++ polls2) = kinds ui polls1 ++ kinds (steps ui polls1) polls2.
Proof. unfold kinds. rewrite run_app, map_app. reflexivity. Qed.

Lemma countKind_app (k : TouchEventType) (ks1 ks2 : list TouchEventType) :
  countKind k (ks1 ++ ks2) = countKind k ks1 + countKind k ks2.
Proof.
  unfold countKind. rewrite filter_app, length_app. lia.
Qed.

(** What one poll reports tells how it moved the machine in or out of a
    touch-down cycle. *)
Lemma getTouchEvents_cycle (t : Z) (touch : option (Z * Z)) (ui : TouchUI) :
  let ui' := getTouchEvents t touch ui in
  match touchEventType ui' with
  | TOUCH_NO_EVENT => isDown ui' = isDown ui
  | TOUCH_PUSHED_EVENT => isDown ui = false /\ isDown ui' = true
  | TOUCH_REPEAT_EVENT => isDown ui = true /\ isDown ui' = true
  | TOUCH_RELEASED_EVENT => isDown ui = true /\ isDown ui' = false
  end.
Proof.
  destruct ui as [st start rx ry k ex ey].
  unfold getTouchEvents, isDown; cbn [touchState touchEventStartTime].
  destruct st, touch as [[x y]|];
    repeat match goal with |- context [if ?c then _ else _] => destruct c end;
    cbn; auto.
Qed.

Lemma cycles_run (polls : list Poll) :
  forall ui, cycles (isDown ui) (kinds ui polls) = true.
Proof.
  induction polls as [|p polls IH]; intros ui.
  - reflexivity.
  - unfold kinds in *. cbn [run map].
    pose proof (getTouchEvents_cycle (pollTime p) (pollTouch p) ui) as H.
    cbv zeta in H.
    specialize (IH (getTouchEvents (pollTime p) (pollTouch p) ui)).
    destruct (touchEventType (getTouchEvents (pollTime p) (pollTouch p) ui));
      cbn [cycles].
    + rewrite <- H. exact IH.
    + destruct H as [H1 H2]. rewrite H2 in IH. rewrite H1. exact IH.
    + destruct H as [H1 H2]. rewrite H2 in IH. rewrite H1. exact IH.
    + destruct H as [H1 H2]. rewrite H2 in IH. rewrite H1. exact IH.
Qed.

(** The coordinates a poll reports: the sample of the poll for Pressed, the
    recorded coordinates otherwise, and the recorded coordinates are only
    written by a Pressed event. *)
Lemma getTouchEvents_coords (t : Z) (touch : option (Z * Z)) (ui : TouchUI) :
  let ui' := getTouchEvents t touch ui in
  match touchEventType ui' with
  | TOUCH_NO_EVENT =>
      recordedTouchX ui' = recordedTouchX ui /\
      recordedTouchY ui' = recordedTouchY ui
  | TOUCH_PUSHED_EVENT =>
      touch = Some (touchEventX ui', touchEventY ui') /\
      recordedTouchX ui' = touchEventX ui' /\
      recordedTouchY ui' = touchEventY ui'
  | TOUCH_REPEAT_EVENT | TOUCH_RELEASED_EVENT =>
      touchEventX ui' = recordedTouchX ui /\
      touchEventY ui' = recordedTouchY ui /\
      recordedTouchX ui' = recordedTouchX ui /\
      recordedTouchY ui' = recordedTouchY ui
  end.
Proof.
  destruct ui as [st start rx ry k ex ey].
  unfold getTouchEvents; cbn [touchState touchEventStartTime].
  destruct st, touch as [[x y]|];
    repeat match goal with |- context [if ?c then _ else _] => destruct c end;
    cbn; auto.
Qed.

Lemma frozen_run (polls : list Poll) :
  forall ui, frozen (pressedAt ui) polls (run ui polls).
Proof.
  induction polls as [|p polls IH]; intros ui.
  - exact I.
  - cbn [run frozen].
    pose proof (getTouchEvents_cycle (pollTime p) (pollTouch p) ui) as Hc.
    pose proof (getTouchEvents_coords (pollTime p) (pollTouch p) ui) as Hx.
    cbv zeta in Hc, Hx.
    specialize (IH (getTouchEvents (pollTime p) (pollTouch p) ui)).
    unfold pressedAt in *.
    destruct (touchEventType (getTouchEvents (pollTime p) (pollTouch p) ui)).
    + destruct Hx as [Hx Hy]. rewrite Hc, Hx, Hy in IH. exact IH.
    + destruct Hc as [_ Hd]. destruct Hx as [Hs [Hx Hy]].
      rewrite Hd, Hx, Hy in IH. split; [exact Hs | exact IH].
    + destruct Hc as [Hd Hd']. destruct Hx as [Hx [Hy [Hrx Hry]]].
      rewrite Hd' in IH. rewrite Hd, Hx, Hy.
      split; [reflexivity | exact IH].
    + destruct Hc as [Hd Hd']. destruct Hx as [Hx [Hy [Hrx Hry]]].
      rewrite Hd', Hrx, Hry in IH. rewrite Hd, Hx, Hy.
      split; [reflexivity | exact IH].
Qed.

(** *** Debouncing *)

Ltac unfold_periods :=
  unfold TOUCH_DEBOUNCE_PERIOD, TOUCH_AUTO_REPEAT_DELAY,
    TOUCH_AUTO_REPEAT_RATE, ULONG_MODULUS in *.

Ltac poll_step :=
  unfold getTouchEvents;
  cbn [touchState touchEventStartTime recordedTouchX recordedTouchY
       touchEventX touchEventY pollTime pollTouch fst snd];
  rewrite ?ulong_small by (unfold_periods; lia).

Lemma kinds_cons (p : Poll) (polls : list Poll) (ui : TouchUI) :
  kinds ui (p :: polls) =
  touchEventType (getTouchEvents (pollTime p) (pollTouch p) ui)
    :: kinds (getTouchEvents (pollTime p) (pollTouch p) ui) polls.
Proof. reflexivity. Qed.

(** While the debounce period of a touch-down is running, polls report
    nothing and leave the machine as it is, whatever they sample. *)
Lemma confirm_down_waits (mid : list Poll) :
  forall start rx ry k ex ey,
  0 <= start < ULONG_MODULUS - TOUCH_AUTO_REPEAT_DELAY ->
  Forall (fun p => pollTime p < start + TOUCH_DEBOUNCE_PERIOD) mid ->
  let ui := mkTouchUI CONFIRM_TOUCH_DOWN_STATE start rx ry k ex ey in
  kinds ui mid = repeat TOUCH_NO_EVENT (List.length mid) /\
  (mid <> [] ->
   steps ui mid =
   mkTouchUI CONFIRM_TOUCH_DOWN_STATE start rx ry TOUCH_NO_EVENT ex ey).
Proof.
  induction mid as [|p mid IH]; intros start rx ry k ex ey Hs Hmid ui.
  - split; [reflexivity | congruence].
  - inversion Hmid as [|? ? Hp Hrest]; subst.
    assert (Hstep : getTouchEvents (pollTime p) (pollTouch p) ui =
      mkTouchUI CONFIRM_TOUCH_DOWN_STATE start rx ry TOUCH_NO_EVENT ex ey).
    { subst ui. poll_step.
      destruct (Z.ltb_spec (pollTime p) (start + TOUCH_DEBOUNCE_PERIOD));
        [reflexivity | lia]. }
    rewrite kinds_cons. cbn [steps]. rewrite Hstep.
    destruct (IH start rx ry TOUCH_NO_EVENT ex ey Hs Hrest) as [Hk Hst].
    split.
    + cbn [touchEventType List.length repeat]. rewrite Hk. reflexivity.
    + intros _. destruct mid as [|q mid].
      * reflexivity.
      * apply Hst. discriminate.
Qed.

(** A touch seen while waiting for a touch-down is reported as Pressed by
    the first poll that comes a debounce period later, when that poll is
    touched; the samples in between are not looked at. *)
Lemma press_confirmed (ui : TouchUI) (t0 t1 : Z) (xy0 xy1 : Z * Z)
    (mid : list Poll) :
  touchState ui = WAITING_FOR_TOUCH_DOWN_STATE ->
  0 <= t0 < ULONG_MODULUS - TOUCH_AUTO_REPEAT_DELAY ->
  Forall (fun p => pollTime p < t0 + TOUCH_DEBOUNCE_PERIOD) mid ->
  t0 + TOUCH_DEBOUNCE_PERIOD <= t1 ->
  let polls := (t0, Some xy0) :: mid ++ [(t1, Some xy1)] in
  kinds ui polls =
    repeat TOUCH_NO_EVENT (S (List.length mid)) ++ [TOUCH_PUSHED_EVENT] /\
  steps ui polls =
    mkTouchUI WAITING_FOR_TOUCH_UP_STATE t1 (fst xy1) (snd xy1)
      TOUCH_PUSHED_EVENT (fst xy1) (snd xy1).
Proof.
  intros Hst Ht0 Hmid Ht1 polls. subst polls.
  destruct ui as [st start rx ry k ex ey]. cbn in Hst. subst st.
  rewrite kinds_cons. cbn [steps].
  assert (H0 : getTouchEvents (pollTime (t0, Some xy0)) (pollTouch (t0, Some xy0))
            (mkTouchUI WAITING_FOR_TOUCH_DOWN_STATE start rx ry k ex ey) =
          mkTouchUI CONFIRM_TOUCH_DOWN_STATE t0 rx ry TOUCH_NO_EVENT ex ey)
    by reflexivity.
  rewrite H0. cbn [touchEventType].
  rewrite kinds_app, steps_app.
  destruct (confirm_down_waits mid t0 rx ry TOUCH_NO_EVENT ex ey Ht0 Hmid)
    as [Hk Hs].
  cbv zeta in Hk, Hs. rewrite Hk.
  assert (Hmid' : steps (mkTouchUI CONFIRM_TOUCH_DOWN_STATE t0 rx ry
                           TOUCH_NO_EVENT ex ey) mid =
                  mkTouchUI CONFIRM_TOUCH_DOWN_STATE t0 rx ry
                           TOUCH_NO_EVENT ex ey).
  { destruct mid as [|q mid]; [reflexivity | apply Hs; discriminate]. }
  rewrite Hmid'.
  assert (H1 : getTouchEvents t1 (Some xy1)
                 (mkTouchUI CONFIRM_TOUCH_DOWN_STATE t0 rx ry
                    TOUCH_NO_EVENT ex ey) =
               mkTouchUI WAITING_FOR_TOUCH_UP_STATE t1 (fst xy1) (snd xy1)
                 TOUCH_PUSHED_EVENT (fst xy1) (snd xy1)).
  { poll_step. destruct xy1 as [x1 y1].
    destruct (Z.ltb_spec t1 (t0 + TOUCH_DEBOUNCE_PERIOD)); [lia | reflexivity]. }
  split.
  - rewrite kinds_cons. cbn [pollTime pollTouch fst snd]. rewrite H1.
    cbn [touchEventType kinds run map repeat app]. reflexivity.
  - cbn [steps pollTime pollTouch fst snd]. exact H1.
Qed.

(** The same, with the coordinates of the events. *)
Lemma confirm_down_run (mid : list Poll) :
  forall start rx ry k ex ey,
  0 <= start < ULONG_MODULUS - TOUCH_AUTO_REPEAT_DELAY ->
  Forall (fun p => pollTime p < start + TOUCH_DEBOUNCE_PERIOD) mid ->
  run (mkTouchUI CONFIRM_TOUCH_DOWN_STATE start rx ry k ex ey) mid =
  map (fun _ => mkTouchUI CONFIRM_TOUCH_DOWN_STATE start rx ry
                  TOUCH_NO_EVENT ex ey) mid.
Proof.
  induction mid as [|p mid IH]; intros start rx ry k ex ey Hs Hmid.
  - reflexivity.
  - inversion Hmid as [|? ? Hp Hrest]; subst.
    cbn [run map].
    assert (Hstep : getTouchEvents (pollTime p) (pollTouch p)
              (mkTouchUI CONFIRM_TOUCH_DOWN_STATE start rx ry k ex ey) =
      mkTouchUI CONFIRM_TOUCH_DOWN_STATE start rx ry TOUCH_NO_EVENT ex ey).
    { poll_step.
      destruct (Z.ltb_spec (pollTime p) (start + TOUCH_DEBOUNCE_PERIOD));
        [reflexivity | lia]. }
    rewrite Hstep. f_equal. apply IH; assumption.
Qed.

Lemma press_confirmed_events (ui : TouchUI) (t0 t1 : Z) (xy0 xy1 : Z * Z)
    (mid : list Poll) :
  touchState ui = WAITING_FOR_TOUCH_DOWN_STATE ->
  0 <= t0 < ULONG_MODULUS - TOUCH_AUTO_REPEAT_DELAY ->
  Forall (fun p => pollTime p < t0 + TOUCH_DEBOUNCE_PERIOD) mid ->
  t0 + TOUCH_DEBOUNCE_PERIOD <= t1 ->
  events ui ((t0, Some xy0) :: mid ++ [(t1, Some xy1)]) =
    map (fun _ => (TOUCH_NO_EVENT, touchEventX ui, touchEventY ui))
        ((t0, Some xy0) :: mid)
    ++ [(TOUCH_PUSHED_EVENT, fst xy1, snd xy1)].
Proof.
  intros Hst Ht0 Hmid Ht1.
  pose proof (press_confirmed ui t0 t1 xy0 xy1 mid Hst Ht0 Hmid Ht1) as Hp.
  cbv zeta in Hp. destruct Hp as [_ Hfinal].
  destruct ui as [st start rx ry k ex ey]. cbn in Hst. subst st.
  unfold events.
  change ((t0, Some xy0) :: mid ++ [(t1, Some xy1)])
    with (((t0, Some xy0) :: mid) ++ [(t1, Some xy1)]) in *.
  rewrite run_app, map_app. f_equal.
  - cbn [run map pollTime pollTouch fst snd touchEventX touchEventY].
    poll_step. cbn [event touchEventType touchEventX touchEventY]. f_equal.
    rewrite confirm_down_run by assumption.
    rewrite map_map. reflexivity.
  - rewrite steps_app in Hfinal.
    change (run (steps (mkTouchUI WAITING_FOR_TOUCH_DOWN_STATE start rx ry
                          k ex ey) ((t0, Some xy0) :: mid)) [(t1, Some xy1)])
      with [steps (steps (mkTouchUI WAITING_FOR_TOUCH_DOWN_STATE start rx ry
                          k ex ey) ((t0, Some xy0) :: mid)) [(t1, Some xy1)]].
    rewrite Hfinal. reflexivity.
Qed.

(** Untouched polls leave a machine that waits for a touch-down alone. *)
Lemma waiting_down_untouched (ups : list Poll) :
  forall start rx ry k ex ey,
  Forall (fun p => touched p = false) ups ->
  kinds (mkTouchUI WAITING_FOR_TOUCH_DOWN_STATE start rx ry k ex ey) ups =
  repeat TOUCH_NO_EVENT (List.length ups).
Proof.
  induction ups as [|p ups IH]; intros start rx ry k ex ey Hup.
  - reflexivity.
  - inversion Hup as [|? ? Hp Hrest]; subst.
    rewrite kinds_cons. destruct p as [t [xy|]]; [discriminate Hp|].
    poll_step. cbn [touchEventType List.length repeat].
    rewrite IH by exact Hrest. reflexivity.
Qed.

(** Once the release of a touch was seen, untouched polls report exactly
    one Released event: at the first poll a debounce period after the time
    kept in [touchEventStartTime]. *)
Lemma confirm_up_releases (ups : list Poll) :
  forall start rx ry k ex ey,
  0 <= start < ULONG_MODULUS - TOUCH_AUTO_REPEAT_DELAY ->
  Forall (fun p => touched p = false) ups ->
  Exists (fun p => start + TOUCH_DEBOUNCE_PERIOD <= pollTime p) ups ->
  exists a b : nat,
    kinds (mkTouchUI CONFIRM_TOUCH_UP_STATE start rx ry k ex ey) ups =
    repeat TOUCH_NO_EVENT a ++ TOUCH_RELEASED_EVENT :: repeat TOUCH_NO_EVENT b.
Proof.
  induction ups as [|p ups IH]; intros start rx ry k ex ey Hs Hup Hex.
  - inversion Hex.
  - inversion Hup as [|? ? Hp Hrest]; subst.
    destruct p as [t [xy|]]; [discriminate Hp|].
    rewrite kinds_cons. poll_step.
    destruct (Z.ltb_spec t (start + TOUCH_DEBOUNCE_PERIOD)) as [Hlt|Hge].
    + inversion Hex as [? ? Hhere|? ? Hlater]; subst.
      * cbn [pollTime fst] in Hhere. lia.
      * destruct (IH start rx ry TOUCH_NO_EVENT ex ey Hs Hrest Hlater)
          as [a [b Hk]].
        exists (S a), b. cbn [touchEventType repeat app]. rewrite Hk.
        reflexivity.
    + exists 0%nat, (List.length ups). cbn [touchEventType repeat app].
      rewrite waiting_down_untouched by exact Hrest. reflexivity.
Qed.

(** A release seen during a touch-down cycle and followed by untouched
    polls up to a debounce period later is reported by exactly one Released
    event, and by nothing else. *)
Lemma release_confirmed (ui : TouchUI) (t : Z) (ups : list Poll) :
  touchState ui = WAITING_FOR_TOUCH_UP_STATE \/
  touchState ui = WAITING_FOR_TOUCH_UP_AFTER_AUTO_REPEAT_STATE ->
  0 <= touchEventStartTime ui <= t ->
  t < ULONG_MODULUS - TOUCH_AUTO_REPEAT_DELAY ->
  Forall (fun p => touched p = false) ups ->
  Exists (fun p => t + TOUCH_DEBOUNCE_PERIOD <= pollTime p) ups ->
  exists a b : nat,
    kinds ui ((t, None) :: ups) =
    repeat TOUCH_NO_EVENT a ++ TOUCH_RELEASED_EVENT :: repeat TOUCH_NO_EVENT b.
Proof.
  intros Hst Hstart Ht Hup Hex.
  destruct ui as [st start rx ry k ex ey]. cbn in Hst, Hstart.
  assert (Hex' : Exists (fun p => start + TOUCH_DEBOUNCE_PERIOD <= pollTime p) ups).
  { apply Exists_exists in Hex. destruct Hex as [p [Hin Hp]].
    apply Exists_exists. exists p. split; [exact Hin | lia]. }
  assert (Hs : 0 <= start < ULONG_MODULUS - TOUCH_AUTO_REPEAT_DELAY) by lia.
  destruct (confirm_up_releases ups start rx ry TOUCH_NO_EVENT ex ey Hs Hup Hex')
    as [a [b Hk]].
  exists (S a), b. rewrite kinds_cons.
  destruct Hst as [Hst|Hst]; subst st; poll_step;
    cbn [touchEventType repeat app]; rewrite Hk; reflexivity.
Qed.

(** When every touched poll of a sequence falls inside one window shorter
    than the debounce period, the machine reports no event at all. *)
Lemma short_touch_silent (polls : list Poll) (t0 : Z) :
  0 <= t0 < ULONG_MODULUS - TOUCH_AUTO_REPEAT_DELAY ->
  Forall (fun p => touched p = true ->
                   t0 <= pollTime p < t0 + TOUCH_DEBOUNCE_PERIOD) polls ->
  forall ui,
  touchState ui = WAITING_FOR_TOUCH_DOWN_STATE \/
  (touchState ui = CONFIRM_TOUCH_DOWN_STATE /\
   t0 <= touchEventStartTime ui < t0 + TOUCH_DEBOUNCE_PERIOD) ->
  kinds ui polls = repeat TOUCH_NO_EVENT (List.length polls).
Proof.
  intros Ht0. induction polls as [|p polls IH]; intros Hall ui Hst.
  - reflexivity.
  - inversion Hall as [|? ? Hp Hrest]; subst.
    rewrite kinds_cons. cbn [List.length repeat].
    destruct ui as [st start rx ry k ex ey]. cbn in Hst.
    destruct p as [t [xy|]]; unfold touched in Hp; cbn in Hp.
    + specialize (Hp eq_refl).
      destruct Hst as [Hst|[Hst Hstart]]; subst st.
      * poll_step. cbn [touchEventType]. f_equal.
        apply IH; [exact Hrest|]. right. cbn. split; [reflexivity | lia].
      * poll_step.
        destruct (Z.ltb_spec t (start + TOUCH_DEBOUNCE_PERIOD)); [|unfold_periods; lia].
        cbn [touchEventType]. f_equal.
        apply IH; [exact Hrest|]. right. cbn. split; [reflexivity | lia].
    + destruct Hst as [Hst|[Hst Hstart]]; subst st.
      * poll_step. cbn [touchEventType]. f_equal.
        apply IH; [exact Hrest|]. left. reflexivity.
      * poll_step.
        destruct (Z.ltb_spec t (start + TOUCH_DEBOUNCE_PERIOD));
          cbn [touchEventType]; f_equal; apply IH; try exact Hrest.
        -- right. cbn. split; [reflexivity | lia].
        -- left. reflexivity.
Qed.

(** *** Auto repeat *)

Lemma held_snoc (touches : list (Z * Z)) (xy : Z * Z) :
  forall t,
  held t (touches ++ [xy]) =
  held t touches ++ [(t + Z.of_nat (List.length touches) + 1, Some xy)].
Proof.
  induction touches as [|a touches IH]; intros t.
  - cbn. f_equal. f_equal. lia.
  - cbn [held app List.length]. rewrite IH. cbn [app].
    replace (t + Z.of_nat (S (List.length touches)) + 1)
      with (t + 1 + Z.of_nat (List.length touches) + 1) by lia.
    reflexivity.
Qed.

Lemma countKind_one (k k' : TouchEventType) :
  countKind k [k'] = if eventType_eqb k k' then 1 else 0.
Proof. unfold countKind. cbn. destruct (eventType_eqb k k'); reflexivity. Qed.

(** The closed form of the state machine under a resting finger, with the
    number of events of each type it has reported so far. *)
Lemma hold_invariant (ui : TouchUI) (t0 : Z) (xy0 : Z * Z)
    (touches : list (Z * Z)) :
  touchState ui = WAITING_FOR_TOUCH_DOWN_STATE ->
  0 <= t0 ->
  t0 + Z.of_nat (List.length touches) + TOUCH_AUTO_REPEAT_DELAY < ULONG_MODULUS ->
  let polls := (t0, Some xy0) :: held t0 touches in
  let d := Z.of_nat (List.length touches) in
  holdPhase t0 d (steps ui polls) /\
  countKind TOUCH_REPEAT_EVENT (kinds ui polls) = repeatCount d /\
  countKind TOUCH_PUSHED_EVENT (kinds ui polls) =
    (if d <? TOUCH_DEBOUNCE_PERIOD then 0 else 1) /\
  countKind TOUCH_RELEASED_EVENT (kinds ui polls) = 0.
Proof.
  intros Hst Ht0. induction touches as [|xy touches IH] using rev_ind;
    intros Hroom polls d.
  - subst polls d. destruct ui as [st start rx ry k ex ey]. cbn in Hst.
    subst st. cbn. repeat split. left. cbn. unfold_periods. repeat split; lia.
  - subst polls d.
    rewrite length_app in Hroom |- *. cbn [List.length] in Hroom |- *.
    assert (Hroom' : t0 + Z.of_nat (List.length touches)
                       + TOUCH_AUTO_REPEAT_DELAY < ULONG_MODULUS) by lia.
    specialize (IH Hroom'). cbv zeta in IH.
    destruct IH as [Hphase [Hrep [Hpush Hrel]]].
    rewrite held_snoc, app_comm_cons, steps_app, kinds_app, !countKind_app.
    rewrite Hrep, Hpush, Hrel.
    set (d := Z.of_nat (List.length touches)) in *.
    replace (Z.of_nat (List.length touches + 1)) with (d + 1) by lia.
    remember (steps ui ((t0, Some xy0) :: held t0 touches)) as ui' eqn:Hui'.
    clear Hui' Hrep Hpush Hrel.
    destruct ui' as [st start rx ry k ex ey].
    unfold holdPhase in Hphase;
      cbn [touchState touchEventStartTime] in Hphase.
    cbn [steps]. unfold kinds. cbn [run map]. rewrite !countKind_one.
    unfold repeatCount, holdPhase.
    destruct Hphase as [[Hd [Hs Hstart]]|[[Hd [Hs Hstart]]|[Hd [Hs Hstart]]]];
      subst st start; poll_step; try destruct xy as [x y];
      match goal with |- context [?a <? ?b] =>
        destruct (Z.ltb_spec a b) end;
      cbn [touchEventType touchState touchEventStartTime eventType_eqb];
      unfold_periods;
      repeat match goal with |- context [?a <? ?b] =>
        destruct (Z.ltb_spec a b) end; try lia;
      (split; [|repeat split; lia]).
    + left. repeat split; lia.
    + right. left. repeat split; lia.
    + right. left. repeat split; lia.
    + right. right. repeat split; lia.
    + right. right. repeat split; lia.
    + right. right. repeat split; lia.
Qed.

(** *** The claims about the touch event state machine *)

(** C1, as the specification states it, fails: two touches that are each
    shorter than the debounce period make the machine report a Pressed and
    a Released event, because the poll that ends the debounce period only
    looks at the sample of that moment. *)
Lemma short_touches_reported :
  touchDurations None 0 bouncePolls = [10; 2] /\
  Forall (fun d => d < TOUCH_DEBOUNCE_PERIOD)
         (touchDurations None 0 bouncePolls) /\
  clockInRange bouncePolls /\
  events touchScreenInitialize bouncePolls =
    [(TOUCH_NO_EVENT, 0, 0); (TOUCH_NO_EVENT, 0, 0); (TOUCH_NO_EVENT, 0, 0);
     (TOUCH_PUSHED_EVENT, 6, 6); (TOUCH_NO_EVENT, 6, 6);
     (TOUCH_RELEASED_EVENT, 6, 6)].
Proof.
  split; [reflexivity|]. split.
  - cbn. repeat constructor.
  - split; [|reflexivity].
    unfold clockInRange, bouncePolls. unfold_periods.
    repeat constructor; cbn; lia.
Qed.

Lemma steps_kinds_untouched (ups : list Poll) :
  forall ui,
  touchState ui = WAITING_FOR_TOUCH_DOWN_STATE ->
  Forall (fun p => touched p = false) ups ->
  kinds ui ups = repeat TOUCH_NO_EVENT (List.length ups) /\
  touchState (steps ui ups) = WAITING_FOR_TOUCH_DOWN_STATE.
Proof.
  induction ups as [|p ups IH]; intros ui Hst Hup.
  - split; [reflexivity | exact Hst].
  - inversion Hup as [|? ? Hp Hrest]; subst.
    destruct p as [t [xy|]]; [discriminate Hp|].
    destruct ui as [st start rx ry k ex ey]. cbn in Hst. subst st.
    rewrite kinds_cons. cbn [steps]. poll_step.
    destruct (IH (mkTouchUI WAITING_FOR_TOUCH_DOWN_STATE start rx ry
                    TOUCH_NO_EVENT ex ey) eq_refl Hrest) as [Hk Hs].
    cbn [touchEventType List.length repeat]. rewrite Hk.
    split; [reflexivity | exact Hs].
Qed.

(** A false alarm reports nothing and leaves the machine waiting for a
    touch-down. *)
Lemma false_alarm_silent (a : FalseAlarm) (ui : TouchUI) :
  touchState ui = WAITING_FOR_TOUCH_DOWN_STATE ->
  isFalseAlarm a ->
  kinds ui (alarmPolls a)
    = repeat TOUCH_NO_EVENT (List.length (alarmPolls a)) /\
  touchState (steps ui (alarmPolls a)) = WAITING_FOR_TOUCH_DOWN_STATE.
Proof.
  intros Hst [Hidle [Hstart [Hwin Hend]]]. unfold alarmPolls.
  destruct (steps_kinds_untouched (idlePolls a) ui Hst Hidle) as [Hk Hs].
  rewrite kinds_app, steps_app, length_app, repeat_app, Hk.
  remember (steps ui (idlePolls a)) as u eqn:Hu. clear Hu Hk.
  destruct u as [st start rx ry k ex ey]. cbn in Hs. subst st.
  rewrite kinds_cons. cbn [steps]. poll_step.
  rewrite kinds_app, steps_app.
  destruct (confirm_down_waits (windowPolls a) (alarmStart a) rx ry
              TOUCH_NO_EVENT ex ey Hstart Hwin) as [Hk Hsame].
  cbv zeta in Hk, Hsame. rewrite Hk.
  assert (Hu : steps (mkTouchUI CONFIRM_TOUCH_DOWN_STATE (alarmStart a) rx ry
                        TOUCH_NO_EVENT ex ey) (windowPolls a)
               = mkTouchUI CONFIRM_TOUCH_DOWN_STATE (alarmStart a) rx ry
                   TOUCH_NO_EVENT ex ey).
  { destruct (windowPolls a) as [|p l] eqn:E; [reflexivity|].
    apply Hsame. discriminate. }
  rewrite Hu. cbn [kinds run map steps]. poll_step.
  destruct (Z.ltb_spec (alarmEnd a) (alarmStart a + TOUCH_DEBOUNCE_PERIOD));
    [lia|].
  cbn [touchEventType touchState List.length].
  split; [|reflexivity].
  rewrite length_app. cbn [repeat]. rewrite repeat_app. reflexivity.
Qed.

Lemma false_alarms_silent (alarms : list FalseAlarm) :
  forall ui,
  touchState ui = WAITING_FOR_TOUCH_DOWN_STATE ->
  Forall isFalseAlarm alarms ->
  kinds ui (List.concat (map alarmPolls alarms))
    = repeat TOUCH_NO_EVENT (List.length (List.concat (map alarmPolls alarms))) /\
  touchState (steps ui (List.concat (map alarmPolls alarms)))
    = WAITING_FOR_TOUCH_DOWN_STATE.
Proof.
  induction alarms as [|a alarms IH]; intros ui Hst Hall.
  - split; [reflexivity | exact Hst].
  - inversion Hall as [|? ? Ha Hrest]; subst.
    cbn [map List.concat].
    destruct (false_alarm_silent a ui Hst Ha) as [Hk Hs].
    destruct (IH (steps ui (alarmPolls a)) Hs Hrest) as [Hk' Hs'].
    rewrite kinds_app, steps_app, length_app, repeat_app, Hk, Hk'.
    split; [reflexivity | exact Hs'].
Qed.

(** After the release of a touch was seen and confirmed by untouched
    polls, the machine waits for a touch-down again. *)
Lemma confirm_up_returns (ups : list Poll) :
  forall start rx ry k ex ey,
  0 <= start < ULONG_MODULUS - TOUCH_AUTO_REPEAT_DELAY ->
  Forall (fun p => touched p = false) ups ->
  Exists (fun p => start + TOUCH_DEBOUNCE_PERIOD <= pollTime p) ups ->
  touchState (steps (mkTouchUI CONFIRM_TOUCH_UP_STATE start rx ry k ex ey) ups)
    = WAITING_FOR_TOUCH_DOWN_STATE.
Proof.
  induction ups as [|p ups IH]; intros start rx ry k ex ey Hs Hup Hex.
  - inversion Hex.
  - inversion Hup as [|? ? Hp Hrest]; subst.
    destruct p as [t [xy|]]; [discriminate Hp|].
    cbn [steps]. poll_step.
    destruct (Z.ltb_spec t (start + TOUCH_DEBOUNCE_PERIOD)) as [Hlt|Hge].
    + inversion Hex as [? ? Hhere|? ? Hlater]; subst.
      * cbn [pollTime fst] in Hhere. lia.
      * apply IH; assumption.
    + apply steps_kinds_untouched; [reflexivity | exact Hrest].
Qed.

Lemma release_returns (ui : TouchUI) (t : Z) (ups : list Poll) :
  touchState ui = WAITING_FOR_TOUCH_UP_STATE \/
  touchState ui = WAITING_FOR_TOUCH_UP_AFTER_AUTO_REPEAT_STATE ->
  0 <= touchEventStartTime ui <= t ->
  t < ULONG_MODULUS - TOUCH_AUTO_REPEAT_DELAY ->
  Forall (fun p => touched p = false) ups ->
  Exists (fun p => t + TOUCH_DEBOUNCE_PERIOD <= pollTime p) ups ->
  touchState (steps ui ((t, None) :: ups)) = WAITING_FOR_TOUCH_DOWN_STATE.
Proof.
  intros Hst Hstart Ht Hup Hex.
  destruct ui as [st start rx ry k ex ey]. cbn in Hst, Hstart.
  assert (Hex' : Exists (fun p => start + TOUCH_DEBOUNCE_PERIOD <= pollTime p) ups).
  { apply Exists_exists in Hex. destruct Hex as [p [Hin Hp]].
    apply Exists_exists. exists p. split; [exact Hin | lia]. }
  assert (Hs : 0 <= start < ULONG_MODULUS - TOUCH_AUTO_REPEAT_DELAY) by lia.
  cbn [steps].
  destruct Hst as [Hst|Hst]; subst st; poll_step;
    apply confirm_up_returns; assumption.
Qed.

(** C1 (amended).  For a machine that waits for a touch-down and a clock
    that does not wrap around:
    - the events of every poll sequence come in cycles, one Pressed, then
      AutoRepeats, then one Released;
    - a touch seen at time [t0] is reported by exactly one Pressed event, at
      the first poll at or after [t0 + 30] when that poll is touched,
      whatever was sampled in between, and the machine then waits for the
      release;
    - once pressed, a release followed by untouched polls that reach 30 ms
      after it is reported by exactly one Released event and nothing else,
      and the machine waits for a touch-down again;
    - when all the touched polls of a sequence lie in one window shorter
      than 30 ms, no event is reported at all;
    - a touch that is no longer under the finger at the first poll at or
      after [t0 + 30] is a false alarm: it is reported by no event and the
      machine waits for a touch-down again; so any number of such touches
      in a row, followed by touched polls in one window shorter than 30 ms,
      report no event at all. *)
Theorem touch_events_debounced :
  (forall (ui : TouchUI) (polls : list Poll),
     touchState ui = WAITING_FOR_TOUCH_DOWN_STATE ->
     cycles false (kinds ui polls) = true) /\
  (forall (ui : TouchUI) (t0 t1 : Z) (xy0 xy1 : Z * Z) (mid : list Poll),
     touchState ui = WAITING_FOR_TOUCH_DOWN_STATE ->
     0 <= t0 < ULONG_MODULUS - TOUCH_AUTO_REPEAT_DELAY ->
     Forall (fun p => pollTime p < t0 + TOUCH_DEBOUNCE_PERIOD) mid ->
     t0 + TOUCH_DEBOUNCE_PERIOD <= t1 ->
     events ui ((t0, Some xy0) :: mid ++ [(t1, Some xy1)]) =
       map (fun _ => (TOUCH_NO_EVENT, touchEventX ui, touchEventY ui))
           ((t0, Some xy0) :: mid)
       ++ [(TOUCH_PUSHED_EVENT, fst xy1, snd xy1)] /\
     touchState (steps ui ((t0, Some xy0) :: mid ++ [(t1, Some xy1)]))
       = WAITING_FOR_TOUCH_UP_STATE) /\
  (forall (ui : TouchUI) (t : Z) (ups : list Poll),
     touchState ui = WAITING_FOR_TOUCH_UP_STATE \/
     touchState ui = WAITING_FOR_TOUCH_UP_AFTER_AUTO_REPEAT_STATE ->
     0 <= touchEventStartTime ui <= t ->
     t < ULONG_MODULUS - TOUCH_AUTO_REPEAT_DELAY ->
     Forall (fun p => touched p = false) ups ->
     Exists (fun p => t + TOUCH_DEBOUNCE_PERIOD <= pollTime p) ups ->
     (exists a b : nat,
        kinds ui ((t, None) :: ups) =
        repeat TOUCH_NO_EVENT a
        ++ TOUCH_RELEASED_EVENT :: repeat TOUCH_NO_EVENT b) /\
     touchState (steps ui ((t, None) :: ups))
       = WAITING_FOR_TOUCH_DOWN_STATE) /\
  (forall (ui : TouchUI) (polls : list Poll) (t0 : Z),
     touchState ui = WAITING_FOR_TOUCH_DOWN_STATE ->
     0 <= t0 < ULONG_MODULUS - TOUCH_AUTO_REPEAT_DELAY ->
     Forall (fun p => touched p = true ->
                      t0 <= pollTime p < t0 + TOUCH_DEBOUNCE_PERIOD) polls ->
     kinds ui polls = repeat TOUCH_NO_EVENT (List.length polls)) /\
  (forall (ui : TouchUI) (alarms : list FalseAlarm) (tail : list Poll)
          (t0 : Z),
     touchState ui = WAITING_FOR_TOUCH_DOWN_STATE ->
     Forall isFalseAlarm alarms ->
     0 <= t0 < ULONG_MODULUS - TOUCH_AUTO_REPEAT_DELAY ->
     Forall (fun p => touched p = true ->
                      t0 <= pollTime p < t0 + TOUCH_DEBOUNCE_PERIOD) tail ->
     kinds ui (List.concat (map alarmPolls alarms) ++ tail) =
       repeat TOUCH_NO_EVENT
         (List.length (List.concat (map alarmPolls alarms) ++ tail)) /\
     touchState (steps ui (List.concat (map alarmPolls alarms)))
       = WAITING_FOR_TOUCH_DOWN_STATE).
Proof.
  split; [|split; [|split; [|split]]].
  - intros ui polls Hst. pose proof (cycles_run polls ui) as H.
    unfold isDown in H. rewrite Hst in H. exact H.
  - intros ui t0 t1 xy0 xy1 mid Hst Ht0 Hmid Ht1. split.
    + apply press_confirmed_events; assumption.
    + pose proof (press_confirmed ui t0 t1 xy0 xy1 mid Hst Ht0 Hmid Ht1) as Hp.
      cbv zeta in Hp. destruct Hp as [_ Hfinal]. rewrite Hfinal. reflexivity.
  - intros ui t ups Hst Hstart Ht Hup Hex. split.
    + apply release_confirmed; assumption.
    + apply release_returns; assumption.
  - intros ui polls t0 Hst Ht0 Hall.
    apply (short_touch_silent polls t0 Ht0 Hall). left. exact Hst.
  - intros ui alarms tail t0 Hst Halarms Ht0 Htail.
    destruct (false_alarms_silent alarms ui Hst Halarms) as [Hk Hs].
    split; [|exact Hs].
    rewrite kinds_app, length_app, repeat_app, Hk. f_equal.
    apply (short_touch_silent tail t0 Ht0 Htail). left. exact Hs.
Qed.

Lemma touch_events_debounced_witness :
  cycles false (kinds touchScreenInitialize dragPolls) = true /\
  events touchScreenInitialize [(0, Some (5, 5)); (12, None); (31, Some (7, 8))] =
    [(TOUCH_NO_EVENT, 0, 0); (TOUCH_NO_EVENT, 0, 0); (TOUCH_PUSHED_EVENT, 7, 8)] /\
  (exists a b : nat,
     kinds (mkTouchUI WAITING_FOR_TOUCH_UP_STATE 31 7 8 TOUCH_PUSHED_EVENT 7 8)
           [(40, None); (50, None); (75, None); (90, None)] =
     repeat TOUCH_NO_EVENT a ++ TOUCH_RELEASED_EVENT :: repeat TOUCH_NO_EVENT b) /\
  kinds touchScreenInitialize [(100, Some (1, 1)); (110, Some (1, 2)); (129, None); (140, None)] =
    [TOUCH_NO_EVENT; TOUCH_NO_EVENT; TOUCH_NO_EVENT; TOUCH_NO_EVENT] /\
  kinds touchScreenInitialize
    (List.concat (map alarmPolls isolatedTouches)
     ++ [(2000, Some (7, 7)); (2010, Some (7, 7)); (2020, None)]) =
    repeat TOUCH_NO_EVENT 13 /\
  touchState (steps touchScreenInitialize
                (List.concat (map alarmPolls isolatedTouches)))
    = WAITING_FOR_TOUCH_DOWN_STATE.
Proof.
  destruct touch_events_debounced
    as [Hcycles [Hpress [Hrelease [Hshort Halarms]]]].
  split; [|split; [|split; [|split]]].
  - apply Hcycles. reflexivity.
  - apply (Hpress touchScreenInitialize 0 31 (5, 5) (7, 8) [(12, None)]).
    + reflexivity.
    + unfold_periods. lia.
    + repeat constructor.
    + unfold_periods. lia.
  - apply (Hrelease (mkTouchUI WAITING_FOR_TOUCH_UP_STATE 31 7 8
                       TOUCH_PUSHED_EVENT 7 8) 40
                    [(50, None); (75, None); (90, None)]).
    + left. reflexivity.
    + cbn. lia.
    + unfold_periods. lia.
    + repeat constructor.
    + apply Exists_cons_tl. apply Exists_cons_hd. cbn. unfold_periods. lia.
  - apply (Hshort touchScreenInitialize
             [(100, Some (1, 1)); (110, Some (1, 2)); (129, None); (140, None)]
             100).
    + reflexivity.
    + unfold_periods. lia.
    + repeat constructor; cbn; intros; try discriminate; unfold_periods; lia.
  - apply (Halarms touchScreenInitialize isolatedTouches
             [(2000, Some (7, 7)); (2010, Some (7, 7)); (2020, None)] 2000).
    + reflexivity.
    + unfold isolatedTouches, isFalseAlarm.
      repeat constructor; cbn; unfold_periods; lia.
    + unfold_periods. lia.
    + repeat constructor; cbn; intros; try discriminate; unfold_periods; lia.
Defined.

(** C2.  For every poll sequence, fingers that drift included, the
    coordinates of a Pressed event are the sample of the poll that confirms
    the touch, and every AutoRepeat and Released event of the same
    touch-down cycle carries these coordinates unchanged. *)
Theorem event_coordinates_frozen (ui : TouchUI) (polls : list Poll) :
  touchState ui = WAITING_FOR_TOUCH_DOWN_STATE ->
  frozen None polls (run ui polls).
Proof.
  intros Hst. pose proof (frozen_run polls ui) as H.
  unfold pressedAt, isDown in H. rewrite Hst in H. exact H.
Qed.

Lemma event_coordinates_frozen_witness :
  frozen None dragPolls (run touchScreenInitialize dragPolls) /\
  events touchScreenInitialize dragPolls =
    [(TOUCH_NO_EVENT, 0, 0); (TOUCH_NO_EVENT, 0, 0);
     (TOUCH_PUSHED_EVENT, 12, 11); (TOUCH_NO_EVENT, 12, 11);
     (TOUCH_REPEAT_EVENT, 12, 11); (TOUCH_REPEAT_EVENT, 12, 11);
     (TOUCH_NO_EVENT, 12, 11); (TOUCH_RELEASED_EVENT, 12, 11)].
Proof.
  split.
  - apply (event_coordinates_frozen touchScreenInitialize dragPolls).
    reflexivity.
  - reflexivity.
Defined.

(** C3, as the specification states it, fails: a finger that rests for
    860 ms (830 ms after the Pressed event) gets one AutoRepeat event, where
    the formula floor((duration - delay) / repeatRate) gives none, whether
    the duration is counted from the first touch or from the Pressed event,
    and whether or not the poll that sees the release is counted. *)
Lemma autorepeat_formula_off_by_one :
  countKind TOUCH_REPEAT_EVENT (kinds touchScreenInitialize (restingPolls 860)) = 1 /\
  specRepeatCount 860 = 0 /\ specRepeatCount 861 = 0 /\
  specRepeatCount 830 = 0 /\ specRepeatCount 831 = 0.
Proof. vm_compute. repeat split; reflexivity. Qed.

(** C3 (amended).  A finger seen at time [t0] and at each of the following
    [d] milliseconds gets no AutoRepeat event when [d < 30 + 800] and
    floor((d - 30 - 800) / 120) + 1 of them otherwise: the first one 800 ms
    after the Pressed event, which itself comes 30 ms after the first
    touch, then one every 120 ms.  At the boundaries [d = 830 + 120 k] the
    count is [k + 1], one millisecond earlier it is [k].  The three periods
    are distinct named constants. *)
Theorem autorepeat_count_held (ui : TouchUI) (t0 : Z) (xy0 : Z * Z)
    (touches : list (Z * Z)) :
  touchState ui = WAITING_FOR_TOUCH_DOWN_STATE ->
  0 <= t0 ->
  t0 + Z.of_nat (List.length touches) + TOUCH_AUTO_REPEAT_DELAY < ULONG_MODULUS ->
  countKind TOUCH_REPEAT_EVENT (kinds ui ((t0, Some xy0) :: held t0 touches)) =
    repeatCount (Z.of_nat (List.length touches)) /\
  (forall k : Z, 0 <= k ->
     repeatCount (TOUCH_DEBOUNCE_PERIOD + TOUCH_AUTO_REPEAT_DELAY
                  + TOUCH_AUTO_REPEAT_RATE * k) = k + 1 /\
     repeatCount (TOUCH_DEBOUNCE_PERIOD + TOUCH_AUTO_REPEAT_DELAY
                  + TOUCH_AUTO_REPEAT_RATE * k - 1) = k) /\
  TOUCH_DEBOUNCE_PERIOD = 30 /\
  TOUCH_AUTO_REPEAT_DELAY = 800 /\
  TOUCH_AUTO_REPEAT_RATE = 120.
Proof.
  intros Hst Ht0 Hroom.
  destruct (hold_invariant ui t0 xy0 touches Hst Ht0 Hroom) as [_ [Hrep _]].
  split; [exact Hrep|]. split; [|repeat split].
  intros k Hk. unfold repeatCount. unfold_periods.
  repeat match goal with |- context [?a <? ?b] =>
    destruct (Z.ltb_spec a b) end; split; lia.
Qed.

Lemma autorepeat_count_held_witness :
  countKind TOUCH_REPEAT_EVENT
    (kinds touchScreenInitialize
       ((1000, Some (3, 4)) :: held 1000 (repeat (3, 4) 950))) = 2.
Proof.
  destruct (autorepeat_count_held touchScreenInitialize 1000 (3, 4)
              (repeat (3, 4) 950)) as [H _].
  - reflexivity.
  - lia.
  - rewrite repeat_length. unfold_periods. lia.
  - rewrite H, repeat_length. reflexivity.
Defined.

(** ** Buttons *)

(** *** The shape of one click in the event stream *)

Lemma countKind_cons (k x : TouchEventType) (ks : list TouchEventType) :
  countKind k (x :: ks) = (if eventType_eqb k x then 1 else 0) + countKind k ks.
Proof.
  unfold countKind. cbn [filter]. destruct (eventType_eqb k x).
  - cbn [List.length]. lia.
  - lia.
Qed.

Lemma countKind_nonneg (k : TouchEventType) (ks : list TouchEventType) :
  0 <= countKind k ks.
Proof. unfold countKind. lia. Qed.

(** Outside a touch-down cycle, a sequence without Pressed event has no
    event at all. *)
Lemma quiet_run (polls : list Poll) :
  forall ui,
  isDown ui = false ->
  countKind TOUCH_PUSHED_EVENT (kinds ui polls) = 0 ->
  Forall isQuiet (run ui polls).
Proof.
  induction polls as [|p polls IH]; intros ui Hdown Hpush.
  - constructor.
  - rewrite kinds_cons, countKind_cons in Hpush. cbn [run].
    pose proof (getTouchEvents_cycle (pollTime p) (pollTouch p) ui) as Hc.
    cbv zeta in Hc.
    pose proof (countKind_nonneg TOUCH_PUSHED_EVENT
      (kinds (getTouchEvents (pollTime p) (pollTouch p) ui) polls)) as Hnn.
    remember (getTouchEvents (pollTime p) (pollTouch p) ui) as u eqn:Hu.
    destruct (touchEventType u) eqn:Hk; cbn [eventType_eqb] in Hpush.
    + constructor; [exact Hk|]. apply IH; [congruence | lia].
    + lia.
    + destruct Hc as [Hc _]. congruence.
    + destruct Hc as [Hc _]. congruence.
Qed.

(** Inside a touch-down cycle, a sequence with one Released event and no
    Pressed event reports AutoRepeats, then the Released event at the
    recorded coordinates, then nothing. *)
Lemma down_run (polls : list Poll) :
  forall ui,
  isDown ui = true ->
  countKind TOUCH_PUSHED_EVENT (kinds ui polls) = 0 ->
  countKind TOUCH_RELEASED_EVENT (kinds ui polls) = 1 ->
  exists mid uR post,
    run ui polls = mid ++ uR :: post /\
    Forall isQuietOrRepeat mid /\
    touchEventType uR = TOUCH_RELEASED_EVENT /\
    touchEventX uR = recordedTouchX ui /\
    touchEventY uR = recordedTouchY ui /\
    Forall isQuiet post.
Proof.
  induction polls as [|p polls IH]; intros ui Hdown Hpush Hrel.
  - discriminate Hrel.
  - rewrite kinds_cons, countKind_cons in Hpush, Hrel. cbn [run].
    pose proof (getTouchEvents_cycle (pollTime p) (pollTouch p) ui) as Hc.
    pose proof (getTouchEvents_coords (pollTime p) (pollTouch p) ui) as Hx.
    cbv zeta in Hc, Hx.
    pose proof (countKind_nonneg TOUCH_PUSHED_EVENT
      (kinds (getTouchEvents (pollTime p) (pollTouch p) ui) polls)) as Hnn.
    pose proof (countKind_nonneg TOUCH_RELEASED_EVENT
      (kinds (getTouchEvents (pollTime p) (pollTouch p) ui) polls)) as Hnn'.
    remember (getTouchEvents (pollTime p) (pollTouch p) ui) as u eqn:Hu.
    destruct (touchEventType u) eqn:Hk; cbn [eventType_eqb] in Hpush, Hrel.
    + destruct Hx as [Hrx Hry].
      destruct (IH u) as [mid [uR [post [Hrun [Hmid [HkR [HxR [HyR Hpost]]]]]]]];
        [congruence | lia | lia |].
      exists (u :: mid), uR, post. rewrite Hrun.
      repeat split; try assumption; try congruence.
      constructor; [left; exact Hk | exact Hmid].
    + lia.
    + destruct Hc as [_ Hd]. destruct Hx as [Hex [Hey _]].
      exists [], u, (run u polls).
      repeat split; try assumption.
      * constructor.
      * apply quiet_run; [exact Hd | lia].
    + destruct Hc as [_ Hd]. destruct Hx as [_ [_ [Hrx Hry]]].
      destruct (IH u) as [mid [uR [post [Hrun [Hmid [HkR [HxR [HyR Hpost]]]]]]]];
        [exact Hd | lia | lia |].
      exists (u :: mid), uR, post. rewrite Hrun.
      repeat split; try assumption; try congruence.
      constructor; [right; exact Hk | exact Hmid].
Qed.

(** A sequence with one Pressed and one Released event, started outside a
    touch-down cycle: nothing, Pressed, AutoRepeats, Released at the
    coordinates of Pressed, nothing. *)
Lemma click_run (polls : list Poll) :
  forall ui,
  isDown ui = false ->
  countKind TOUCH_PUSHED_EVENT (kinds ui polls) = 1 ->
  countKind TOUCH_RELEASED_EVENT (kinds ui polls) = 1 ->
  exists pre uP mid uR post,
    run ui polls = pre ++ uP :: mid ++ uR :: post /\
    Forall isQuiet pre /\
    touchEventType uP = TOUCH_PUSHED_EVENT /\
    Forall isQuietOrRepeat mid /\
    touchEventType uR = TOUCH_RELEASED_EVENT /\
    touchEventX uR = touchEventX uP /\
    touchEventY uR = touchEventY uP /\
    Forall isQuiet post.
Proof.
  induction polls as [|p polls IH]; intros ui Hdown Hpush Hrel.
  - discriminate Hrel.
  - rewrite kinds_cons, countKind_cons in Hpush, Hrel. cbn [run].
    pose proof (getTouchEvents_cycle (pollTime p) (pollTouch p) ui) as Hc.
    pose proof (getTouchEvents_coords (pollTime p) (pollTouch p) ui) as Hx.
    cbv zeta in Hc, Hx.
    remember (getTouchEvents (pollTime p) (pollTouch p) ui) as u eqn:Hu.
    destruct (touchEventType u) eqn:Hk; cbn [eventType_eqb] in Hpush, Hrel.
    + destruct (IH u)
        as [pre [uP [mid [uR [post [Hrun [Hpre [HkP [Hmid [HkR [HxR [HyR Hpost]]]]]]]]]]]];
        [congruence | lia | lia |].
      exists (u :: pre), uP, mid, uR, post. rewrite Hrun.
      repeat split; try assumption.
      constructor; [exact Hk | exact Hpre].
    + destruct Hc as [_ Hd]. destruct Hx as [_ [Hrx Hry]].
      destruct (down_run polls u)
        as [mid [uR [post [Hrun [Hmid [HkR [HxR [HyR Hpost]]]]]]]];
        [exact Hd | lia | lia |].
      exists [], u, mid, uR, post. rewrite Hrun.
      repeat split; try assumption; try congruence.
      constructor.
    + destruct Hc as [Hc _]. congruence.
    + destruct Hc as [Hc _]. congruence.
Qed.

(** *** What the button checks answer to one event *)

Import Button.

Lemma checkForTouchEventInRect_true (ui : TouchUI) (k : TouchEventType)
    (x1 y1 x2 y2 : Z) :
  checkForTouchEventInRect ui k x1 y1 x2 y2 = true <->
  touchEventType ui = k /\
  x1 <= touchEventX ui <= x2 /\ y1 <= touchEventY ui <= y2.
Proof.
  unfold checkForTouchEventInRect.
  destruct k, (touchEventType ui); cbn [eventType_eqb negb];
    try (split; [discriminate | intros [H _]; discriminate H]);
    destruct (Z.leb_spec x1 (touchEventX ui)), (Z.leb_spec (touchEventX ui) x2),
      (Z.leb_spec y1 (touchEventY ui)), (Z.leb_spec (touchEventY ui) y2);
    cbn [andb]; split; try discriminate; try lia; intros; repeat split; lia.
Qed.

Lemma firstTouched_true (ui : TouchUI) (b : BUTTON) :
  fst (checkForButtonFirstTouched ui b) = true <->
  touchEventType ui = TOUCH_PUSHED_EVENT /\
  inButton b (touchEventX ui) (touchEventY ui).
Proof.
  unfold checkForButtonFirstTouched, isNoEvent, inButton.
  pose proof (checkForTouchEventInRect_true ui TOUCH_PUSHED_EVENT
                (buttonX1 b) (buttonY1 b) (buttonX2 b) (buttonY2 b)) as H.
  destruct (eventType_eqb (touchEventType ui) TOUCH_NO_EVENT) eqn:Hno;
    cbn [fst]; cbv zeta.
  - split; [discriminate|]. intros [Hf _]. rewrite Hf in Hno.
    discriminate Hno.
  - destruct (checkForTouchEventInRect ui TOUCH_PUSHED_EVENT
                (buttonX1 b) (buttonY1 b) (buttonX2 b) (buttonY2 b));
      cbn [fst].
    + split; [intros _; apply H; reflexivity | reflexivity].
    + split; [discriminate | exact (proj2 H)].
Qed.

Lemma clicked_true (ui : TouchUI) (b : BUTTON) :
  fst (checkForButtonClicked ui b) = true <->
  touchEventType ui = TOUCH_RELEASED_EVENT /\
  inButton b (touchEventX ui) (touchEventY ui).
Proof.
  unfold checkForButtonClicked, isNoEvent, inButton.
  pose proof (checkForTouchEventInRect_true ui TOUCH_PUSHED_EVENT
                (buttonX1 b) (buttonY1 b) (buttonX2 b) (buttonY2 b)) as HP.
  pose proof (checkForTouchEventInRect_true ui TOUCH_RELEASED_EVENT
                (buttonX1 b) (buttonY1 b) (buttonX2 b) (buttonY2 b)) as HR.
  destruct (touchEventType ui) eqn:Hk; cbn [eventType_eqb fst]; cbv zeta.
  - split; [discriminate | intros [Hf _]; discriminate Hf].
  - destruct (checkForTouchEventInRect ui TOUCH_PUSHED_EVENT _ _ _ _);
      cbn [fst]; [split; [discriminate | intros [Hf _]; discriminate Hf]|].
    destruct (checkForTouchEventInRect ui TOUCH_RELEASED_EVENT _ _ _ _);
      cbn [fst].
    + assert (Hf : TOUCH_PUSHED_EVENT = TOUCH_RELEASED_EVENT)
        by (apply HR; reflexivity). discriminate Hf.
    + split; [discriminate | intros [Hf _]; discriminate Hf].
  - destruct (checkForTouchEventInRect ui TOUCH_PUSHED_EVENT _ _ _ _) eqn:EP.
    + assert (Hf : TOUCH_RELEASED_EVENT = TOUCH_PUSHED_EVENT)
        by (apply HP; reflexivity). discriminate Hf.
    + destruct (checkForTouchEventInRect ui TOUCH_RELEASED_EVENT _ _ _ _);
        cbn [fst].
      * split; [intros _|reflexivity].
        split; [reflexivity | apply HR; reflexivity].
      * split; [discriminate|]. intros [_ Hin].
        apply HR. split; [reflexivity | exact Hin].
  - destruct (checkForTouchEventInRect ui TOUCH_PUSHED_EVENT _ _ _ _) eqn:EP.
    + assert (Hf : TOUCH_REPEAT_EVENT = TOUCH_PUSHED_EVENT)
        by (apply HP; reflexivity). discriminate Hf.
    + destruct (checkForTouchEventInRect ui TOUCH_RELEASED_EVENT _ _ _ _) eqn:ER;
        cbn [fst].
      * assert (Hf : TOUCH_REPEAT_EVENT = TOUCH_RELEASED_EVENT)
          by (apply HR; reflexivity). discriminate Hf.
      * split; [discriminate | intros [Hf _]; discriminate Hf].
Qed.

Lemma not_true_false (b : bool) : b <> true -> b = false.
Proof. destruct b; congruence. Qed.

(** C10.  For one press and release of a button, seen from a machine that
    waits for a touch-down, the polls split into those before the Pressed
    event, the Pressed poll, the polls in between, the Released poll and
    those after it: [checkForButtonFirstTouched] answers true on the Pressed
    poll only and [checkForButtonClicked] on the Released poll only, which
    comes later.  In general each check answers true exactly on an event of
    its type inside the rectangle of the button. *)
Theorem button_click_fires_once (ui : TouchUI) (polls : list Poll) (b : BUTTON) :
  touchState ui = WAITING_FOR_TOUCH_DOWN_STATE ->
  countKind TOUCH_PUSHED_EVENT (kinds ui polls) = 1 ->
  countKind TOUCH_RELEASED_EVENT (kinds ui polls) = 1 ->
  (forall u, In u (run ui polls) ->
     touchEventType u = TOUCH_PUSHED_EVENT ->
     inButton b (touchEventX u) (touchEventY u)) ->
  (exists pre uP mid uR post,
     run ui polls = pre ++ uP :: mid ++ uR :: post /\
     touchEventType uP = TOUCH_PUSHED_EVENT /\
     touchEventType uR = TOUCH_RELEASED_EVENT /\
     fst (checkForButtonFirstTouched uP b) = true /\
     fst (checkForButtonClicked uR b) = true /\
     Forall (fun u => fst (checkForButtonFirstTouched u b) = false)
            (pre ++ mid ++ uR :: post) /\
     Forall (fun u => fst (checkForButtonClicked u b) = false)
            (pre ++ uP :: mid ++ post)) /\
  (forall u, fst (checkForButtonFirstTouched u b) = true <->
             touchEventType u = TOUCH_PUSHED_EVENT /\
             inButton b (touchEventX u) (touchEventY u)) /\
  (forall u, fst (checkForButtonClicked u b) = true <->
             touchEventType u = TOUCH_RELEASED_EVENT /\
             inButton b (touchEventX u) (touchEventY u)).
Proof.
  intros Hst Hpush Hrel Hin.
  split; [|split; [intros u; apply firstTouched_true
                  |intros u; apply clicked_true]].
  destruct (click_run polls ui)
    as [pre [uP [mid [uR [post [Hrun [Hpre [HkP [Hmid [HkR [HxR [HyR Hpost]]]]]]]]]]]];
    [unfold isDown; rewrite Hst; reflexivity | exact Hpush | exact Hrel |].
  assert (HinP : inButton b (touchEventX uP) (touchEventY uP)).
  { apply Hin; [|exact HkP]. rewrite Hrun. apply in_elt. }
  exists pre, uP, mid, uR, post.
  split; [exact Hrun|]. split; [exact HkP|]. split; [exact HkR|].
  split; [apply firstTouched_true; split; assumption|].
  split; [apply clicked_true; split; [exact HkR | rewrite HxR, HyR; exact HinP]|].
  assert (Hq1 : forall l, Forall isQuiet l ->
            Forall (fun u => fst (checkForButtonFirstTouched u b) = false) l).
  { intros l Hl. eapply Forall_impl; [|exact Hl]. intros u Hu.
    apply not_true_false. intros Hf. apply firstTouched_true in Hf.
    unfold isQuiet in Hu. destruct Hf as [Hf _]. congruence. }
  assert (Hq2 : forall l, Forall isQuiet l ->
            Forall (fun u => fst (checkForButtonClicked u b) = false) l).
  { intros l Hl. eapply Forall_impl; [|exact Hl]. intros u Hu.
    apply not_true_false. intros Hf. apply clicked_true in Hf.
    unfold isQuiet in Hu. destruct Hf as [Hf _]. congruence. }
  assert (Hm1 : Forall (fun u => fst (checkForButtonFirstTouched u b) = false) mid).
  { eapply Forall_impl; [|exact Hmid]. intros u Hu.
    apply not_true_false. intros Hf. apply firstTouched_true in Hf.
    destruct Hf as [Hf _]. destruct Hu as [Hu|Hu]; congruence. }
  assert (Hm2 : Forall (fun u => fst (checkForButtonClicked u b) = false) mid).
  { eapply Forall_impl; [|exact Hmid]. intros u Hu.
    apply not_true_false. intros Hf. apply clicked_true in Hf.
    destruct Hf as [Hf _]. destruct Hu as [Hu|Hu]; congruence. }
  split.
  - apply Forall_app. split; [apply Hq1; exact Hpre|].
    apply Forall_app. split; [exact Hm1|].
    constructor; [|apply Hq1; exact Hpost].
    apply not_true_false. intros Hf. apply firstTouched_true in Hf.
    destruct Hf as [Hf _]. congruence.
  - apply Forall_app. split; [apply Hq2; exact Hpre|].
    constructor.
    + apply not_true_false. intros Hf. apply clicked_true in Hf.
      destruct Hf as [Hf _]. congruence.
    + apply Forall_app. split; [exact Hm2 | apply Hq2; exact Hpost].
Qed.

Lemma button_click_fires_once_witness :
  map (fun u => fst (checkForButtonFirstTouched u sayHelloButton))
      (run touchScreenInitialize helloClickPolls) =
    [false; false; false; true; false; false; false; false; false; false] /\
  map (fun u => fst (checkForButtonClicked u sayHelloButton))
      (run touchScreenInitialize helloClickPolls) =
    [false; false; false; false; false; false; false; false; true; false] /\
  exists pre uP mid uR post,
    run touchScreenInitialize helloClickPolls = pre ++ uP :: mid ++ uR :: post /\
    fst (checkForButtonFirstTouched uP sayHelloButton) = true /\
    fst (checkForButtonClicked uR sayHelloButton) = true.
Proof.
  split; [reflexivity|]. split; [reflexivity|].
  destruct (button_click_fires_once touchScreenInitialize helloClickPolls
              sayHelloButton) as [Hclick _].
  - reflexivity.
  - reflexivity.
  - reflexivity.
  - intros u Hin Hk. cbn in Hin.
    repeat (destruct Hin as [Hu|Hin]; [subst u; try discriminate Hk|]);
      try contradiction.
    unfold inButton, buttonX1, buttonX2, buttonY1, buttonY2. cbn. lia.
  - destruct Hclick as [pre [uP [mid [uR [post [Hrun [_ [_ [HP [HR _]]]]]]]]]].
    exists pre, uP, mid, uR, post. repeat split; assumption.
Defined.

(** ** Number Boxes *)

Import NumberBox.










(** *** Holding the Up or the Down button *)

Lemma rect_false (ui : TouchUI) (k : TouchEventType) (x1 y1 x2 y2 : Z) :
  ~ (touchEventType ui = k /\
     x1 <= touchEventX ui <= x2 /\ y1 <= touchEventY ui <= y2) ->
  checkForTouchEventInRect ui k x1 y1 x2 y2 = false.
Proof.
  intros H. apply not_true_false. intros Ht.
  apply H, checkForTouchEventInRect_true, Ht.
Qed.

Lemma rect_true (ui : TouchUI) (k : TouchEventType) (x1 y1 x2 y2 : Z) :
  touchEventType ui = k ->
  x1 <= touchEventX ui <= x2 /\ y1 <= touchEventY ui <= y2 ->
  checkForTouchEventInRect ui k x1 y1 x2 y2 = true.
Proof. intros Hk Hin. apply checkForTouchEventInRect_true. auto. Qed.

Ltac wrong_kind :=
  let Hwrong := fresh "Hwrong" in intros [Hwrong _]; congruence.













(** *** The claims about the Number Box *)

(** ** Floating point arithmetic *)

Section FloatArithmetic.
Import Float32.

Lemma digits_bounds (p : positive) :
  2 ^ (Zpos (digits2_pos p) - 1) <= Zpos p < 2 ^ Zpos (digits2_pos p).
Proof.
  induction p as [p IH|p IH|]; cbn [digits2_pos].
  - rewrite Pos2Z.inj_succ.
    replace (Z.succ (Zpos (digits2_pos p)) - 1) with (Z.succ (Zpos (digits2_pos p) - 1)) by lia.
    rewrite !Z.pow_succ_r by lia. lia.
  - rewrite Pos2Z.inj_succ.
    replace (Z.succ (Zpos (digits2_pos p)) - 1) with (Z.succ (Zpos (digits2_pos p) - 1)) by lia.
    rewrite !Z.pow_succ_r by lia. lia.
  - cbn. lia.
Qed.

Lemma digits_unique (p : positive) (d : Z) :
  2 ^ (d - 1) <= Zpos p < 2 ^ d -> Zpos (digits2_pos p) = d.
Proof.
  intros [Hl Hu]. pose proof (digits_bounds p) as [Hl' Hu'].
  destruct (Z.lt_trichotomy (Zpos (digits2_pos p)) d) as [H|[H|H]]; [|exact H|].
  - exfalso.
    assert (2 ^ Zpos (digits2_pos p) <= 2 ^ (d - 1))
      by (apply Z.pow_le_mono_r; lia).
    lia.
  - exfalso.
    destruct (Z_lt_le_dec d 0) as [Hd|Hd].
    + rewrite Z.pow_neg_r in Hu by lia. lia.
    + assert (2 ^ d <= 2 ^ (Zpos (digits2_pos p) - 1))
        by (apply Z.pow_le_mono_r; lia).
      lia.
Qed.

Lemma iter_pos_nat {A : Type} (f : A -> A) (p : positive) :
  forall x : A, iter_pos f p x = Nat.iter (Pos.to_nat p) f x.
Proof.
  induction p as [p IH|p IH|]; intros x; cbn [iter_pos].
  - rewrite !IH. rewrite Pos2Nat.inj_xI.
    replace (S (2 * Pos.to_nat p))%nat with (Pos.to_nat p + (Pos.to_nat p + 1))%nat by lia.
    rewrite !Nat.iter_add. reflexivity.
  - rewrite !IH. rewrite Pos2Nat.inj_xO.
    replace (2 * Pos.to_nat p)%nat with (Pos.to_nat p + Pos.to_nat p)%nat by lia.
    rewrite Nat.iter_add. reflexivity.
  - reflexivity.
Qed.

Lemma shr_1_spec (m : Z) (r s : bool) :
  0 <= m ->
  shr_m (shr_1 (Build_shr_record m r s)) = m / 2 /\
  shr_r (shr_1 (Build_shr_record m r s)) = Z.odd m /\
  shr_s (shr_1 (Build_shr_record m r s)) = r || s.
Proof.
  intros Hm. destruct m as [|[p|p|]|p]; cbn [shr_1 shr_m shr_r shr_s]; try lia.
  - repeat split.
  - repeat split. rewrite Pos2Z.inj_xI. lia.
  - repeat split. rewrite Pos2Z.inj_xO. lia.
  - repeat split.
Qed.

Lemma shr_iter (m0 : Z) (k : nat) :
  0 <= m0 ->
  let r := Nat.iter k shr_1 (Build_shr_record m0 false false) in
  shr_m r = m0 / 2 ^ Z.of_nat k /\
  (shr_r r = true \/ shr_s r = true -> m0 mod 2 ^ Z.of_nat k <> 0).
Proof.
  intros Hm. induction k as [|k IH].
  - cbn. split; [rewrite Z.div_1_r; reflexivity|]. intros [H|H]; discriminate H.
  - cbv zeta in *. rewrite !Nat.iter_succ.
    destruct (Nat.iter k shr_1 (Build_shr_record m0 false false)) as [m r s].
    cbn [shr_m shr_r shr_s] in IH. destruct IH as [IHm IHrs].
    assert (Hpos : 0 < 2 ^ Z.of_nat k) by (apply Z.pow_pos_nonneg; lia).
    assert (Hm' : 0 <= m) by (rewrite IHm; apply Z.div_pos; lia).
    destruct (shr_1_spec m r s Hm') as [H1 [H2 H3]].
    rewrite H1, H2, H3. rewrite Nat2Z.inj_succ, Z.pow_succ_r by lia.
    split.
    + rewrite IHm. rewrite Z.div_div by lia. f_equal. lia.
    + intros Hrs Hmod.
      assert (Hdiv : m0 = 2 * 2 ^ Z.of_nat k * (m0 / (2 * 2 ^ Z.of_nat k)))
        by (pose proof (Z.div_mod m0 (2 * 2 ^ Z.of_nat k)); lia).
      set (P := 2 ^ Z.of_nat k) in *. set (Q := m0 / (2 * P)) in *.
      assert (Hm0 : m0 = P * (2 * Q)) by lia.
      assert (Hq : m = 2 * Q).
      { rewrite IHm. rewrite Hm0. rewrite Z.mul_comm, Z.div_mul by lia. reflexivity. }
      assert (Hmod0 : m0 mod P = 0).
      { rewrite Hm0. rewrite Z.mul_comm. apply Z.mod_mul. lia. }
      destruct Hrs as [Hodd|Hor].
      * rewrite Hq in Hodd. rewrite Z.odd_mul in Hodd. discriminate Hodd.
      * apply orb_true_iff in Hor. apply IHrs; [|exact Hmod0].
        destruct Hor; [left|right]; assumption.
Qed.

Lemma fexp_eq (x : Z) : fexp prec emax x = Z.max (x - 24) (-149).
Proof. reflexivity. Qed.

Lemma Zdigits2_bounds (z : Z) :
  0 < z -> 2 ^ (Zdigits2 z - 1) <= z < 2 ^ Zdigits2 z.
Proof.
  destruct z as [|p|p]; try lia. intros _. apply digits_bounds.
Qed.

Lemma Zdigits2_unique (z d : Z) :
  0 < z -> 2 ^ (d - 1) <= z < 2 ^ d -> Zdigits2 z = d.
Proof.
  destruct z as [|p|p]; try lia. intros _. apply digits_unique.
Qed.

Lemma Zdigits2_pos (z : Z) : 0 < z -> 0 < Zdigits2 z.
Proof. destruct z; cbn; lia. Qed.

Lemma Zdigits2_div (m n : Z) :
  0 < m -> 0 <= n -> 0 < m / 2 ^ n ->
  Zdigits2 (m / 2 ^ n) = Zdigits2 m - n.
Proof.
  intros Hm Hn Hq. pose proof (Zdigits2_bounds m Hm) as [Hl Hu].
  pose proof (Zdigits2_pos m Hm) as Hd.
  assert (Hp : 0 < 2 ^ n) by (apply Z.pow_pos_nonneg; lia).
  assert (Hnd : n < Zdigits2 m).
  { destruct (Z_lt_le_dec n (Zdigits2 m)) as [H|H]; [exact H|exfalso].
    assert (2 ^ Zdigits2 m <= 2 ^ n) by (apply Z.pow_le_mono_r; lia).
    assert (m / 2 ^ n = 0) by (apply Z.div_small; lia). lia. }
  apply Zdigits2_unique; [exact Hq|]. split.
  - apply Z.div_le_lower_bound; [exact Hp|].
    rewrite <- Z.pow_add_r by lia.
    replace (n + (Zdigits2 m - n - 1)) with (Zdigits2 m - 1) by lia. exact Hl.
  - apply Z.div_lt_upper_bound; [exact Hp|].
    rewrite <- Z.pow_add_r by lia.
    replace (n + (Zdigits2 m - n)) with (Zdigits2 m) by lia. exact Hu.
Qed.

Lemma Zdigits2_succ (q : Z) :
  0 < q ->
  Zdigits2 (q + 1) = Zdigits2 q \/
  (Zdigits2 (q + 1) = Zdigits2 q + 1 /\ q + 1 = 2 ^ Zdigits2 q).
Proof.
  intros Hq. pose proof (Zdigits2_bounds q Hq) as [Hl Hu].
  pose proof (Zdigits2_pos q Hq) as Hd.
  destruct (Z_lt_le_dec (q + 1) (2 ^ Zdigits2 q)) as [H|H].
  - left. apply Zdigits2_unique; lia.
  - right. assert (E : q + 1 = 2 ^ Zdigits2 q) by lia. split; [|exact E].
    apply Zdigits2_unique; [lia|].
    replace (Zdigits2 q + 1 - 1) with (Zdigits2 q) by lia.
    rewrite Z.pow_add_r by lia. change (2 ^ 1) with 2. lia.
Qed.

Lemma shr_spec (m0 e n : Z) :
  0 <= m0 ->
  exists r,
    shr (Build_shr_record m0 false false) e n = (r, e + Z.max 0 n) /\
    shr_m r = m0 / 2 ^ Z.max 0 n /\
    (loc_of_shr_record r <> loc_Exact -> m0 mod 2 ^ Z.max 0 n <> 0).
Proof.
  intros Hm. destruct n as [|p|p].
  - exists (Build_shr_record m0 false false). cbn [shr Z.max Z.compare].
    rewrite Z.add_0_r. split; [reflexivity|]. cbn [shr_m]. split.
    + change (2 ^ 0) with 1. rewrite Z.div_1_r. reflexivity.
    + intros H. exfalso. apply H. reflexivity.
  - exists (iter_pos shr_1 p (Build_shr_record m0 false false)).
    change (Z.max 0 (Zpos p)) with (Zpos p).
    split; [reflexivity|]. rewrite iter_pos_nat.
    pose proof (shr_iter m0 (Pos.to_nat p) Hm) as H. cbv zeta in H.
    rewrite positive_nat_Z in H. destruct H as [H1 H2].
    split; [exact H1|]. intros Hloc. apply H2.
    destruct (Nat.iter (Pos.to_nat p) shr_1 (Build_shr_record m0 false false))
      as [m [|] [|]]; cbn; auto.
  - exists (Build_shr_record m0 false false).
    change (Z.max 0 (Zneg p)) with 0.
    cbn [shr]. rewrite Z.add_0_r. split; [reflexivity|]. cbn [shr_m]. split.
    + change (2 ^ 0) with 1. rewrite Z.div_1_r. reflexivity.
    + intros H. exfalso. apply H. reflexivity.
Qed.

Lemma shr_fexp_spec (m e : Z) :
  0 <= m ->
  exists r,
    shr_fexp prec emax m e loc_Exact
    = (r, e + Z.max 0 (fexp prec emax (Zdigits2 m + e) - e)) /\
    shr_m r = m / 2 ^ Z.max 0 (fexp prec emax (Zdigits2 m + e) - e) /\
    (loc_of_shr_record r <> loc_Exact ->
     m mod 2 ^ Z.max 0 (fexp prec emax (Zdigits2 m + e) - e) <> 0).
Proof.
  intros Hm. unfold shr_fexp. cbn [shr_record_of_loc].
  apply shr_spec. exact Hm.
Qed.

Lemma rne_cases (m : Z) (l : location) :
  round_nearest_even m l = m \/
  (round_nearest_even m l = m + 1 /\ l <> loc_Exact).
Proof.
  destruct l as [|[| |]]; cbn [round_nearest_even].
  - left. reflexivity.
  - destruct (Z.even m); [left; reflexivity|right]. split; [reflexivity|discriminate].
  - left. reflexivity.
  - right. split; [reflexivity|discriminate].
Qed.

Lemma bra_unfold (sx : bool) (mx ex : Z) :
  binary_round_aux prec emax sx mx ex loc_Exact =
  let '(mrs', e') := shr_fexp prec emax mx ex loc_Exact in
  let '(mrs'', e'') :=
    shr_fexp prec emax
      (round_nearest_even (shr_m mrs') (loc_of_shr_record mrs')) e' loc_Exact in
  build sx (shr_m mrs'') e''.
Proof. reflexivity. Qed.

(** The second shift of [binary_round_aux]: a mantissa that sits at the
    exponent [f] or one digit too high is brought back. *)
Lemma renormalize (m1 f : Z) :
  0 <= m1 -> -149 <= f ->
  (m1 = 0 -> f = -149) ->
  (0 < m1 ->
   fexp prec emax (Zdigits2 m1 + f) = f \/
   (fexp prec emax (Zdigits2 m1 + f) = f + 1 /\ m1 = 2 ^ (Zdigits2 m1 - 1))) ->
  exists r m2 e2,
    shr_fexp prec emax m1 f loc_Exact = (r, e2) /\ shr_m r = m2 /\
    0 <= m2 /\ canonicalZ m2 e2 /\ f <= e2 /\ m2 * 2 ^ (e2 - f) = m1.
Proof.
  intros Hm1 Hf Hzero Hpos.
  destruct (shr_fexp_spec m1 f Hm1) as [r [Hr [Hrm _]]].
  exists r. destruct (Z.eq_dec m1 0) as [E0|N0].
  - subst m1. rewrite (Hzero eq_refl) in *.
    change (Z.max 0 (fexp prec emax (Zdigits2 0 + -149) - -149)) with 0 in Hr, Hrm.
    change (0 / 2 ^ 0) with 0 in Hrm. change (-149 + 0) with (-149) in Hr.
    exists 0, (-149).
    split; [exact Hr|]. split; [exact Hrm|]. split; [lia|].
    split; [reflexivity|]. split; [lia|reflexivity].
  - assert (Hp : 0 < m1) by lia. destruct (Hpos Hp) as [Hc|[Hc Hpow]].
    + rewrite Hc in Hr, Hrm. replace (Z.max 0 (f - f)) with 0 in Hr, Hrm by lia.
      change (2 ^ 0) with 1 in Hrm. rewrite Z.div_1_r in Hrm.
      rewrite Z.add_0_r in Hr.
      exists m1, f. repeat split; try assumption; try lia.
      replace (f - f) with 0 by lia. lia.
    + rewrite Hc in Hr, Hrm. replace (Z.max 0 (f + 1 - f)) with 1 in Hr, Hrm by lia.
      change (2 ^ 1) with 2 in Hrm.
      pose proof (Zdigits2_pos m1 Hp) as Hd.
      destruct (Z.eq_dec (Zdigits2 m1) 1) as [D1|D1].
      * (* m1 = 1: then fexp (1 + f) = f + 1 is impossible *)
        exfalso. rewrite D1 in Hc. rewrite fexp_eq in Hc. lia.
      * assert (Hm2 : m1 = 2 * 2 ^ (Zdigits2 m1 - 2)).
        { rewrite Hpow at 1. replace (Zdigits2 m1 - 1) with (Z.succ (Zdigits2 m1 - 2)) by lia.
          rewrite Z.pow_succ_r by lia. reflexivity. }
        assert (Hq : m1 / 2 = 2 ^ (Zdigits2 m1 - 2)).
        { rewrite Hm2 at 1. rewrite Z.mul_comm, Z.div_mul by lia. reflexivity. }
        set (p2 := 2 ^ (Zdigits2 m1 - 2)) in *.
        assert (Hp2 : 0 < p2) by (apply Z.pow_pos_nonneg; lia).
        exists p2, (f + 1). rewrite Hq in Hrm.
        repeat split; try assumption; try lia.
        -- unfold canonicalZ.
           assert (Zdigits2 p2 = Zdigits2 m1 - 1).
           { apply Zdigits2_unique; [exact Hp2|]. unfold p2.
             replace (Zdigits2 m1 - 1 - 1) with (Zdigits2 m1 - 2) by lia.
             split; [lia|]. apply Z.pow_lt_mono_r; lia. }
           rewrite fexp_eq in *. lia.
        -- replace (f + 1 - f) with 1 by lia. change (2 ^ 1) with 2. lia.
Qed.

Lemma bra_spec (sx : bool) (m : positive) (e : Z) :
  let f := fexp prec emax (Zpos (digits2_pos m) + e) in
  let q := Zpos m / 2 ^ (f - e) in
  e <= f ->
  exists m2 e2,
    binary_round_aux prec emax sx (Zpos m) e loc_Exact = build sx m2 e2 /\
    0 <= m2 /\ canonicalZ m2 e2 /\ f <= e2 /\
    (m2 * 2 ^ (e2 - f) = q \/
     (m2 * 2 ^ (e2 - f) = q + 1 /\ Zpos m mod 2 ^ (f - e) <> 0)) /\
    (0 < q -> Zdigits2 q = Zpos (digits2_pos m) - (f - e)).
Proof.
  intros f q Hef. rewrite bra_unfold.
  destruct (shr_fexp_spec (Zpos m) e) as [r1 [Hr1 [Hq1 Hloc1]]]; [lia|].
  change (Zdigits2 (Zpos m)) with (Zpos (digits2_pos m)) in *. fold f in Hr1, Hq1, Hloc1.
  replace (Z.max 0 (f - e)) with (f - e) in * by lia.
  replace (e + (f - e)) with f in Hr1 by lia. fold q in Hq1.
  rewrite Hr1.
  pose proof (digits_bounds m) as [Hdl Hdu].
  set (d := Zpos (digits2_pos m)) in *.
  assert (Hd : 0 < d) by (unfold d; lia).
  assert (Hpn : 0 < 2 ^ (f - e)) by (apply Z.pow_pos_nonneg; lia).
  assert (Hq0 : 0 <= q) by (unfold q; apply Z.div_pos; lia).
  assert (Hf : -149 <= f) by (unfold f; rewrite fexp_eq; lia).
  assert (Hqz : q = 0 -> f = -149).
  { intros E. unfold q in E.
    assert (Hlt : Zpos m < 2 ^ (f - e)).
    { apply Z.div_small_iff in E; lia. }
    assert (Hdn : d - 1 < f - e).
    { destruct (Z_lt_le_dec (d - 1) (f - e)) as [H|H]; [exact H|exfalso].
      assert (2 ^ (f - e) <= 2 ^ (d - 1)) by (apply Z.pow_le_mono_r; lia). lia. }
    unfold f in *. rewrite fexp_eq in *. lia. }
  assert (Hqd : 0 < q -> Zdigits2 q = d - (f - e)).
  { intros Hq. unfold q. rewrite Zdigits2_div; try lia. reflexivity. }
  assert (Hfd : fexp prec emax (d + e) = f) by reflexivity.
  set (m1 := round_nearest_even (shr_m r1) (loc_of_shr_record r1)).
  assert (Hm1 : m1 = q \/ (m1 = q + 1 /\ Zpos m mod 2 ^ (f - e) <> 0)).
  { unfold m1. destruct (rne_cases (shr_m r1) (loc_of_shr_record r1)) as [H|[H Hl]].
    - left. rewrite H. exact Hq1.
    - right. rewrite H, Hq1. split; [reflexivity|]. apply Hloc1. exact Hl. }
  destruct (renormalize m1 f) as [r2 [m2 [e2 [Hr2 [Hm2 [Hm2pos [Hcan [Hfe Hval]]]]]]]].
  - lia.
  - exact Hf.
  - intros E. apply Hqz. lia.
  - intros Hpos. destruct Hm1 as [E|[E _]].
    + left. rewrite E. rewrite Hqd by lia.
      replace (d - (f - e) + f) with (d + e) by lia. exact Hfd.
    + destruct (Z.eq_dec q 0) as [Eq0|Nq0].
      * left. rewrite E, Eq0. rewrite (Hqz Eq0). reflexivity.
      * assert (Hqp : 0 < q) by lia. rewrite E.
        destruct (Zdigits2_succ q Hqp) as [Hs|[Hs Hpow]].
        -- left. rewrite Hs, Hqd by lia.
           replace (d - (f - e) + f) with (d + e) by lia. exact Hfd.
        -- rewrite Hs, Hqd by lia.
           replace (d - (f - e) + 1 + f) with (d + e + 1) by lia.
           destruct (Z_lt_le_dec (d + e - 24) (-149)) as [Hsub|Hnorm].
           ++ left. rewrite fexp_eq. rewrite <- Hfd, fexp_eq. lia.
           ++ right. split.
              ** rewrite fexp_eq. rewrite <- Hfd, fexp_eq. lia.
              ** replace (d - (f - e) + 1 - 1) with (Zdigits2 q) by (rewrite Hqd; lia).
                 exact Hpow.
  - exists m2, e2. rewrite Hr2, Hm2.
    split; [reflexivity|]. split; [exact Hm2pos|]. split; [exact Hcan|].
    split; [exact Hfe|]. split.
    + rewrite Hval. exact Hm1.
    + exact Hqd.
Qed.

Lemma iter_xO (m d : positive) : Zpos (Pos.iter xO m d) = Zpos m * 2 ^ Zpos d.
Proof.
  induction d as [|d IH] using Pos.peano_ind.
  - cbn. lia.
  - rewrite Pos.iter_succ, Pos2Z.inj_xO, IH, Pos2Z.inj_succ, Z.pow_succ_r by lia.
    lia.
Qed.

Lemma shl_align_spec (m : positive) (e e' : Z) :
  exists mz,
    shl_align m e e' = (mz, Z.min e e') /\
    Zpos mz = Zpos m * 2 ^ (e - Z.min e e').
Proof.
  unfold shl_align. destruct (e' - e) as [|p|p] eqn:E.
  - exists m. replace (Z.min e e') with e by lia.
    rewrite Z.sub_diag. split; [reflexivity|]. cbn. lia.
  - exists m. replace (Z.min e e') with e by lia.
    rewrite Z.sub_diag. split; [reflexivity|]. cbn. lia.
  - exists (Pos.iter xO m p). replace (Z.min e e') with e' by lia.
    split; [reflexivity|]. rewrite iter_xO. f_equal. f_equal. lia.
Qed.

Lemma digits_shift (m mz : positive) (k : Z) :
  0 <= k -> Zpos mz = Zpos m * 2 ^ k ->
  Zpos (digits2_pos mz) = Zpos (digits2_pos m) + k.
Proof.
  intros Hk E. apply digits_unique. rewrite E.
  pose proof (digits_bounds m) as [Hl Hu].
  assert (0 < 2 ^ k) by (apply Z.pow_pos_nonneg; lia).
  replace (Zpos (digits2_pos m) + k - 1) with (Zpos (digits2_pos m) - 1 + k) by lia.
  rewrite !Z.pow_add_r by lia. split; nia.
Qed.

Lemma binary_round_spec (sx : bool) (m : positive) (e : Z) :
  let d := Zpos (digits2_pos m) in
  let f := fexp prec emax (d + e) in
  let ez := Z.min e f in
  let mz := Zpos m * 2 ^ (e - ez) in
  let q := mz / 2 ^ (f - ez) in
  exists m2 e2,
    binary_round prec emax sx m e = build sx m2 e2 /\
    0 <= m2 /\ canonicalZ m2 e2 /\ f <= e2 /\
    (m2 * 2 ^ (e2 - f) = q \/
     (m2 * 2 ^ (e2 - f) = q + 1 /\ mz mod 2 ^ (f - ez) <> 0)) /\
    (0 < q -> Zdigits2 q = d + e - f).
Proof.
  intros d f ez mz q. unfold binary_round.
  destruct (shl_align_spec m e (fexp prec emax (Zpos (digits2_pos m) + e)))
    as [mz' [Hsh Hmz]].
  rewrite Hsh.
  fold d in Hsh, Hmz. fold f in Hsh, Hmz. fold ez in Hsh, Hmz. fold mz in Hmz.
  fold d. fold f. fold ez.
  assert (Hdz : Zpos (digits2_pos mz') = d + (e - ez))
    by (apply digits_shift; [lia|exact Hmz]).
  assert (Hfz : fexp prec emax (Zpos (digits2_pos mz') + ez) = f).
  { rewrite Hdz. replace (d + (e - ez) + ez) with (d + e) by lia. reflexivity. }
  pose proof (bra_spec sx mz' ez) as H. cbv zeta in H.
  rewrite Hfz in H. rewrite Hmz in H. fold q in H.
  destruct H as [m2 [e2 [H1 [H2 [H3 [H4 [H5 H6]]]]]]]; [lia|].
  exists m2, e2. rewrite Hmz.
  split; [exact H1|]. split; [exact H2|]. split; [exact H3|].
  split; [exact H4|]. split; [exact H5|].
  intros Hq. rewrite (H6 Hq). rewrite Hdz. lia.
Qed.

Lemma build_valid (sx : bool) (m e : Z) :
  0 <= m -> canonicalZ m e -> valid_binary prec emax (build sx m e) = true.
Proof.
  intros Hm Hc. destruct m as [|p|p]; [reflexivity| |lia].
  unfold build. destruct (e <=? emax - prec) eqn:E; [|reflexivity].
  cbn [valid_binary]. unfold bounded, canonical_mantissa.
  unfold canonicalZ in Hc. cbn [Zdigits2] in Hc. rewrite Hc, Z.eqb_refl, E.
  reflexivity.
Qed.

Lemma binary_round_valid (sx : bool) (m : positive) (e : Z) :
  isFloat (binary_round prec emax sx m e) = true.
Proof.
  destruct (binary_round_spec sx m e) as [m2 [e2 [H1 [H2 [H3 _]]]]].
  unfold isFloat. rewrite H1. apply build_valid; assumption.
Qed.

Lemma binary_normalize_valid (m e : Z) (szero : bool) :
  isFloat (binary_normalize prec emax m e szero) = true.
Proof.
  destruct m; [reflexivity| |]; apply binary_round_valid.
Qed.

Lemma SFadd_valid (x y : float) :
  isFloat x = true -> isFloat y = true -> isFloat (SFadd prec emax x y) = true.
Proof.
  intros Hx Hy.
  destruct x as [sx|sx| |sx mx ex], y as [sy|sy| |sy my ey];
    try reflexivity; try assumption;
    try (destruct sx, sy; reflexivity).
  cbn [SFadd]. apply binary_normalize_valid.
Qed.


(** What [valid_binary] says of a finite number. *)
Lemma valid_finite (s : bool) (m : positive) (e : Z) :
  isFloat (S754_finite s m e) = true ->
  e = Z.max (Zpos (digits2_pos m) + e - 24) (-149) /\ e <= 104.
Proof.
  unfold isFloat. cbn [valid_binary]. unfold bounded, canonical_mantissa.
  rewrite andb_true_iff, Z.eqb_eq, Z.leb_le, fexp_eq.
  change (emax - prec) with 104. lia.
Qed.


Lemma pow2_split (a b : Z) : 0 <= a <= b -> 2 ^ b = 2 ^ a * 2 ^ (b - a).
Proof.
  intros H. rewrite <- Z.pow_add_r by lia. f_equal. lia.
Qed.

Lemma pow2_pos (a : Z) : 0 <= a -> 0 < 2 ^ a.
Proof. intros. apply Z.pow_pos_nonneg; lia. Qed.

Lemma valid_digits (s : bool) (m : positive) (e : Z) :
  isFloat (S754_finite s m e) = true ->
  -149 <= e <= 104 /\ Zpos m < 2 ^ 24 /\ (-149 < e -> 2 ^ 23 <= Zpos m).
Proof.
  intros H. destruct (valid_finite s m e H) as [Hc He].
  pose proof (digits_bounds m) as [Hl Hu].
  set (d := Zpos (digits2_pos m)) in *.
  assert (Hd : 0 < d) by (unfold d; lia).
  split; [lia|]. split.
  - assert (2 ^ d <= 2 ^ 24) by (apply Z.pow_le_mono_r; lia). lia.
  - intros Hn. assert (d = 24) by lia.
    replace (d - 1) with 23 in Hl by lia. exact Hl.
Qed.

Lemma mag_finite (s : bool) (m : positive) (e : Z) :
  isFloat (S754_finite s m e) = true ->
  0 < mag (S754_finite s m e) < 2 ^ 277.
Proof.
  intros H. destruct (valid_digits s m e H) as [He [Hm _]]. cbn [mag].
  assert (0 < 2 ^ (e + 149)) by (apply pow2_pos; lia).
  assert (2 ^ (e + 149) <= 2 ^ 253) by (apply Z.pow_le_mono_r; lia).
  change (2 ^ 277) with (2 ^ 24 * 2 ^ 253). split; nia.
Qed.

Lemma canonical_lt (s1 s2 : bool) (m1 m2 : positive) (e1 e2 : Z) :
  isFloat (S754_finite s1 m1 e1) = true ->
  isFloat (S754_finite s2 m2 e2) = true ->
  e1 < e2 ->
  Zpos m1 * 2 ^ (e1 + 149) < Zpos m2 * 2 ^ (e2 + 149).
Proof.
  intros H1 H2 Hlt.
  destruct (valid_digits _ _ _ H1) as [He1 [Hm1 _]].
  destruct (valid_digits _ _ _ H2) as [He2 [_ Hm2]].
  specialize (Hm2 ltac:(lia)).
  rewrite (pow2_split (e1 + 149) (e2 + 149)) by lia.
  assert (0 < 2 ^ (e1 + 149)) by (apply pow2_pos; lia).
  assert (2 ^ 1 <= 2 ^ (e2 + 149 - (e1 + 149))) by (apply Z.pow_le_mono_r; lia).
  change (2 ^ 1) with 2 in *. change (2 ^ 24) with (2 * 2 ^ 23) in Hm1.
  set (P := 2 ^ (e1 + 149)) in *. set (K := 2 ^ (e2 + 149 - (e1 + 149))) in *.
  assert (Hk : Zpos m1 < Zpos m2 * K) by nia.
  replace (Zpos m2 * (P * K)) with (Zpos m2 * K * P) by ring.
  apply Z.mul_lt_mono_pos_r; assumption.
Qed.

Lemma SFcompare_spec (x y : float) :
  isFloat x = true -> isFloat y = true -> isNaN x = false -> isNaN y = false ->
  SFcompare x y = Some (ev x ?= ev y).
Proof.
  intros Hx Hy Nx Ny.
  destruct x as [sx|sx| |sx mx ex]; try discriminate Nx;
  destruct y as [sy|sy| |sy my ey]; try discriminate Ny;
    try pose proof (mag_finite _ _ _ Hx) as Bx;
    try pose proof (mag_finite _ _ _ Hy) as By;
    unfold ev; cbn [SFcompare sign];
    try (destruct sx, sy; cbn [cond_Zopp mag] in *; f_equal; symmetry;
         first [ reflexivity
               | apply Z.compare_lt_iff; lia
               | apply Z.compare_gt_iff; lia ]; fail).
  cbn [mag] in *.
  destruct sx, sy; cbn [cond_Zopp]; f_equal; symmetry.
  - destruct (Z.compare_spec ex ey) as [E|E|E].
    + subst ey. change (Pos.compare_cont Eq mx my) with (Z.compare (Zpos mx) (Zpos my)).
      assert (0 < 2 ^ (ex + 149)) by (apply pow2_pos; destruct (valid_digits _ _ _ Hx); lia).
      destruct (Z.compare_spec (Zpos mx) (Zpos my)) as [E'|E'|E']; cbn [CompOpp].
      * apply Z.compare_eq_iff. rewrite E'. reflexivity.
      * apply Z.compare_gt_iff. nia.
      * apply Z.compare_lt_iff. nia.
    + pose proof (canonical_lt _ _ _ _ _ _ Hx Hy E). apply Z.compare_gt_iff. lia.
    + pose proof (canonical_lt _ _ _ _ _ _ Hy Hx E). apply Z.compare_lt_iff. lia.
  - apply Z.compare_lt_iff. lia.
  - apply Z.compare_gt_iff. lia.
  - destruct (Z.compare_spec ex ey) as [E|E|E].
    + subst ey. change (Pos.compare_cont Eq mx my) with (Z.compare (Zpos mx) (Zpos my)).
      assert (0 < 2 ^ (ex + 149)) by (apply pow2_pos; destruct (valid_digits _ _ _ Hx); lia).
      destruct (Z.compare_spec (Zpos mx) (Zpos my)) as [E'|E'|E'].
      * apply Z.compare_eq_iff. rewrite E'. reflexivity.
      * apply Z.compare_lt_iff. nia.
      * apply Z.compare_gt_iff. nia.
    + pose proof (canonical_lt _ _ _ _ _ _ Hx Hy E). apply Z.compare_lt_iff. lia.
    + pose proof (canonical_lt _ _ _ _ _ _ Hy Hx E). apply Z.compare_gt_iff. lia.
Qed.

Lemma SFleb_spec (x y : float) :
  isFloat x = true -> isFloat y = true -> isNaN x = false -> isNaN y = false ->
  SFleb x y = true <-> ev x <= ev y.
Proof.
  intros Hx Hy Nx Ny. unfold SFleb. rewrite (SFcompare_spec x y Hx Hy Nx Ny).
  destruct (Z.compare_spec (ev x) (ev y)); split; intros; try lia; try reflexivity;
    try discriminate.
Qed.

Lemma SFltb_spec (x y : float) :
  isFloat x = true -> isFloat y = true -> isNaN x = false -> isNaN y = false ->
  SFltb x y = true <-> ev x < ev y.
Proof.
  intros Hx Hy Nx Ny. unfold SFltb. rewrite (SFcompare_spec x y Hx Hy Nx Ny).
  destruct (Z.compare_spec (ev x) (ev y)); split; intros; try lia; try reflexivity;
    try discriminate.
Qed.

Lemma SFleb_not_nan (x y : float) :
  SFleb x y = true -> isNaN x = false /\ isNaN y = false.
Proof.
  destruct x, y; cbn; intros H; try discriminate H; split; reflexivity.
Qed.

Lemma SFltb_not_nan (x y : float) :
  SFltb x y = true -> isNaN x = false /\ isNaN y = false.
Proof.
  destruct x, y; cbn; intros H; try discriminate H; split; reflexivity.
Qed.

Lemma faithful_core (mz q n ez : Z) (mX : positive) (eX : Z) :
  0 < mz -> 0 <= n -> -149 <= ez -> q = mz / 2 ^ n ->
  (0 < n -> 2 ^ 23 <= q) ->
  Zpos mX < 2 ^ 24 -> -149 <= eX ->
  let A := mz * 2 ^ (ez + 149) in
  let X := Zpos mX * 2 ^ (eX + 149) in
  let RD := q * 2 ^ (ez + n + 149) in
  let RU := (q + 1) * 2 ^ (ez + n + 149) in
  RD <= A /\ (X <= A -> X <= RD) /\ (A <= X -> mz mod 2 ^ n <> 0 -> RU <= X).
Proof.
  intros Hmz Hn Hez Hq Hq23 HmX HeX A X RD RU.
  assert (HU : 0 < 2 ^ (ez + 149)) by (apply pow2_pos; lia).
  assert (HP : 0 < 2 ^ n) by (apply pow2_pos; lia).
  assert (HPU : 2 ^ (ez + n + 149) = 2 ^ n * 2 ^ (ez + 149)).
  { rewrite <- Z.pow_add_r by lia. f_equal. lia. }
  assert (Hdm : mz = 2 ^ n * q + mz mod 2 ^ n) by (rewrite Hq; apply Z.div_mod; lia).
  assert (Hmod : 0 <= mz mod 2 ^ n < 2 ^ n) by (apply Z.mod_pos_bound; lia).
  unfold A, X, RD, RU. rewrite HPU.
  set (U := 2 ^ (ez + 149)) in *. set (P := 2 ^ n) in *.
  set (r := mz mod P) in *. clearbody r.
  assert (HRD : q * (P * U) <= mz * U).
  { replace (q * (P * U)) with (P * q * U) by ring.
    apply Z.mul_le_mono_nonneg_r; lia. }
  split; [exact HRD|].
  destruct (Z.eq_dec n 0) as [En|Nn].
  - (* no shift: the number is exact *)
    assert (EP : P = 1) by (unfold P; rewrite En; reflexivity).
    assert (r = 0) by lia.
    split; [|intros _ Hr; contradiction].
    intros HXA. replace (q * (P * U)) with (mz * U); [exact HXA|].
    rewrite EP. replace q with mz by lia. ring.
  - assert (Hnp : 0 < n) by lia. specialize (Hq23 Hnp).
    destruct (Z_lt_le_dec eX (ez + n)) as [Hlow|Hhigh].
    + (* the number lies below the binade of the result *)
      assert (HV : 0 < 2 ^ (eX + 149)) by (apply pow2_pos; lia).
      assert (HW : P * U = 2 ^ (eX + 149) * 2 ^ (ez + n - eX)).
      { rewrite <- HPU. rewrite <- Z.pow_add_r by lia. f_equal. lia. }
      assert (HW2 : 2 ^ 1 <= 2 ^ (ez + n - eX)) by (apply Z.pow_le_mono_r; lia).
      change (2 ^ 1) with 2 in HW2. change (2 ^ 24) with (2 * 2 ^ 23) in HmX.
      rewrite HW in *.
      set (V := 2 ^ (eX + 149)) in *. set (W := 2 ^ (ez + n - eX)) in *.
      assert (Hlt : Zpos mX * V < q * (V * W)).
      { assert (Zpos mX < q * W) by nia.
        replace (q * (V * W)) with (q * W * V) by ring.
        apply Z.mul_lt_mono_pos_r; assumption. }
      split; [lia|]. intros HAX _. lia.
    + (* the number is a multiple of the unit of the result *)
      assert (HX : 2 ^ (eX + 149) = 2 ^ (eX - (ez + n)) * (P * U)).
      { rewrite <- HPU. rewrite <- Z.pow_add_r by lia. f_equal. lia. }
      assert (HT : 0 < 2 ^ (eX - (ez + n))) by (apply pow2_pos; lia).
      rewrite HX. set (T := 2 ^ (eX - (ez + n))) in *.
      set (t := Zpos mX * T).
      replace (Zpos mX * (T * (P * U))) with (t * P * U) by (unfold t; ring).
      replace (q * (P * U)) with (q * P * U) by ring.
      replace ((q + 1) * (P * U)) with ((q + 1) * P * U) by ring.
      split.
      * intros HXA. apply Z.mul_le_mono_nonneg_r; [lia|].
        apply Z.mul_le_mono_pos_r in HXA; [|exact HU].
        assert (t <= q) by nia. nia.
      * intros HAX Hr. apply Z.mul_le_mono_nonneg_r; [lia|].
        apply Z.mul_le_mono_pos_r in HAX; [|exact HU].
        assert (q < t) by nia. nia.
Qed.

Lemma mag_nonneg (x : float) : 0 <= mag x.
Proof.
  destruct x as [s|s| |s m e]; cbn [mag];
    [ lia | apply Z.pow_nonneg; lia | lia
    | apply Z.mul_nonneg_nonneg; [lia|apply Z.pow_nonneg; lia] ].
Qed.

Lemma round_faithful (sx : bool) (m : positive) (e : Z) :
  -149 <= e ->
  let r := binary_round prec emax sx m e in
  isNaN r = false /\ isFloat r = true /\ sign r = sx /\
  forall x : float, isFloat x = true -> isFinite x = true ->
    (mag x <= Zpos m * 2 ^ (e + 149) -> mag x <= mag r) /\
    (Zpos m * 2 ^ (e + 149) <= mag x -> mag r <= mag x).
Proof.
  intros He r.
  destruct (binary_round_spec sx m e) as [m2 [e2 [H1 [H2 [H3 [H4 [H5 H6]]]]]]].
  cbv zeta in H1, H4, H5, H6. fold r in H1.
  pose proof (digits_bounds m) as [Hdl Hdu].
  set (d := Zpos (digits2_pos m)) in *.
  assert (Hd : 0 < d) by (unfold d; lia).
  set (f := fexp prec emax (d + e)) in *.
  assert (Ef : f = Z.max (d + e - 24) (-149)) by (unfold f; apply fexp_eq).
  set (ez := Z.min e f) in *.
  set (mz := Zpos m * 2 ^ (e - ez)) in *.
  set (q := mz / 2 ^ (f - ez)) in *.
  set (n := f - ez) in *.
  assert (Hez : -149 <= ez) by (unfold ez; lia).
  assert (Hn : 0 <= n) by (unfold n, ez; lia).
  assert (Hmz : 0 < mz).
  { unfold mz. pose proof (pow2_pos (e - ez) ltac:(unfold ez; lia)). nia. }
  assert (HA : mz * 2 ^ (ez + 149) = Zpos m * 2 ^ (e + 149)).
  { unfold mz. rewrite <- Z.mul_assoc, <- Z.pow_add_r by (unfold ez; lia).
    f_equal. f_equal. lia. }
  assert (Hq23 : 0 < n -> 2 ^ 23 <= q).
  { intros Hnp. assert (Eez : ez = e) by (unfold n, ez in *; lia).
    assert (En : n = d - 24) by (unfold n in *; lia).
    assert (Emz : mz = Zpos m).
    { unfold mz. rewrite Eez, Z.sub_diag. change (2 ^ 0) with 1. lia. }
    unfold q. fold n. rewrite Emz.
    apply Z.div_le_lower_bound; [apply pow2_pos; lia|].
    rewrite <- Z.pow_add_r by lia. replace (n + 23) with (d - 1) by lia.
    exact Hdl. }
  assert (Hf2 : 2 ^ (e2 + 149) = 2 ^ (e2 - f) * 2 ^ (ez + n + 149)).
  { rewrite <- Z.pow_add_r by (unfold n; lia). f_equal. unfold n. lia. }
  set (Bfin := m2 * 2 ^ (e2 + 149)).
  assert (HB : Bfin = q * 2 ^ (ez + n + 149) \/
               (Bfin = (q + 1) * 2 ^ (ez + n + 149) /\ mz mod 2 ^ n <> 0)).
  { unfold Bfin. rewrite Hf2, Z.mul_assoc.
    destruct H5 as [E|[E Hr]]; rewrite E; [left|right]; auto. }
  assert (Hr : r = build sx m2 e2) by exact H1.
  assert (Hmag : (mag r = Bfin /\ (m2 = 0 \/ e2 <= 104)) \/
                 (mag r = 2 ^ 277 /\ 2 ^ 277 <= Bfin)).
  { rewrite Hr. unfold build. destruct m2 as [|p|p]; [| |lia].
    - left. split; [reflexivity|left; reflexivity].
    - change (emax - prec) with 104. destruct (Z.leb_spec e2 104) as [Hle|Hgt].
      + left. split; [reflexivity|right; exact Hle].
      + right. split; [reflexivity|].
        unfold canonicalZ in H3. rewrite fexp_eq in H3. cbn [Zdigits2] in H3.
        pose proof (digits_bounds p) as [Hpl _].
        assert (Zpos (digits2_pos p) = 24) by lia.
        replace (Zpos (digits2_pos p) - 1) with 23 in Hpl by lia.
        unfold Bfin.
        assert (2 ^ 254 <= 2 ^ (e2 + 149)) by (apply Z.pow_le_mono_r; lia).
        change (2 ^ 277) with (2 ^ 23 * 2 ^ 254).
        assert (0 < 2 ^ 254) by reflexivity.
        assert (0 < 2 ^ 23) by reflexivity.
        set (a := 2 ^ 23) in *. set (b := 2 ^ 254) in *.
        set (c := 2 ^ (e2 + 149)) in *.
        apply Z.le_trans with (a * c).
        * apply Z.mul_le_mono_nonneg_l; lia.
        * apply Z.mul_le_mono_nonneg_r; lia. }
  split.
  { rewrite Hr. unfold build. destruct m2 as [|p|p]; [reflexivity| |lia].
    destruct (e2 <=? emax - prec); reflexivity. }
  split.
  { unfold isFloat. rewrite Hr. apply build_valid; assumption. }
  split.
  { rewrite Hr. unfold build. destruct m2 as [|p|p]; [reflexivity| |lia].
    destruct (e2 <=? emax - prec); reflexivity. }
  intros x Hx Hfin. rewrite <- HA.
  destruct x as [s|s| |s mX eX]; try discriminate Hfin.
  - cbn [mag]. split.
    + intros _. apply mag_nonneg.
    + intros Hle. pose proof (pow2_pos (ez + 149) ltac:(lia)). nia.
  - destruct (valid_digits s mX eX Hx) as [HeX [HmX _]].
    pose proof (mag_finite s mX eX Hx) as HXb.
    cbn [mag] in *.
    pose proof (faithful_core mz q n ez mX eX Hmz Hn Hez eq_refl Hq23 HmX
                  ltac:(lia)) as Hcore.
    cbv zeta in Hcore. destruct Hcore as [HRD [Ha Hb]].
    split.
    + intros HXA. specialize (Ha HXA).
      destruct Hmag as [[Em _]|[Em _]]; rewrite Em; [|lia].
      destruct HB as [EB|[EB _]]; rewrite EB; [exact Ha|].
      pose proof (pow2_pos (ez + n + 149) ltac:(lia)). nia.
    + intros HAX.
      assert (HBX : Bfin <= Zpos mX * 2 ^ (eX + 149)).
      { destruct HB as [EB|[EB Hmod]]; rewrite EB; [lia|].
        apply Hb; assumption. }
      destruct Hmag as [[Em _]|[Em Hov]]; rewrite Em; lia.
Qed.

Lemma ev_finite (s : bool) (m : positive) (e ez : Z) (mz : positive) :
  -149 <= ez <= e -> Zpos mz = Zpos m * 2 ^ (e - ez) ->
  ev (S754_finite s m e) = cond_Zopp s (Zpos mz) * 2 ^ (ez + 149).
Proof.
  intros He Hmz. unfold ev. cbn [sign mag]. rewrite Hmz.
  rewrite (pow2_split (ez + 149) (e + 149)) by lia.
  replace (e + 149 - (ez + 149)) with (e - ez) by lia.
  destruct s; cbn [cond_Zopp]; ring.
Qed.

Lemma ev_sign (x : float) :
  (sign x = true -> ev x = - mag x) /\ (sign x = false -> ev x = mag x).
Proof. unfold ev. destruct (sign x); cbn; split; intros; congruence. Qed.

Lemma SFadd_finite (sx sy : bool) (mx my : positive) (ex ey : Z) :
  isFloat (S754_finite sx mx ex) = true ->
  isFloat (S754_finite sy my ey) = true ->
  let x := S754_finite sx mx ex in
  let y := S754_finite sy my ey in
  isNaN (SFadd prec emax x y) = false /\
  (0 <= ev y -> ev x <= ev (SFadd prec emax x y)) /\
  (ev y <= 0 -> ev (SFadd prec emax x y) <= ev x).
Proof.
  intros Hx Hy x y.
  destruct (valid_digits _ _ _ Hx) as [Hex _].
  destruct (valid_digits _ _ _ Hy) as [Hey _].
  pose proof (mag_finite _ _ _ Hx) as Bx.
  pose proof (mag_finite _ _ _ Hy) as By.
  unfold x, y. cbn [SFadd].
  set (ez := Z.min ex ey).
  destruct (shl_align_spec mx ex ez) as [mx' [Hsx Hmx']].
  destruct (shl_align_spec my ey ez) as [my' [Hsy Hmy']].
  replace (Z.min ex ez) with ez in * by (unfold ez; lia).
  replace (Z.min ey ez) with ez in * by (unfold ez; lia).
  rewrite Hsx, Hsy. cbn [fst].
  assert (Hez : -149 <= ez) by (unfold ez; lia).
  pose proof (ev_finite sx mx ex ez mx' ltac:(unfold ez; lia) Hmx') as Ex.
  pose proof (ev_finite sy my ey ez my' ltac:(unfold ez; lia) Hmy') as Ey.
  fold x in Ex, Bx, Hx. fold y in Ey, By, Hy.
  assert (HU : 0 < 2 ^ (ez + 149)) by (apply pow2_pos; lia).
  set (U := 2 ^ (ez + 149)) in *.
  set (N := cond_Zopp sx (Zpos mx') + cond_Zopp sy (Zpos my')).
  assert (HN : ev x + ev y = N * U) by (unfold N; rewrite Ex, Ey; ring).
  destruct (ev_sign x) as [Sxt Sxf]. cbn [sign x] in Sxt, Sxf.
  fold x. fold y. clearbody N. destruct N as [|p|p]; cbn [binary_normalize].
  - split; [reflexivity|]. change (ev (S754_zero false)) with 0. lia.
  - destruct (round_faithful false p ez Hez) as [Hnan [_ [Hs Hfaith]]].
    cbv zeta in Hnan, Hs, Hfaith.
    set (r := binary_round prec emax false p ez) in *.
    destruct (ev_sign r) as [_ Er]. specialize (Er Hs).
    destruct (Hfaith x Hx eq_refl) as [Ha Hb].
    pose proof (mag_nonneg r) as Hr0.
    split; [exact Hnan|]. rewrite Er. split.
    + intros Hy0. destruct sx.
      * rewrite (Sxt eq_refl). lia.
      * rewrite (Sxf eq_refl) in *. apply Ha. lia.
    + intros Hy0. destruct sx.
      * rewrite (Sxt eq_refl) in *. lia.
      * rewrite (Sxf eq_refl) in *. apply Hb. lia.
  - destruct (round_faithful true p ez Hez) as [Hnan [_ [Hs Hfaith]]].
    cbv zeta in Hnan, Hs, Hfaith.
    set (r := binary_round prec emax true p ez) in *.
    destruct (ev_sign r) as [Er _]. specialize (Er Hs).
    destruct (Hfaith x Hx eq_refl) as [Ha Hb].
    pose proof (mag_nonneg r) as Hr0.
    assert (HN' : - (ev x + ev y) = Zpos p * U) by (rewrite HN; lia).
    split; [exact Hnan|]. rewrite Er. split.
    + intros Hy0. destruct sx.
      * rewrite (Sxt eq_refl) in *. assert (mag r <= mag x) by (apply Hb; lia). lia.
      * rewrite (Sxf eq_refl) in *. lia.
    + intros Hy0. destruct sx.
      * rewrite (Sxt eq_refl) in *. assert (mag x <= mag r) by (apply Ha; lia). lia.
      * rewrite (Sxf eq_refl) in *. lia.
Qed.

(** A sum is not a number only when an operand is not, or when the operands
    are the two infinities. *)
Lemma SFadd_not_nan (x y : float) :
  isFloat x = true -> isFloat y = true ->
  isNaN x = false -> isNaN y = false ->
  isFinite x = true \/ isFinite y = true ->
  isNaN (SFadd prec emax x y) = false.
Proof.
  intros Hx Hy Nx Ny Hfin.
  destruct x as [sx|sx| |sx mx ex]; try discriminate Nx;
  destruct y as [sy|sy| |sy my ey]; try discriminate Ny;
    try reflexivity; try (destruct sx, sy; reflexivity).
  - destruct Hfin as [H|H]; discriminate H.
  - apply (SFadd_finite sx sy mx my ex ey Hx Hy).
Qed.

(** Adding a number that is not negative does not lower a number, adding
    one that is not positive does not raise it. *)
Lemma SFadd_mono (x y : float) :
  isFloat x = true -> isFloat y = true ->
  isNaN x = false -> isNaN y = false ->
  isNaN (SFadd prec emax x y) = false ->
  (0 <= ev y -> ev x <= ev (SFadd prec emax x y)) /\
  (ev y <= 0 -> ev (SFadd prec emax x y) <= ev x).
Proof.
  intros Hx Hy Nx Ny Nr.
  destruct x as [sx|sx| |sx mx ex]; try discriminate Nx;
  destruct y as [sy|sy| |sy my ey]; try discriminate Ny;
    try pose proof (mag_finite _ _ _ Hx) as Bx;
    try pose proof (mag_finite _ _ _ Hy) as By.
  all: try (destruct sx, sy; unfold ev in *;
            cbn [sign mag SFadd cond_Zopp isNaN] in *;
            try discriminate Nr; lia).
  apply (SFadd_finite sx sy mx my ex ey Hx Hy).
Qed.

End FloatArithmetic.

(** ** The float Number Box *)

Section NumberBoxFloatBounds.
Import Float32.
Import NumberBoxFloat.

Lemma ev_finite_bound (x : float) :
  isFloat x = true -> isFinite x = true -> - 2 ^ 277 < ev x < 2 ^ 277.
Proof.
  intros Hx Hf. destruct x as [s|s| |s m e]; try discriminate Hf.
  - unfold ev. cbn [sign mag]. destruct s; cbn [cond_Zopp]; lia.
  - pose proof (mag_finite s m e Hx) as H. unfold ev. cbn [sign].
    destruct s; cbn [cond_Zopp]; lia.
Qed.

Lemma ev_bounded_finite (x : float) :
  isNaN x = false -> - 2 ^ 277 < ev x < 2 ^ 277 -> isFinite x = true.
Proof.
  intros Hn H. destruct x as [s|s| |s m e]; try reflexivity; try discriminate Hn.
  unfold ev in H. cbn [sign mag] in H. destruct s; cbn [cond_Zopp] in H; lia.
Qed.

Lemma SFeqb_refl (x : float) :
  isFloat x = true -> isNaN x = false -> SFeqb x x = true.
Proof.
  intros Hx Hn. unfold SFeqb. rewrite (SFcompare_spec x x Hx Hx Hn Hn).
  rewrite Z.compare_refl. reflexivity.
Qed.

Lemma wellFormed_fields (nb : NUMBER_BOX_FLOAT) :
  wellFormed nb = true ->
  isFloat (value nb) = true /\ isFloat (minimumValue nb) = true /\
  isFloat (maximumValue nb) = true /\ isFloat (stepAmount nb) = true.
Proof.
  unfold wellFormed. rewrite !andb_true_iff. tauto.
Qed.

(** What [inRange] says of the values of the three floats. *)
Lemma inRange_ev (nb : NUMBER_BOX_FLOAT) :
  wellFormed nb = true -> inRange nb = true ->
  isNaN (value nb) = false /\ isNaN (minimumValue nb) = false /\
  isNaN (maximumValue nb) = false /\
  ev (minimumValue nb) <= ev (value nb) <= ev (maximumValue nb).
Proof.
  intros Hwf Hr. destruct (wellFormed_fields nb Hwf) as [Hv [Hmin [Hmax _]]].
  unfold inRange, fleb in Hr. apply andb_true_iff in Hr. destruct Hr as [H1 H2].
  destruct (SFleb_not_nan _ _ H1) as [Nmin Nv].
  destruct (SFleb_not_nan _ _ H2) as [_ Nmax].
  apply (SFleb_spec _ _ Hmin Hv Nmin Nv) in H1.
  apply (SFleb_spec _ _ Hv Hmax Nv Nmax) in H2.
  repeat split; assumption.
Qed.

Lemma inRange_setValue (nb : NUMBER_BOX_FLOAT) (v : float) :
  wellFormed nb = true -> inRange nb = true ->
  isFloat v = true -> isNaN v = false ->
  ev (minimumValue nb) <= ev v <= ev (maximumValue nb) ->
  wellFormed (setValue nb v) = true /\ inRange (setValue nb v) = true.
Proof.
  intros Hwf Hr Hv Nv Hev.
  destruct (wellFormed_fields nb Hwf) as [_ [Hmin [Hmax Hstep]]].
  destruct (inRange_ev nb Hwf Hr) as [_ [Nmin [Nmax _]]].
  split.
  - unfold wellFormed, setValue. cbn. rewrite Hv, Hmin, Hmax, Hstep. reflexivity.
  - unfold inRange, setValue, fleb. cbn. apply andb_true_iff. split.
    + apply (SFleb_spec _ _ Hmin Hv Nmin Nv). lia.
    + apply (SFleb_spec _ _ Hv Hmax Nv Nmax). lia.
Qed.

(** [updateNumberBoxNumberFloat] keeps the value between the bounds when
    the sum it computes is a number, and stores the sum, or the bound the
    sum has passed. *)
Lemma update_float_spec (nb : NUMBER_BOX_FLOAT) (step : float) :
  wellFormed nb = true -> isFloat step = true -> inRange nb = true ->
  (isNaN step = false -> isNaN (fadd (value nb) step) = false) ->
  wellFormed (updated nb step) = true /\
  inRange (updated nb step) = true /\
  minimumValue (updated nb step) = minimumValue nb /\
  maximumValue (updated nb step) = maximumValue nb /\
  stepAmount (updated nb step) = stepAmount nb /\
  (fltb fzero step = true ->
   feqb (value (updated nb step))
     (if fltb (maximumValue nb) (fadd (value nb) step)
      then maximumValue nb else fadd (value nb) step) = true) /\
  (fltb step fzero = true ->
   feqb (value (updated nb step))
     (if fltb (fadd (value nb) step) (minimumValue nb)
      then minimumValue nb else fadd (value nb) step) = true).
Proof.
  intros Hwf Hstep Hr Hsum.
  destruct (wellFormed_fields nb Hwf) as [Hv [Hmin [Hmax _]]].
  destruct (inRange_ev nb Hwf Hr) as [Nv [Nmin [Nmax Hev]]].
  assert (Hz : isFloat fzero = true) by reflexivity.
  assert (Nz : isNaN fzero = false) by reflexivity.
  assert (Ez : ev fzero = 0) by reflexivity.
  unfold updated, updateNumberBoxNumberFloat, fltb, feqb in *.
  destruct (SFltb fzero step) eqn:Eup.
  - (* adding *)
    destruct (SFltb_not_nan _ _ Eup) as [_ Nstep].
    apply (SFltb_spec _ _ Hz Hstep Nz Nstep) in Eup.
    specialize (Hsum Nstep).
    assert (Hs : isFloat (fadd (value nb) step) = true)
      by (apply SFadd_valid; assumption).
    destruct (SFadd_mono (value nb) step Hv Hstep Nv Nstep Hsum) as [Hmono _].
    specialize (Hmono ltac:(lia)).
    assert (Hdown : SFltb step fzero = false).
    { destruct (SFltb step fzero) eqn:E; [|reflexivity].
      apply (SFltb_spec _ _ Hstep Hz Nstep Nz) in E. lia. }
    set (sum := fadd (value nb) step) in *.
    set (new := if SFltb (maximumValue nb) sum then maximumValue nb else sum).
    assert (Hnew : isFloat new = true /\ isNaN new = false /\
                   ev (value nb) <= ev new <= ev (maximumValue nb)).
    { unfold new. destruct (SFltb (maximumValue nb) sum) eqn:E.
      - repeat split; try assumption; lia.
      - repeat split; try assumption.
        destruct (Z_lt_le_dec (ev (maximumValue nb)) (ev sum)) as [H|H]; [|exact H].
        apply (SFltb_spec _ _ Hmax Hs Nmax Hsum) in H. congruence. }
    destruct Hnew as [Hn [Nn Hevn]].
    cbv zeta. fold sum. fold new.
    rewrite Hdown.
    destruct (SFeqb (value nb) new) eqn:Eeq; cbn [fst snd].
    + repeat split; try assumption; try reflexivity.
      * intros _. exact Eeq.
      * intros H. discriminate H.
    + destruct (inRange_setValue nb new Hwf Hr Hn Nn ltac:(lia)) as [W R].
      repeat split; try assumption; try reflexivity.
      * intros _. cbn. apply SFeqb_refl; assumption.
      * intros H. discriminate H.
  - destruct (SFltb step fzero) eqn:Edown.
    + (* subtracting *)
      destruct (SFltb_not_nan _ _ Edown) as [Nstep _].
      apply (SFltb_spec _ _ Hstep Hz Nstep Nz) in Edown.
      specialize (Hsum Nstep).
      assert (Hs : isFloat (fadd (value nb) step) = true)
        by (apply SFadd_valid; assumption).
      destruct (SFadd_mono (value nb) step Hv Hstep Nv Nstep Hsum) as [_ Hmono].
      specialize (Hmono ltac:(lia)).
      set (sum := fadd (value nb) step) in *.
      set (new := if SFltb sum (minimumValue nb) then minimumValue nb else sum).
      assert (Hnew : isFloat new = true /\ isNaN new = false /\
                     ev (minimumValue nb) <= ev new <= ev (value nb)).
      { unfold new. destruct (SFltb sum (minimumValue nb)) eqn:E.
        - repeat split; try assumption; lia.
        - repeat split; try assumption.
          destruct (Z_lt_le_dec (ev sum) (ev (minimumValue nb))) as [H|H]; [|exact H].
          apply (SFltb_spec _ _ Hs Hmin Hsum Nmin) in H. congruence. }
      destruct Hnew as [Hn [Nn Hevn]].
      cbv zeta. fold sum. fold new.
      destruct (SFeqb (value nb) new) eqn:Eeq; cbn [fst snd].
      * repeat split; try assumption; try reflexivity.
        -- intros H. discriminate H.
        -- intros _. exact Eeq.
      * destruct (inRange_setValue nb new Hwf Hr Hn Nn ltac:(lia)) as [W R].
        repeat split; try assumption; try reflexivity.
        -- intros H. discriminate H.
        -- intros _. cbn. apply SFeqb_refl; assumption.
    + cbn [fst snd]. repeat split; try assumption; try reflexivity;
        intros H; discriminate H.
Qed.


(** Between finite bounds the value is finite, and its sum with a step is a
    number. *)
Lemma finite_sum (nb : NUMBER_BOX_FLOAT) (step : float) :
  wellFormed nb = true -> finiteBounds nb = true -> inRange nb = true ->
  isFloat step = true -> isNaN step = false ->
  isNaN (fadd (value nb) step) = false.
Proof.
  intros Hwf Hfb Hr Hstep Nstep.
  destruct (wellFormed_fields nb Hwf) as [Hv [Hmin [Hmax _]]].
  destruct (inRange_ev nb Hwf Hr) as [Nv [_ [_ Hev]]].
  unfold finiteBounds in Hfb. apply andb_true_iff in Hfb.
  destruct Hfb as [Fmin Fmax].
  pose proof (ev_finite_bound _ Hmin Fmin).
  pose proof (ev_finite_bound _ Hmax Fmax).
  apply SFadd_not_nan; try assumption.
  left. apply ev_bounded_finite; [exact Nv|lia].
Qed.


End NumberBoxFloatBounds.







(** ** Selection Boxes *)

Import SelectionBox.

Lemma countSelectionBoxChoices_range (sb : SELECTION_BOX) :
  1 <= countSelectionBoxChoices sb <= 4.
Proof.
  unfold countSelectionBoxChoices.
  destruct (isEmpty (choice1Text sb)), (isEmpty (choice2Text sb)),
    (isEmpty (choice3Text sb)); lia.
Qed.

Lemma isEmpty_true (text : string) : isEmpty text = true <-> text = EmptyString.
Proof. destruct text; cbn; split; congruence. Qed.

(** The cells lie side by side, cell 0 leftmost. *)
Lemma cellX_linear (sb : SELECTION_BOX) (k : Z) :
  cellX sb k = cellX sb 0 + k * cellWidth sb.
Proof. unfold cellX. cbv zeta. lia. Qed.

(** A point lies in at most one cell. *)
Lemma inCell_unique (sb : SELECTION_BOX) (j k x y : Z) :
  inCell sb j x y -> inCell sb k x y -> j = k.
Proof.
  unfold inCell. rewrite (cellX_linear sb j), (cellX_linear sb k).
  intros [Hj _] [Hk _]. nia.
Qed.

(** An event that is not Pressed never changes the selection. *)
Lemma checkCells_not_pushed (ui : TouchUI) (sb : SELECTION_BOX) (r : nat) :
  touchEventType ui <> TOUCH_PUSHED_EVENT ->
  forall c, touchedFlag (checkCells ui sb c r) = false /\
            touchedBox (checkCells ui sb c r) = sb.
Proof.
  intros Hk. induction r as [|r IH]; intros c.
  - split; reflexivity.
  - cbn [checkCells]. cbv zeta.
    rewrite (rect_false ui TOUCH_PUSHED_EVENT)
      by (intros [Hwrong _]; contradiction).
    destruct (checkForTouchEventInRect ui TOUCH_RELEASED_EVENT _ _ _ _).
    + split; reflexivity.
    + apply IH.
Qed.

(** A Pressed event outside the cells left to test changes nothing. *)
Lemma checkCells_miss (ui : TouchUI) (sb : SELECTION_BOX) (r : nat) :
  touchEventType ui = TOUCH_PUSHED_EVENT ->
  forall c,
  (forall k, c <= k < c + Z.of_nat r ->
             ~ inCell sb k (touchEventX ui) (touchEventY ui)) ->
  checkCells ui sb c r = (false, sb, []).
Proof.
  intros Hk. induction r as [|r IH]; intros c Hout.
  - reflexivity.
  - cbn [checkCells]. cbv zeta.
    rewrite (rect_false ui TOUCH_PUSHED_EVENT)
      by (intros [_ Hin]; apply (Hout c); [lia | exact Hin]).
    rewrite (rect_false ui TOUCH_RELEASED_EVENT)
      by (intros [Hwrong _]; congruence).
    apply IH. intros k Hr. apply Hout. lia.
Qed.

(** A Pressed event inside one of the cells left to test selects it. *)
Lemma checkCells_hit (ui : TouchUI) (sb : SELECTION_BOX) (k : Z) (r : nat) :
  touchEventType ui = TOUCH_PUSHED_EVENT ->
  inCell sb k (touchEventX ui) (touchEventY ui) ->
  forall c, c <= k < c + Z.of_nat r ->
  checkCells ui sb c r =
  (negb (value sb =? k), setValue sb k, drawCells (setValue sb k) true).
Proof.
  intros Hk Hin. induction r as [|r IH]; intros c Hr.
  - lia.
  - cbn [checkCells]. cbv zeta.
    destruct (Z.eq_dec c k) as [->|Hne].
    + rewrite (rect_true ui TOUCH_PUSHED_EVENT) by assumption. reflexivity.
    + rewrite (rect_false ui TOUCH_PUSHED_EVENT)
        by (intros [_ Hin']; apply Hne;
            exact (inCell_unique sb c k _ _ Hin' Hin)).
      rewrite (rect_false ui TOUCH_RELEASED_EVENT)
        by (intros [Hwrong _]; congruence).
      apply IH. lia.
Qed.

(** A Pressed event changes nothing or lies in one of the cells left to
    test. *)
Lemma checkCells_cases (ui : TouchUI) (sb : SELECTION_BOX) (r : nat) :
  touchEventType ui = TOUCH_PUSHED_EVENT ->
  forall c,
  checkCells ui sb c r = (false, sb, []) \/
  exists k, c <= k < c + Z.of_nat r /\
            inCell sb k (touchEventX ui) (touchEventY ui).
Proof.
  intros Hk. induction r as [|r IH]; intros c.
  - left. reflexivity.
  - cbn [checkCells]. cbv zeta.
    destruct (checkForTouchEventInRect ui TOUCH_PUSHED_EVENT _ _ _ _) eqn:EP.
    + right. exists c. split; [lia|].
      apply checkForTouchEventInRect_true in EP. apply EP.
    + rewrite (rect_false ui TOUCH_RELEASED_EVENT)
        by (intros [Hwrong _]; congruence).
      destruct (IH (c + 1)) as [Hmiss|[k [Hr Hin]]].
      * left. exact Hmiss.
      * right. exists k. split; [lia | exact Hin].
Qed.

(** C8.  [checkForSelectionBoxTouched] returns true exactly when the user
    pressed a cell other than the selected one; pressing cell [k] selects
    it, [k] being one of 0 to 3 counted from the left; the number of cells,
    1 to 4, is given by the first empty text among the choices 1 to 3. *)
Theorem selection_box_touched (ui : TouchUI) (sb : SELECTION_BOX) :
  (touchedFlag (checkForSelectionBoxTouched ui sb) = true <->
   exists k, pressedCell ui sb k /\ k <> value sb) /\
  (forall k, pressedCell ui sb k ->
     value (touchedBox (checkForSelectionBoxTouched ui sb)) = k /\
     0 <= k <= 3 /\
     cellX sb k = cellX sb 0 + k * cellWidth sb /\
     (k = value sb ->
      touchedFlag (checkForSelectionBoxTouched ui sb) = false)) /\
  1 <= countSelectionBoxChoices sb <= 4 /\
  (choice1Text sb = EmptyString -> countSelectionBoxChoices sb = 1) /\
  (choice1Text sb <> EmptyString -> choice2Text sb = EmptyString ->
   countSelectionBoxChoices sb = 2) /\
  (choice1Text sb <> EmptyString -> choice2Text sb <> EmptyString ->
   choice3Text sb = EmptyString -> countSelectionBoxChoices sb = 3) /\
  (choice1Text sb <> EmptyString -> choice2Text sb <> EmptyString ->
   choice3Text sb <> EmptyString -> countSelectionBoxChoices sb = 4).
Proof.
  pose proof (countSelectionBoxChoices_range sb) as Hcount.
  assert (Hhit : forall k, pressedCell ui sb k ->
            checkForSelectionBoxTouched ui sb =
            (negb (value sb =? k), setValue sb k,
             drawCells (setValue sb k) true)).
  { intros k [Hk [Hr Hin]]. unfold checkForSelectionBoxTouched.
    rewrite Hk. cbn [eventType_eqb]. cbv zeta.
    apply checkCells_hit; try assumption. lia. }
  split; [|split; [|split; [exact Hcount|]]].
  - split.
    + intros Htrue.
      destruct (eventType_eqb (touchEventType ui) TOUCH_PUSHED_EVENT) eqn:Hk.
      * assert (Hk' : touchEventType ui = TOUCH_PUSHED_EVENT)
          by (destruct (touchEventType ui); try discriminate Hk; reflexivity).
        pose proof Htrue as Hflag.
        unfold checkForSelectionBoxTouched in Htrue.
        rewrite Hk' in Htrue. cbn [eventType_eqb] in Htrue. cbv zeta in Htrue.
        assert (Hex : exists k, 0 <= k < countSelectionBoxChoices sb /\
                        inCell sb k (touchEventX ui) (touchEventY ui)).
        { destruct (checkCells_cases ui sb
                      (Z.to_nat (countSelectionBoxChoices sb)) Hk' 0)
            as [Hmiss|[k [Hr Hin]]].
          - rewrite Hmiss in Htrue. discriminate Htrue.
          - exists k. split; [lia | exact Hin]. }
        destruct Hex as [k [Hr Hin]].
        assert (Hp : pressedCell ui sb k)
          by (split; [exact Hk' | split; [lia | exact Hin]]).
        exists k. split; [exact Hp|].
        rewrite (Hhit k Hp) in Hflag. cbn in Hflag.
        intros ->. rewrite Z.eqb_refl in Hflag. discriminate Hflag.
      * exfalso.
        unfold checkForSelectionBoxTouched in Htrue.
        destruct (eventType_eqb (touchEventType ui) TOUCH_NO_EVENT);
          [discriminate Htrue|].
        cbv zeta in Htrue.
        rewrite (proj1 (checkCells_not_pushed ui sb _
                   ltac:(intros Hf; rewrite Hf in Hk; discriminate Hk) 0))
          in Htrue.
        discriminate Htrue.
    + intros [k [Hp Hne]]. rewrite (Hhit k Hp). cbn.
      destruct (Z.eqb_spec (value sb) k); [congruence | reflexivity].
  - intros k Hp. rewrite (Hhit k Hp). cbn.
    destruct Hp as [_ [Hr _]].
    split; [reflexivity|]. split; [lia|]. split; [apply cellX_linear|].
    intros ->. rewrite Z.eqb_refl. reflexivity.
  - unfold countSelectionBoxChoices.
    destruct (isEmpty (choice1Text sb)) eqn:E1,
      (isEmpty (choice2Text sb)) eqn:E2, (isEmpty (choice3Text sb)) eqn:E3;
      rewrite ?isEmpty_true in *;
      repeat split; intros; try reflexivity; try contradiction;
      match goal with
      | H : ?t = EmptyString, E : isEmpty ?t = false |- _ =>
          rewrite H in E; discriminate E
      end.
Qed.

Lemma selection_box_touched_witness :
  touchedFlag (checkForSelectionBoxTouched
                 (eventAt TOUCH_PUSHED_EVENT 250 110) powerSelectionBox) = true /\
  value (touchedBox (checkForSelectionBoxTouched
                       (eventAt TOUCH_PUSHED_EVENT 250 110) powerSelectionBox)) = 2 /\
  touchedFlag (checkForSelectionBoxTouched
                 (eventAt TOUCH_PUSHED_EVENT 150 110) powerSelectionBox) = false /\
  countSelectionBoxChoices powerSelectionBox = 3.
Proof.
  assert (H2 : pressedCell (eventAt TOUCH_PUSHED_EVENT 250 110)
                 powerSelectionBox 2).
  { unfold pressedCell, inCell. cbn. repeat split; lia. }
  assert (H1 : pressedCell (eventAt TOUCH_PUSHED_EVENT 150 110)
                 powerSelectionBox 1).
  { unfold pressedCell, inCell. cbn. repeat split; lia. }
  destruct (selection_box_touched (eventAt TOUCH_PUSHED_EVENT 250 110)
              powerSelectionBox) as [Hiff [Hsel [_ [_ [_ [Hthree _]]]]]].
  destruct (selection_box_touched (eventAt TOUCH_PUSHED_EVENT 150 110)
              powerSelectionBox) as [_ [Hsame _]].
  split; [apply Hiff; exists 2; split; [exact H2 | cbn; lia]|].
  split; [apply (Hsel 2 H2)|].
  split; [apply (Hsame 1 H1); reflexivity|].
  apply Hthree; cbn; congruence.
Defined.

(** ** The layout of a menu *)

Import Menu.

Section MenuLayout.

Variables (lw lh : Z) (header : MENU_ITEM) (items : list MENU_ITEM) (N : Z).

Local Abbreviation d := (setOrientation lw lh).
Local Abbreviation C := (columnsOfButtons header).
Local Abbreviation R := (rowsOfButtons N (columnsOfButtons header)).
Local Abbreviation table := (header :: items).

Hypothesis Hcount : countButtons items = Some N.
Hypothesis HN : 1 <= N.
Hypothesis Hwide : 20 + 10 * (C - 1) <= displaySpaceWidth d.
Hypothesis Hhigh : 20 + 10 * (R - 1) <= displaySpaceHeight d.

Lemma columns_range : 1 <= C <= 4.
Proof.
  unfold columnsOfButtons. cbv zeta. rewrite Z.gtb_ltb.
  destruct (Z.ltb_spec (MenuItemFunction header) 1),
    (Z.ltb_spec 4 (MenuItemFunction header)); cbn; lia.
Qed.

Ltac split_columns :=
  let E := fresh "E" in
  pose proof columns_range;
  assert (C = 1 \/ C = 2 \/ C = 3 \/ C = 4) as [E|[E|[E|E]]] by lia;
  rewrite E in *.

(** The number of rows is the number of buttons over the number of
    columns, rounded up. *)
Lemma rows_ceil : (R - 1) * C < N <= R * C.
Proof. unfold rowsOfButtons. split_columns; lia. Qed.

Lemma rows_positive : 1 <= R.
Proof. pose proof rows_ceil. pose proof columns_range. nia. Qed.

(** The rectangle of a button, in the names of the locals of the source. *)
Lemma getMenuButtonSizeAndLocation_eq (i : Z) :
  getMenuButtonSizeAndLocation d table i =
  Some (leftMostButtonX d C (buttonCountOnRow N C R ((i - 1) ÷ C))
          + (menuButtonWidth d C + 10) * ((i - 1) - (i - 1) ÷ C * C),
        displaySpaceTopY d + menuTopPadding d R
          + (menuButtonHeight d R + 10) * ((i - 1) ÷ C),
        menuButtonWidth d C, menuButtonHeight d R).
Proof.
  unfold getMenuButtonSizeAndLocation. rewrite Hcount. cbv zeta.
  pose proof rows_positive.
  destruct (Z.eqb_spec R 0); [lia | reflexivity].
Qed.

Lemma buttonRect_eq (i : Z) :
  buttonRect d table i =
  (leftMostButtonX d C (buttonCountOnRow N C R ((i - 1) ÷ C))
     + (menuButtonWidth d C + 10) * ((i - 1) - (i - 1) ÷ C * C),
   displaySpaceTopY d + menuTopPadding d R
     + (menuButtonHeight d R + 10) * ((i - 1) ÷ C),
   menuButtonWidth d C, menuButtonHeight d R).
Proof. unfold buttonRect. rewrite getMenuButtonSizeAndLocation_eq. reflexivity. Qed.

(** All the buttons have the same size. *)
Lemma button_sizes_equal (i : Z) :
  buttonWidth d table i = menuButtonWidth d C /\
  buttonHeight d table i = menuButtonHeight d R.
Proof. unfold buttonWidth, buttonHeight. rewrite buttonRect_eq. split; reflexivity. Qed.

Lemma button_sizes_nonneg :
  0 <= menuButtonWidth d C /\ 0 <= menuButtonHeight d R.
Proof.
  pose proof rows_positive. pose proof columns_range.
  unfold menuButtonWidth, menuButtonHeight. split.
  - apply Z.quot_pos; lia.
  - apply Z.quot_pos; lia.
Qed.

(** The row of the last button is the last row. *)
Lemma last_button_row : (N - 1) ÷ C = R - 1.
Proof. unfold rowsOfButtons. split_columns; lia. Qed.

(** Top and bottom: the padding above the first row and below the last row
    is 10 pixels plus half of what the division of the height leaves. *)
Lemma vertical_padding :
  10 <= topPadding d (buttonY d table 1) /\
  topPadding d (buttonY d table 1)
    <= bottomPadding d (buttonY d table N) (buttonHeight d table N)
    <= topPadding d (buttonY d table 1) + 1.
Proof.
  pose proof rows_positive as HR1.
  unfold buttonY, buttonHeight. rewrite !buttonRect_eq. cbn [fst snd].
  unfold topPadding, bottomPadding, menuTopPadding, menuButtonHeight in *.
  assert (Hrow1 : (1 - 1) ÷ C = 0) by reflexivity.
  rewrite Hrow1, last_button_row.
  cbn [setOrientation displaySpaceTopY displaySpaceBottomY
       displaySpaceHeight displaySpaceWidth] in *.
  revert Hhigh HR1. clear. generalize R.
  generalize (lh - titleBarHeight - 1). intros H R0 Hhigh HR1. nia.
Qed.

(** Neighbours in a row: 10 pixels between them, at the same height. *)
Lemma horizontal_gap (i : Z) :
  1 <= i -> (i - 1) ÷ C = i ÷ C ->
  buttonX d table (i + 1) = buttonX d table i + buttonWidth d table i + 10 /\
  buttonY d table (i + 1) = buttonY d table i.
Proof.
  intros Hi Hrow. unfold buttonX, buttonY, buttonWidth.
  rewrite !buttonRect_eq. cbn [fst snd].
  replace (i + 1 - 1) with i by lia. rewrite <- Hrow. split; [|reflexivity].
  lia.
Qed.

(** Neighbours in a column: 10 pixels between them. *)
Lemma vertical_gap (i : Z) :
  1 <= i ->
  buttonY d table (i + C) = buttonY d table i + buttonHeight d table i + 10.
Proof.
  intros Hi. unfold buttonY, buttonHeight.
  rewrite !buttonRect_eq. cbn [fst snd].
  assert (Hrow : (i + C - 1) ÷ C = (i - 1) ÷ C + 1) by (split_columns; lia).
  rewrite Hrow. lia.
Qed.

(** The rows that are full start at the same place. *)
Lemma full_rows_aligned (i : Z) :
  1 <= i ->
  buttonCountOnRow N C R ((i - 1) ÷ C) = C ->
  buttonCountOnRow N C R ((i + C - 1) ÷ C) = C ->
  buttonX d table (i + C) = buttonX d table i.
Proof.
  intros Hi Hfull Hfull'. unfold buttonX.
  rewrite !buttonRect_eq. cbn [fst snd]. rewrite Hfull, Hfull'.
  assert (Hrow : (i + C - 1) ÷ C = (i - 1) ÷ C + 1) by (split_columns; lia).
  rewrite Hrow. lia.
Qed.

(** The number of buttons on a row: the number of columns, except on a
    last row that is not full. *)
Lemma buttonCountOnRow_eq (r : Z) :
  0 <= r < R ->
  buttonCountOnRow N C R r = Z.min (r * C + C) N - r * C.
Proof.
  intros Hr. pose proof rows_ceil as Hceil.
  unfold buttonCountOnRow, rowsOfButtons in *.
  destruct (Z.eqb_spec r ((N + C - 1) ÷ C - 1)) as [Hlast|Hnot];
    destruct (Z.eqb_spec (Z.rem N C) 0) as [Hrem|Hrem];
    cbn [negb orb]; split_columns; lia.
Qed.

(** Left and right: on every row, the padding left of its first button and
    right of its last button is at least 10 pixels, and the same on both
    sides up to one pixel; a last row that is not full is centered. *)
Lemma horizontal_padding (r : Z) :
  0 <= r < R ->
  10 <= leftPadding d (buttonX d table (r * C + 1)) /\
  leftPadding d (buttonX d table (r * C + 1))
    <= rightPadding d (buttonX d table (Z.min (r * C + C) N))
                      (buttonWidth d table (Z.min (r * C + C) N))
    <= leftPadding d (buttonX d table (r * C + 1)) + 1.
Proof.
  intros Hr. pose proof rows_ceil as Hceil.
  pose proof (buttonCountOnRow_eq r Hr) as Hk.
  unfold buttonX, buttonWidth. rewrite !buttonRect_eq. cbn [fst snd].
  assert (Hfirst : (r * C + 1 - 1) ÷ C = r) by (split_columns; lia).
  assert (Hlast : (Z.min (r * C + C) N - 1) ÷ C = r) by (split_columns; lia).
  rewrite Hfirst, Hlast, Hk.
  unfold leftPadding, rightPadding, leftMostButtonX, menuButtonWidth in *.
  cbn [setOrientation displaySpaceLeftX displaySpaceRightX
       displaySpaceWidth] in *.
  assert (Hn : 1 <= Z.min (r * C + C) N - r * C <= C) by (split_columns; lia).
  revert Hwide Hn. generalize (Z.min (r * C + C) N). intros last.
  generalize (lw - 2). intros W Hwide Hn.
  split_columns; nia.
Qed.

End MenuLayout.

(** C4, as the specification states it, fails: the padding between the
    buttons and the edges of the display space is not always 10 pixels.
    On the 320 x 240 display, three buttons in three columns leave 11
    pixels on the left and on the right, and two buttons in one column
    leave 10 pixels above and 11 below. *)
Lemma menu_edge_padding_not_ten :
  getMenuButtonSizeAndLocation landscape threeColumnMenu 1
    = Some (12, 44, 92, 185) /\
  getMenuButtonSizeAndLocation landscape threeColumnMenu 3
    = Some (216, 44, 92, 185) /\
  leftPadding landscape 12 = 11 /\
  rightPadding landscape 216 92 = 11 /\
  getMenuButtonSizeAndLocation landscape twoRowMenu 1
    = Some (11, 44, 298, 87) /\
  getMenuButtonSizeAndLocation landscape twoRowMenu 2
    = Some (11, 141, 298, 87) /\
  topPadding landscape 44 = 10 /\
  bottomPadding landscape 141 87 = 11.
Proof. repeat split; reflexivity. Qed.

(** C4 (amended).  For a menu of [N >= 1] buttons in [C] columns (1 to 4)
    on a display space wide and high enough for the gaps, the number of
    rows is [N / C] rounded up; all the buttons have the same width and
    height; neighbours in a row are 10 pixels apart and at the same
    height, neighbours in a column are 10 pixels apart, full rows start at
    the same place; the buttons, the gaps and the padding at the edges
    fill the display space, the padding at the edges being at least 10
    pixels (10 plus half of the remainder of the division that sizes the
    buttons) and equal on opposite sides up to one pixel; so a last row
    with fewer than [C] buttons is centered. *)
Theorem menu_layout (lw lh : Z) (header : MENU_ITEM) (items : list MENU_ITEM)
    (N : Z) :
  let d := setOrientation lw lh in
  let C := columnsOfButtons header in
  let R := rowsOfButtons N C in
  let table := header :: items in
  countButtons items = Some N ->
  1 <= N ->
  20 + 10 * (C - 1) <= displaySpaceWidth d ->
  20 + 10 * (R - 1) <= displaySpaceHeight d ->
  1 <= C <= 4 /\
  (R - 1) * C < N <= R * C /\
  (forall i, getMenuButtonSizeAndLocation d table i
               = Some (buttonRect d table i) /\
             buttonWidth d table i = menuButtonWidth d C /\
             buttonHeight d table i = menuButtonHeight d R) /\
  0 <= menuButtonWidth d C /\
  0 <= menuButtonHeight d R /\
  (forall i, 1 <= i -> (i - 1) ÷ C = i ÷ C ->
     buttonX d table (i + 1)
       = buttonX d table i + buttonWidth d table i + 10 /\
     buttonY d table (i + 1) = buttonY d table i) /\
  (forall i, 1 <= i ->
     buttonY d table (i + C)
       = buttonY d table i + buttonHeight d table i + 10) /\
  (forall i, 1 <= i ->
     buttonCountOnRow N C R ((i - 1) ÷ C) = C ->
     buttonCountOnRow N C R ((i + C - 1) ÷ C) = C ->
     buttonX d table (i + C) = buttonX d table i) /\
  (10 <= topPadding d (buttonY d table 1) /\
   topPadding d (buttonY d table 1)
     <= bottomPadding d (buttonY d table N) (buttonHeight d table N)
     <= topPadding d (buttonY d table 1) + 1) /\
  (forall r, 0 <= r < R ->
     buttonCountOnRow N C R r = Z.min (r * C + C) N - r * C /\
     10 <= leftPadding d (buttonX d table (r * C + 1)) /\
     leftPadding d (buttonX d table (r * C + 1))
       <= rightPadding d (buttonX d table (Z.min (r * C + C) N))
                         (buttonWidth d table (Z.min (r * C + C) N))
       <= leftPadding d (buttonX d table (r * C + 1)) + 1).
Proof.
  intros d C R table Hcount HN Hwide Hhigh.
  split; [apply columns_range|].
  split; [apply (rows_ceil lw lh header N); assumption|].
  split.
  { intros i. split.
    - unfold buttonRect.
      rewrite (getMenuButtonSizeAndLocation_eq lw lh header items N)
        by assumption.
      reflexivity.
    - apply (button_sizes_equal lw lh header items N); assumption. }
  split; [apply (button_sizes_nonneg lw lh header N); assumption|].
  split; [apply (button_sizes_nonneg lw lh header N); assumption|].
  split.
  { intros i Hi Hrow.
    apply (horizontal_gap lw lh header items N); assumption. }
  split.
  { intros i Hi. apply (vertical_gap lw lh header items N); assumption. }
  split.
  { intros i Hi Hfull Hfull'.
    apply (full_rows_aligned lw lh header items N); assumption. }
  split; [apply (vertical_padding lw lh header items N); assumption|].
  intros r Hr. split.
  - apply (buttonCountOnRow_eq lw lh header N); assumption.
  - apply (horizontal_padding lw lh header items N); assumption.
Qed.

Lemma menu_layout_witness :
  rowsOfButtons 6 2 = 3 /\
  map (getMenuButtonSizeAndLocation landscape mainMenu) [1; 2; 3; 4; 5; 6] =
    [Some (11, 44, 144, 55); Some (165, 44, 144, 55);
     Some (11, 109, 144, 55); Some (165, 109, 144, 55);
     Some (11, 174, 144, 55); Some (165, 174, 144, 55)] /\
  (forall i, buttonWidth landscape mainMenu i = 144 /\
             buttonHeight landscape mainMenu i = 55).
Proof.
  split; [reflexivity|]. split; [reflexivity|].
  destruct (menu_layout 320 240
              (mkMENU_ITEM MENU_ITEM_TYPE_MAIN_MENU_HEADER
                 "Example Three - Menus with Columns" MENU_COLUMNS_2
                 (Some 0%nat))
              (tl mainMenu) 6)
    as [_ [_ [Hsize _]]].
  - reflexivity.
  - lia.
  - cbn. lia.
  - cbn. lia.
  - intros i. destruct (Hsize i) as [_ Hwh]. exact Hwh.
Defined.

(** ** The menu engine *)

Section MenuEngine.

Variable App : Type.
Variable command : Z -> App -> App.
Variable toggle : Z -> bool -> App -> App * string.
Variable inMenuCallback : Z -> App -> App.
Variable tables : nat -> option (list MENU_ITEM).
Variable d : Display.
Variable backTextWidth : Z.

Local Abbreviation UI := (MenuUI App).
Local Abbreviation item0 := (currentItem App tables).
Local Abbreviation select := (selectAndDrawMenu App toggle tables).
Local Abbreviation pass :=
  (menuPass App command toggle inMenuCallback tables d backTextWidth).
Local Abbreviation loop :=
  (menuLoop App command toggle inMenuCallback tables d backTextWidth).
Local Abbreviation run_menu :=
  (displayAndExecuteMenu App command toggle inMenuCallback tables d
     backTextWidth).
Local Abbreviation keeps := (Menu.keeps App).

Lemma keeps_refl (s : UI) : keeps s s.
Proof.
  unfold Menu.keeps. repeat split. exists []. rewrite app_nil_r. reflexivity.
Qed.

Lemma keeps_trans (s1 s2 s3 : UI) : keeps s1 s2 -> keeps s2 s3 -> keeps s1 s3.
Proof.
  intros [Ht [Hb [m Hd]]] [Ht' [Hb' [m' Hd']]]. repeat split; try congruence.
  exists (m ++ m'). rewrite Hd', Hd, app_assoc. reflexivity.
Qed.

Lemma drawMenuItem_keeps (menuIdx : Z) (flg : bool) (s s' : UI) :
  drawMenuItem App toggle tables menuIdx flg s = Some s' -> keeps s s'.
Proof.
  unfold drawMenuItem. destruct (item0 s menuIdx) as [item|]; [|discriminate].
  destruct (MenuItemType item);
    try (intros H; injection H as <-; apply keeps_refl);
    try (intros H; injection H as <-; repeat split; eexists; reflexivity).
  cbn [app setToggleFlg].
  destruct (toggle (MenuItemFunction item) false (app App s)) as [a text].
  intros H; injection H as <-. repeat split. eexists. reflexivity.
Qed.

Lemma drawItems_keeps (items : list MENU_ITEM) :
  forall (menuIdx : Z) (s s' : UI),
  drawItems App toggle tables items menuIdx s = Some s' -> keeps s s'.
Proof.
  induction items as [|item items IH]; intros menuIdx s s'; cbn [drawItems].
  - discriminate.
  - destruct (itemType_eqb (MenuItemType item) MENU_ITEM_TYPE_END_OF_MENU).
    + intros H; injection H as <-. apply keeps_refl.
    + destruct (drawMenuItem App toggle tables menuIdx false s) as [s1|] eqn:E;
        [|discriminate].
      intros H. eapply keeps_trans.
      * exact (drawMenuItem_keeps _ _ _ _ E).
      * exact (IH _ _ _ H).
Qed.

(** [selectAndDrawMenu] makes the menu the current one, and draws its title
    bar with the button its header row asks for. *)
Lemma selectAndDrawMenu_spec (menu : option nat) (s s' : UI) :
  select menu true s = Some s' ->
  currentMenuTable App s' = menu /\
  exists header more,
    item0 s' 0 = Some header /\
    buttonTypeOnTitleBar App s' = titleBarButtonOf header /\
    drawn App s' =
      drawn App s
      ++ DrawTitleBar (MenuItemText header) (titleBarButtonOf header) :: more.
Proof.
  unfold selectAndDrawMenu. cbn [negb].
  set (s0 := mkMenuUI App menu (buttonTypeOnTitleBar App s)
               (toggleSelectNextStateFlg App s)
               (inMenuCallbackFunction App s) (app App s) (drawn App s)).
  destruct (item0 s0 0) as [header|] eqn:Eh; [|discriminate].
  match goal with
  | |- context [draw App ClearDisplaySpace ?x] =>
      assert (Hbar : x = drawTitleBar App (MenuItemText header)
                           (titleBarButtonOf header) s0)
        by (unfold titleBarButtonOf;
            destruct (itemType_eqb (MenuItemType header)
                        MENU_ITEM_TYPE_MAIN_MENU_HEADER
                      && match MenuItemSubMenu header with
                         | Some _ => true | None => false end);
            reflexivity);
      rewrite Hbar; clear Hbar
  end.
  set (s1 := drawTitleBar App (MenuItemText header)
               (titleBarButtonOf header) s0).
  assert (H1 : currentMenuTable App s1 = menu /\
               buttonTypeOnTitleBar App s1 = titleBarButtonOf header /\
               exists more, drawn App s1 =
                 drawn App s ++ DrawTitleBar (MenuItemText header)
                                  (titleBarButtonOf header) :: more).
  { subst s1. unfold drawTitleBar.
    destruct (titleBarButtonOf header =? TITLE_BAR_BUTTON_TYPE_BACK);
      destruct (titleBarButtonOf header =? TITLE_BAR_BUTTON_TYPE_MENU);
      cbn; repeat split; eexists;
      rewrite <- ?app_assoc; reflexivity. }
  destruct H1 as [Ht [Hb [more Hd]]].
  unfold drawMenu.
  destruct (currentTable App tables (draw App ClearDisplaySpace s1))
    as [[|hd items]|] eqn:Et; try discriminate.
  intros Hdraw. apply drawItems_keeps in Hdraw.
  destruct Hdraw as [Ht' [Hb' [more' Hd']]].
  cbn [draw currentMenuTable buttonTypeOnTitleBar drawn] in Ht', Hb', Hd'.
  split; [congruence|].
  exists header, (more ++ ClearDisplaySpace :: more').
  split; [|split].
  - unfold currentItem, currentTable in *. rewrite Ht', Ht.
    cbn [currentMenuTable] in Eh. exact Eh.
  - congruence.
  - rewrite Hd', Hd. rewrite <- !app_assoc. cbn [app]. reflexivity.
Qed.

Lemma drawMenuItem_some (menuIdx : Z) (flg : bool) (s : UI)
    (item : MENU_ITEM) :
  item0 s menuIdx = Some item ->
  exists s', drawMenuItem App toggle tables menuIdx flg s = Some s'.
Proof.
  intros H. unfold drawMenuItem. rewrite H.
  destruct (MenuItemType item); try (eexists; reflexivity).
  cbn [app setToggleFlg].
  destruct (toggle (MenuItemFunction item) false (app App s)) as [a text].
  eexists; reflexivity.
Qed.

(** The rows of a table that has its END_OF_MENU row are drawn to the
    end. *)
Lemma drawItems_some (items : list MENU_ITEM) :
  forall (before : list MENU_ITEM) (s : UI) (n : Z),
  currentTable App tables s = Some (before ++ items) ->
  countButtons items = Some n ->
  exists s',
    drawItems App toggle tables items (Z.of_nat (List.length before)) s
    = Some s'.
Proof.
  induction items as [|item items IH]; intros before s n Ht Hn;
    cbn [drawItems countButtons] in *.
  - discriminate.
  - destruct (itemType_eqb (MenuItemType item) MENU_ITEM_TYPE_END_OF_MENU).
    + eexists; reflexivity.
    + destruct (countButtons items) as [m|] eqn:Em; [|discriminate].
      assert (Hitem : item0 s (Z.of_nat (List.length before)) = Some item).
      { unfold currentItem. rewrite Ht.
        destruct (Z.ltb_spec (Z.of_nat (List.length before)) 0); [lia|].
        rewrite Nat2Z.id, nth_error_app2 by lia.
        rewrite Nat.sub_diag. reflexivity. }
      destruct (drawMenuItem_some _ false s item Hitem) as [s1 Hs1].
      rewrite Hs1.
      pose proof (drawMenuItem_keeps _ _ _ _ Hs1) as [Hk _].
      replace (Z.of_nat (List.length before) + 1)
        with (Z.of_nat (List.length (before ++ [item])))
        by (rewrite length_app; cbn [List.length]; lia).
      apply (IH (before ++ [item]) s1 m); [|reflexivity].
      unfold currentTable in *. rewrite Hk, <- app_assoc. exact Ht.
Qed.

(** [selectAndDrawMenu] is defined on every table that has a header row
    and an END_OF_MENU row. *)
Lemma selectAndDrawMenu_some (p : nat) (s : UI) (header : MENU_ITEM)
    (items : list MENU_ITEM) (n : Z) :
  tables p = Some (header :: items) ->
  countButtons items = Some n ->
  exists s', select (Some p) true s = Some s'.
Proof.
  intros Ht Hn. unfold selectAndDrawMenu. cbn [negb].
  set (s0 := mkMenuUI App (Some p) (buttonTypeOnTitleBar App s)
               (toggleSelectNextStateFlg App s)
               (inMenuCallbackFunction App s) (app App s) (drawn App s)).
  assert (H0 : item0 s0 0 = Some header).
  { unfold currentItem, currentTable. cbn [s0 currentMenuTable].
    rewrite Ht. reflexivity. }
  rewrite H0.
  match goal with
  | |- context [draw App ClearDisplaySpace ?x] => set (s1 := x)
  end.
  assert (H1 : currentMenuTable App s1 = Some p).
  { subst s1.
    destruct (itemType_eqb (MenuItemType header)
                MENU_ITEM_TYPE_MAIN_MENU_HEADER
              && match MenuItemSubMenu header with
                 | Some _ => true | None => false end);
      reflexivity. }
  unfold drawMenu, currentTable. cbn [draw currentMenuTable].
  rewrite H1, Ht.
  apply (drawItems_some items [header] _ n); [|exact Hn].
  unfold currentTable. cbn [draw currentMenuTable]. rewrite H1. exact Ht.
Qed.

Lemma checkForBackButtonClicked_keeps (ui : TouchUI) (s : UI) :
  keeps s (snd (checkForBackButtonClicked App backTextWidth ui s)).
Proof.
  unfold checkForBackButtonClicked.
  repeat match goal with
  | |- context [if ?b then _ else _] => destruct b
  end; cbn [snd]; try apply keeps_refl;
  unfold Menu.keeps; repeat split; eexists; reflexivity.
Qed.

(** A click on the Back button that the title bar shows. *)
Lemma checkForBackButtonClicked_clicked (ui : TouchUI) (s : UI) :
  buttonTypeOnTitleBar App s = TITLE_BAR_BUTTON_TYPE_BACK ->
  backClicked backTextWidth ui ->
  checkForBackButtonClicked App backTextWidth ui s =
  (true, draw App (DrawTitleBarBackButton false) s).
Proof.
  intros Hb [Hk Hin]. unfold checkForBackButtonClicked.
  rewrite Hb, Z.eqb_refl, Hk. cbn [eventType_eqb]. cbv zeta.
  rewrite (rect_false ui TOUCH_PUSHED_EVENT) by wrong_kind.
  rewrite (rect_true ui TOUCH_RELEASED_EVENT) by assumption.
  reflexivity.
Qed.

(** Without a Back button on the title bar there is no click on it. *)
Lemma checkForBackButtonClicked_none (ui : TouchUI) (s : UI) :
  buttonTypeOnTitleBar App s = TITLE_BAR_BUTTON_TYPE_NONE ->
  checkForBackButtonClicked App backTextWidth ui s = (false, s).
Proof.
  intros Hb. unfold checkForBackButtonClicked. rewrite Hb. reflexivity.
Qed.

Lemma checkMenuButtons_goes_on (ui : TouchUI) (s s' : UI) :
  checkMenuButtons App command toggle inMenuCallback tables d ui s
    <> Returns App s'.
Proof.
  unfold checkMenuButtons, goesOn.
  repeat match goal with
  | |- context [match ?x with _ => _ end] => destruct x
  end; discriminate.
Qed.

(** [drawMenuItem] on a row that is there. *)
Lemma drawMenuItem_drawn (menuIdx : Z) (s : UI) (item : MENU_ITEM) :
  item0 s menuIdx = Some item ->
  exists s',
    drawMenuItem App toggle tables menuIdx false s = Some s' /\
    currentMenuTable App s' = currentMenuTable App s /\
    buttonTypeOnTitleBar App s' = buttonTypeOnTitleBar App s /\
    inMenuCallbackFunction App s' = inMenuCallbackFunction App s /\
    forall rest,
      (drawn App s' ++ fst (menuButtons App toggle rest (menuIdx + 1) (app App s')),
       snd (menuButtons App toggle rest (menuIdx + 1) (app App s')))
      = (drawn App s ++ fst (menuButtons App toggle (item :: rest) menuIdx (app App s)),
         snd (menuButtons App toggle (item :: rest) menuIdx (app App s))) \/
      MenuItemType item = MENU_ITEM_TYPE_END_OF_MENU.
Proof.
  intros H. unfold drawMenuItem. rewrite H.
  destruct (MenuItemType item) eqn:Ety.
  - eexists. split; [reflexivity|]. repeat split.
    intros rest. left. cbn [menuButtons]. rewrite Ety. reflexivity.
  - eexists. split; [reflexivity|]. repeat split.
    intros rest. left. cbn [menuButtons]. rewrite Ety. reflexivity.
  - eexists. split; [reflexivity|]. repeat split.
    intros rest. left. cbn [menuButtons draw drawn app]. rewrite Ety.
    destruct (menuButtons App toggle rest (menuIdx + 1) (app App s))
      as [buttons a'].
    cbn [fst snd]. rewrite <- app_assoc. reflexivity.
  - eexists. split; [reflexivity|]. repeat split.
    intros rest. left. cbn [menuButtons draw drawn app]. rewrite Ety.
    destruct (menuButtons App toggle rest (menuIdx + 1) (app App s))
      as [buttons a'].
    cbn [fst snd]. rewrite <- app_assoc. reflexivity.
  - cbn [app setToggleFlg].
    destruct (toggle (MenuItemFunction item) false (app App s))
      as [a1 text] eqn:Et.
    eexists. split; [reflexivity|]. repeat split.
    intros rest. left. cbn [menuButtons draw drawn app setApp]. rewrite Ety, Et.
    destruct (menuButtons App toggle rest (menuIdx + 1) a1) as [buttons a'].
    cbn [fst snd]. rewrite <- app_assoc. reflexivity.
  - eexists. split; [reflexivity|]. repeat split.
    intros rest. right. reflexivity.
Qed.

(** [drawMenu] draws the buttons of [menuButtons]. *)
Lemma drawItems_drawn (items : list MENU_ITEM) :
  forall (before : list MENU_ITEM) (s : UI) (n : Z),
  currentTable App tables s = Some (before ++ items) ->
  countButtons items = Some n ->
  exists s',
    drawItems App toggle tables items (Z.of_nat (List.length before)) s
      = Some s' /\
    currentMenuTable App s' = currentMenuTable App s /\
    buttonTypeOnTitleBar App s' = buttonTypeOnTitleBar App s /\
    inMenuCallbackFunction App s' = inMenuCallbackFunction App s /\
    drawn App s' =
      drawn App s
      ++ fst (menuButtons App toggle items (Z.of_nat (List.length before))
                (app App s)) /\
    app App s' =
      snd (menuButtons App toggle items (Z.of_nat (List.length before))
             (app App s)).
Proof.
  induction items as [|item items IH]; intros before s n Ht Hn;
    cbn [drawItems countButtons] in *.
  - discriminate.
  - destruct (itemType_eqb (MenuItemType item) MENU_ITEM_TYPE_END_OF_MENU)
      eqn:Eend.
    + exists s. cbn [menuButtons].
      assert (Hty : MenuItemType item = MENU_ITEM_TYPE_END_OF_MENU)
        by (destruct (MenuItemType item); try discriminate Eend; reflexivity).
      rewrite Hty. cbn [fst snd]. rewrite app_nil_r. repeat split.
    + destruct (countButtons items) as [m|] eqn:Em; [|discriminate].
      assert (Hitem : item0 s (Z.of_nat (List.length before)) = Some item).
      { unfold currentItem. rewrite Ht.
        destruct (Z.ltb_spec (Z.of_nat (List.length before)) 0); [lia|].
        rewrite Nat2Z.id, nth_error_app2 by lia.
        rewrite Nat.sub_diag. reflexivity. }
      destruct (drawMenuItem_drawn _ s item Hitem)
        as [s1 [Hs1 [Hk [Hb [Hcb Hd]]]]].
      rewrite Hs1.
      assert (Hlen : Z.of_nat (List.length before) + 1
                     = Z.of_nat (List.length (before ++ [item])))
        by (rewrite length_app; cbn [List.length]; lia).
      destruct (IH (before ++ [item]) s1 m) as [s' [Hs' [Hk' [Hb' [Hcb' [Hd' Ha']]]]]].
      { unfold currentTable in *. rewrite Hk, <- app_assoc. exact Ht. }
      { reflexivity. }
      rewrite Hlen. exists s'. split; [exact Hs'|].
      split; [congruence|]. split; [congruence|]. split; [congruence|].
      rewrite <- Hlen in Hd', Ha'.
      destruct (Hd items) as [Heq|Hend];
        [|rewrite Hend in Eend; discriminate Eend].
      injection Heq as Heq1 Heq2.
      rewrite Hd', Ha'. split; [exact Heq1 | exact Heq2].
Qed.

(** [selectAndDrawMenu] on a table with a header row and an END_OF_MENU
    row: the table is the current one, the title bar shows the button the
    header asks for, and the screen of the menu is drawn. *)
Lemma selectAndDrawMenu_screen (p : nat) (s : UI) (header : MENU_ITEM)
    (items : list MENU_ITEM) (n : Z) :
  tables p = Some (header :: items) ->
  countButtons items = Some n ->
  exists s',
    select (Some p) true s = Some s' /\
    currentMenuTable App s' = Some p /\
    buttonTypeOnTitleBar App s' = titleBarButtonOf header /\
    inMenuCallbackFunction App s' = inMenuCallbackFunction App s /\
    drawn App s' =
      drawn App s ++ menuScreen App toggle (header :: items) (app App s) /\
    app App s' = snd (menuButtons App toggle items 1 (app App s)).
Proof.
  intros Ht Hn. unfold selectAndDrawMenu. cbn [negb].
  set (s0 := mkMenuUI App (Some p) (buttonTypeOnTitleBar App s)
               (toggleSelectNextStateFlg App s)
               (inMenuCallbackFunction App s) (app App s) (drawn App s)).
  assert (H0 : item0 s0 0 = Some header).
  { unfold currentItem, currentTable. cbn [s0 currentMenuTable].
    rewrite Ht. reflexivity. }
  rewrite H0.
  match goal with
  | |- context [draw App ClearDisplaySpace ?x] => set (s1 := x)
  end.
  assert (H1 : currentMenuTable App s1 = Some p /\
               buttonTypeOnTitleBar App s1 = titleBarButtonOf header /\
               inMenuCallbackFunction App s1 = inMenuCallbackFunction App s /\
               app App s1 = app App s /\
               drawn App s1 =
                 drawn App s
                 ++ DrawTitleBar (MenuItemText header) (titleBarButtonOf header)
                    :: (if titleBarButtonOf header =? TITLE_BAR_BUTTON_TYPE_BACK
                        then [DrawTitleBarBackButton false] else [])).
  { subst s1. unfold titleBarButtonOf.
    destruct (itemType_eqb (MenuItemType header)
                MENU_ITEM_TYPE_MAIN_MENU_HEADER
              && match MenuItemSubMenu header with
                 | Some _ => true | None => false end);
      cbn; repeat split; rewrite <- ?app_assoc; reflexivity. }
  destruct H1 as [Hp [Hb [Hcb [Ha Hd]]]].
  unfold drawMenu, currentTable. cbn [draw currentMenuTable].
  rewrite Hp, Ht.
  destruct (drawItems_drawn items [header] (draw App ClearDisplaySpace s1) n)
    as [s' [Hs' [Hk' [Hb' [Hcb' [Hd' Ha']]]]]].
  { unfold currentTable. cbn [draw currentMenuTable]. rewrite Hp. exact Ht. }
  { exact Hn. }
  change (Z.of_nat (List.length [header])) with 1 in Hs', Hd', Ha'.
  exists s'. split; [exact Hs'|].
  cbn [draw currentMenuTable buttonTypeOnTitleBar inMenuCallbackFunction
       drawn app] in Hk', Hb', Hcb', Hd', Ha'.
  split; [congruence|]. split; [congruence|]. split; [congruence|].
  rewrite Ha in Hd', Ha'.
  split; [|exact Ha'].
  rewrite Hd', Hd. unfold menuScreen.
  rewrite <- !app_assoc. cbn [List.app]. reflexivity.
Qed.

(** The loop goes on with what one pass leaves. *)
Lemma menuLoop_goes_on (ui : TouchUI) (rest : list TouchUI) (s s' : UI) :
  pass ui s = GoesOn App s' -> loop (ui :: rest) s = loop rest s'.
Proof. intros H. cbn [menuLoop]. rewrite H. reflexivity. Qed.

Lemma menuLoop_returns (ui : TouchUI) (rest : list TouchUI) (s s' : UI) :
  pass ui s = Returns App s' -> loop (ui :: rest) s = Returns App s'.
Proof. intros H. cbn [menuLoop]. rewrite H. reflexivity. Qed.

(** Polls without event only run the in-menu callback. *)
Lemma menuLoop_idle (idle : list TouchUI) :
  forall (rest : list TouchUI) (s : UI),
  Forall isQuiet idle ->
  exists s',
    loop (idle ++ rest) s = loop rest s' /\
    currentMenuTable App s' = currentMenuTable App s /\
    buttonTypeOnTitleBar App s' = buttonTypeOnTitleBar App s /\
    drawn App s' = drawn App s.
Proof.
  induction idle as [|ui idle IH]; intros rest s Hq.
  - exists s. repeat split.
  - inversion Hq as [|? ? Hui Hrest]; subst.
    destruct (IH rest (callInMenuCallback App inMenuCallback s) Hrest)
      as [s' [Hl [Ht [Hb Hd]]]].
    exists s'. split.
    + cbn [List.app]. rewrite <- Hl. apply menuLoop_goes_on.
      unfold menuPass. unfold isQuiet in Hui. rewrite Hui. reflexivity.
    + unfold callInMenuCallback in Ht, Hb, Hd.
      destruct (inMenuCallbackFunction App s =? 0); repeat split; assumption.
Qed.

(** A pass returns only under a main menu header whose fourth field is
    NULL. *)
Lemma menuPass_returns (ui : TouchUI) (s s' : UI) :
  pass ui s = Returns App s' ->
  exists header,
    item0 s 0 = Some header /\
    MenuItemType header = MENU_ITEM_TYPE_MAIN_MENU_HEADER /\
    MenuItemSubMenu header = None.
Proof.
  unfold menuPass.
  destruct (negb (eventType_eqb (touchEventType ui) TOUCH_NO_EVENT));
    [|discriminate].
  pose proof (checkForBackButtonClicked_keeps ui s) as [Ht _].
  destruct (checkForBackButtonClicked App backTextWidth ui s) as [clicked s1].
  cbn [snd] in Ht.
  destruct clicked;
    [|intros H; exfalso;
      exact (checkMenuButtons_goes_on ui s1 s' H)].
  assert (Hsame : item0 s1 0 = item0 s 0)
    by (unfold currentItem, currentTable; rewrite Ht; reflexivity).
  rewrite Hsame.
  destruct (item0 s 0) as [header|]; [|discriminate].
  destruct (MenuItemType header) eqn:Ety;
    try (intros H; exfalso;
         exact (checkMenuButtons_goes_on ui s1 s' H)).
  - destruct (MenuItemSubMenu header) eqn:El; [discriminate|].
    intros _. exists header. repeat split; assumption.
  - unfold goesOn.
    destruct (select (MenuItemSubMenu header) true s1); discriminate.
Qed.

(** Without a main menu whose fourth field is NULL among the tables, the
    loop never returns. *)
Lemma menuLoop_never_returns (uis : list TouchUI) :
  (forall p table header,
     tables p = Some table -> nth_error table 0 = Some header ->
     MenuItemType header = MENU_ITEM_TYPE_MAIN_MENU_HEADER ->
     MenuItemSubMenu header <> None) ->
  forall (s s' : UI), loop uis s <> Returns App s'.
Proof.
  intros Hlinked. induction uis as [|ui uis IH]; intros s s'.
  - discriminate.
  - cbn [menuLoop]. destruct (pass ui s) as [s1|s1|] eqn:Ep.
    + destruct (menuPass_returns ui s s1 Ep) as [header [Hh [Hmain Hnull]]].
      exfalso. unfold currentItem in Hh.
      destruct (currentTable App tables s) as [table|] eqn:Et;
        [|discriminate Hh].
      unfold currentTable in Et.
      destruct (currentMenuTable App s) as [p|]; [|discriminate Et].
      cbn in Hh. exact (Hlinked p table header Et Hh Hmain Hnull).
    + apply IH.
    + discriminate.
Qed.

(** C5.  When the Back button of the title bar is clicked while a menu is
    displayed: under a sub menu header the menu engine makes the table of
    the header's fourth field the current one and draws it, title bar,
    cleared display space and every button, and the loop of
    [displayAndExecuteMenu] goes on with that table; under a main menu
    header whose fourth field is NULL [displayAndExecuteMenu] returns,
    whatever events would follow.  A main menu whose fourth field links to
    a table is drawn without Back button, so that no click on it is seen,
    and no pass through the loop returns: where no main menu has a NULL
    fourth field, [displayAndExecuteMenu] never returns. *)
Theorem back_button_navigation :
  (forall (ui : TouchUI) (s : UI) (header : MENU_ITEM),
     buttonTypeOnTitleBar App s = TITLE_BAR_BUTTON_TYPE_BACK ->
     backClicked backTextWidth ui ->
     item0 s 0 = Some header ->
     MenuItemType header = MENU_ITEM_TYPE_SUB_MENU_HEADER ->
     pass ui s =
       goesOn App (select (MenuItemSubMenu header) true
                     (draw App (DrawTitleBarBackButton false) s)) /\
     forall s', pass ui s = GoesOn App s' ->
       currentMenuTable App s' = MenuItemSubMenu header /\
       exists parentHeader more,
         item0 s' 0 = Some parentHeader /\
         drawn App s' =
           drawn App s
           ++ DrawTitleBarBackButton false
              :: DrawTitleBar (MenuItemText parentHeader)
                   (titleBarButtonOf parentHeader) :: more) /\
  (forall (ui : TouchUI) (s : UI) (header : MENU_ITEM),
     buttonTypeOnTitleBar App s = TITLE_BAR_BUTTON_TYPE_BACK ->
     backClicked backTextWidth ui ->
     item0 s 0 = Some header ->
     MenuItemType header = MENU_ITEM_TYPE_MAIN_MENU_HEADER ->
     MenuItemSubMenu header = None ->
     pass ui s = Returns App (draw App (DrawTitleBarBackButton false) s) /\
     forall rest,
       loop (ui :: rest) s
         = Returns App (draw App (DrawTitleBarBackButton false) s)) /\
  (forall (menu : option nat) (s0 s : UI) (header : MENU_ITEM) (link : nat),
     select menu true s0 = Some s ->
     item0 s 0 = Some header ->
     MenuItemType header = MENU_ITEM_TYPE_MAIN_MENU_HEADER ->
     MenuItemSubMenu header = Some link ->
     buttonTypeOnTitleBar App s = TITLE_BAR_BUTTON_TYPE_NONE /\
     forall ui, checkForBackButtonClicked App backTextWidth ui s = (false, s)) /\
  (forall (ui : TouchUI) (s s' : UI) (header : MENU_ITEM) (link : nat),
     item0 s 0 = Some header ->
     MenuItemType header = MENU_ITEM_TYPE_MAIN_MENU_HEADER ->
     MenuItemSubMenu header = Some link ->
     pass ui s <> Returns App s') /\
  (forall (ui : TouchUI) (s : UI) (header parentHeader : MENU_ITEM)
          (parent : nat) (items : list MENU_ITEM) (n : Z),
     buttonTypeOnTitleBar App s = TITLE_BAR_BUTTON_TYPE_BACK ->
     backClicked backTextWidth ui ->
     item0 s 0 = Some header ->
     MenuItemType header = MENU_ITEM_TYPE_SUB_MENU_HEADER ->
     MenuItemSubMenu header = Some parent ->
     tables parent = Some (parentHeader :: items) ->
     countButtons items = Some n ->
     exists s',
       pass ui s = GoesOn App s' /\
       (forall rest, loop (ui :: rest) s = loop rest s') /\
       currentMenuTable App s' = Some parent /\
       buttonTypeOnTitleBar App s' = titleBarButtonOf parentHeader /\
       drawn App s' =
         drawn App s
         ++ DrawTitleBarBackButton false
            :: menuScreen App toggle (parentHeader :: items) (app App s)) /\
  (forall (p : nat) (header : MENU_ITEM) (items : list MENU_ITEM) (n : Z)
          (s0 : UI) (idle : list TouchUI) (click : TouchUI)
          (rest : list TouchUI),
     tables p = Some (header :: items) ->
     countButtons items = Some n ->
     MenuItemType header = MENU_ITEM_TYPE_MAIN_MENU_HEADER ->
     MenuItemSubMenu header = None ->
     Forall isQuiet idle ->
     backClicked backTextWidth click ->
     exists s',
       run_menu (Some p) (idle ++ click :: rest) s0 = Returns App s' /\
       currentMenuTable App s' = Some p /\
       drawn App s' =
         drawn App s0
         ++ menuScreen App toggle (header :: items) (app App s0)
         ++ [DrawTitleBarBackButton false]) /\
  (forall (menu : option nat) (uis : list TouchUI) (s0 s' : UI),
     (forall p table header,
        tables p = Some table -> nth_error table 0 = Some header ->
        MenuItemType header = MENU_ITEM_TYPE_MAIN_MENU_HEADER ->
        MenuItemSubMenu header <> None) ->
     run_menu menu uis s0 <> Returns App s').
Proof.
  assert (Hexit : forall (ui : TouchUI) (s : UI) (header : MENU_ITEM),
     buttonTypeOnTitleBar App s = TITLE_BAR_BUTTON_TYPE_BACK ->
     backClicked backTextWidth ui ->
     item0 s 0 = Some header ->
     MenuItemType header = MENU_ITEM_TYPE_MAIN_MENU_HEADER ->
     MenuItemSubMenu header = None ->
     pass ui s = Returns App (draw App (DrawTitleBarBackButton false) s)).
  { intros ui s header Hb Hclick Hh Hmain Hnull.
    unfold menuPass. destruct Hclick as [Hk Hin].
    rewrite Hk. cbn [eventType_eqb negb].
    rewrite checkForBackButtonClicked_clicked by (try split; assumption).
    change (item0 (draw App (DrawTitleBarBackButton false) s) 0)
      with (item0 s 0).
    rewrite Hh, Hmain, Hnull. reflexivity. }
  split; [|split; [|split; [|split; [|split; [|split]]]]].
  - intros ui s header Hb Hclick Hh Hsub.
    assert (Hpass : pass ui s =
              goesOn App (select (MenuItemSubMenu header) true
                            (draw App (DrawTitleBarBackButton false) s))).
    { unfold menuPass. destruct Hclick as [Hk Hin].
      rewrite Hk. cbn [eventType_eqb negb].
      rewrite checkForBackButtonClicked_clicked by (try split; assumption).
      change (item0 (draw App (DrawTitleBarBackButton false) s) 0)
        with (item0 s 0).
      rewrite Hh, Hsub. reflexivity. }
    split; [exact Hpass|].
    intros s' Hgo. rewrite Hpass in Hgo. unfold goesOn in Hgo.
    destruct (select (MenuItemSubMenu header) true
                (draw App (DrawTitleBarBackButton false) s)) as [s1|] eqn:Es;
      [|discriminate].
    injection Hgo as <-.
    destruct (selectAndDrawMenu_spec _ _ _ Es)
      as [Ht [parentHeader [more [Hp [_ Hd]]]]].
    split; [exact Ht|]. exists parentHeader, more. split; [exact Hp|].
    rewrite Hd. cbn [draw drawn]. rewrite <- app_assoc. reflexivity.
  - intros ui s header Hb Hclick Hh Hmain Hnull.
    pose proof (Hexit ui s header Hb Hclick Hh Hmain Hnull) as Hp.
    split; [exact Hp|]. intros rest. apply menuLoop_returns. exact Hp.
  - intros menu s0 s header link Hsel Hh Hmain Hlink.
    destruct (selectAndDrawMenu_spec _ _ _ Hsel)
      as [_ [header' [more [Hh' [Hb _]]]]].
    assert (header' = header) by congruence. subst header'.
    assert (Hnone : buttonTypeOnTitleBar App s = TITLE_BAR_BUTTON_TYPE_NONE).
    { rewrite Hb. unfold titleBarButtonOf. rewrite Hmain, Hlink. reflexivity. }
    split; [exact Hnone|].
    intros ui. apply checkForBackButtonClicked_none. exact Hnone.
  - intros ui s s' header link Hh Hmain Hlink Hret.
    destruct (menuPass_returns ui s s' Hret) as [header' [Hh' [_ Hnull]]].
    congruence.
  - intros ui s header parentHeader parent items n Hb Hclick Hh Hsub Hlink
      Ht Hn.
    destruct (selectAndDrawMenu_screen parent
                (draw App (DrawTitleBarBackButton false) s)
                parentHeader items n Ht Hn)
      as [s' [Hs' [Hcur [Hbt [_ [Hd _]]]]]].
    assert (Hp : pass ui s = GoesOn App s').
    { unfold menuPass. destruct Hclick as [Hk Hin].
      rewrite Hk. cbn [eventType_eqb negb].
      rewrite checkForBackButtonClicked_clicked by (try split; assumption).
      change (item0 (draw App (DrawTitleBarBackButton false) s) 0)
        with (item0 s 0).
      rewrite Hh, Hsub, Hlink, Hs'. reflexivity. }
    exists s'. split; [exact Hp|].
    split; [intros rest; apply menuLoop_goes_on; exact Hp|].
    split; [exact Hcur|]. split; [exact Hbt|].
    rewrite Hd. cbn [draw drawn app]. rewrite <- app_assoc. reflexivity.
  - intros p header items n s0 idle click rest Ht Hn Hmain Hnull Hidle
      Hclick.
    destruct (selectAndDrawMenu_screen p s0 header items n Ht Hn)
      as [s1 [Hs1 [Hcur [Hbt [_ [Hd _]]]]]].
    destruct (menuLoop_idle idle (click :: rest) s1 Hidle)
      as [s2 [Hloop [Hcur2 [Hbt2 Hd2]]]].
    assert (Hback : buttonTypeOnTitleBar App s2 = TITLE_BAR_BUTTON_TYPE_BACK).
    { rewrite Hbt2, Hbt. unfold titleBarButtonOf.
      rewrite Hmain, Hnull. reflexivity. }
    assert (Hh : item0 s2 0 = Some header).
    { unfold currentItem, currentTable. rewrite Hcur2, Hcur, Ht. reflexivity. }
    exists (draw App (DrawTitleBarBackButton false) s2).
    split; [|split].
    + unfold displayAndExecuteMenu. rewrite Hs1, Hloop.
      apply menuLoop_returns.
      exact (Hexit click s2 header Hback Hclick Hh Hmain Hnull).
    + cbn [draw currentMenuTable]. congruence.
    + cbn [draw drawn]. rewrite Hd2, Hd, <- app_assoc. reflexivity.
  - intros menu uis s0 s' Hlinked. unfold displayAndExecuteMenu.
    destruct (select menu true s0) as [s1|]; [|discriminate].
    apply menuLoop_never_returns. exact Hlinked.
Qed.

End MenuEngine.

Lemma back_button_navigation_witness :
  (exists s0 s',
     selectAndDrawMenu unit idleToggle appTables (Some 1%nat) true freshUI
       = Some s0 /\
     menuPass unit idleCommand idleToggle idleCommand appTables landscape 30
       backClick s0 = GoesOn unit s' /\
     currentMenuTable unit s' = Some 0%nat /\
     drawn unit s' =
       drawn unit s0
       ++ [DrawTitleBarBackButton false; DrawTitleBar "My App" 0;
           ClearDisplaySpace; DrawMenuItem 1 "Log data" false;
           DrawMenuItem 2 "Sound:  On" false;
           DrawMenuItem 3 "Settings" false]) /\
  (exists s,
     displayAndExecuteMenu unit idleCommand idleToggle idleCommand appTables
       landscape 30 (Some 2%nat) [backClick] freshUI = Returns unit s) /\
  (exists s0,
     selectAndDrawMenu unit idleToggle appTables (Some 0%nat) true freshUI
       = Some s0 /\
     buttonTypeOnTitleBar unit s0 = TITLE_BAR_BUTTON_TYPE_NONE).
Proof.
  destruct (back_button_navigation unit idleCommand idleToggle idleCommand
              appTables landscape 30)
    as [_ [_ [Hself [_ [Hsub [Hexit _]]]]]].
  assert (Hclick : backClicked 30 backClick).
  { unfold backClicked. repeat split; vm_compute; congruence. }
  split; [|split].
  - destruct (selectAndDrawMenu unit idleToggle appTables (Some 1%nat) true
                freshUI) as [s0|] eqn:Hsel; [|vm_compute in Hsel; discriminate].
    exists s0.
    destruct (Hsub backClick s0
                (mkMENU_ITEM MENU_ITEM_TYPE_SUB_MENU_HEADER "Menu Name"
                   MENU_COLUMNS_2 (Some 0%nat))
                (mkMENU_ITEM MENU_ITEM_TYPE_MAIN_MENU_HEADER "My App"
                   MENU_COLUMNS_1 (Some 0%nat))
                0%nat (tl appMenu) 3)
      as [s' [Hpass [_ [Hcur [_ Hd]]]]];
      [vm_compute in Hsel; injection Hsel as <-; reflexivity
      | exact Hclick
      | vm_compute in Hsel; injection Hsel as <-; reflexivity
      | reflexivity | reflexivity | reflexivity | reflexivity |].
    exists s'. split; [reflexivity|]. split; [exact Hpass|].
    split; [exact Hcur|]. rewrite Hd.
    vm_compute in Hsel. injection Hsel as <-. reflexivity.
  - destruct (Hexit 2%nat
                (mkMENU_ITEM MENU_ITEM_TYPE_MAIN_MENU_HEADER
                   "Stopwatch Settings" MENU_COLUMNS_1 None)
                (tl stopwatchMenu) 3 freshUI [] backClick [])
      as [s' [Hret _]];
      [reflexivity | reflexivity | reflexivity | reflexivity
      | constructor | exact Hclick |].
    exists s'. exact Hret.
  - destruct (selectAndDrawMenu unit idleToggle appTables (Some 0%nat) true
                freshUI) as [s0|] eqn:Hsel; [|vm_compute in Hsel; discriminate].
    exists s0. split; [reflexivity|].
    destruct (Hself (Some 0%nat) freshUI s0
                (mkMENU_ITEM MENU_ITEM_TYPE_MAIN_MENU_HEADER "My App"
                   MENU_COLUMNS_1 (Some 0%nat))
                0%nat Hsel) as [Hnone _].
    + vm_compute in Hsel. injection Hsel as <-. reflexivity.
    + reflexivity.
    + reflexivity.
    + exact Hnone.
Defined.

(** ** The numeric keypad *)

Import Keypad.

Section KeypadLoop.

Variable Num : Type.
Variable atof : string -> Num.
Variable numLe : Num -> Num -> bool.
Variable forFloat : bool.
Variable titleBar : string.
Variables minValue maxValue : Num.

Local Abbreviation KState := (Keypad.State Num).
Local Abbreviation kValue := (Keypad.value Num).
Local Abbreviation kStr := (Keypad.valueStr Num).
Local Abbreviation kFirst := (Keypad.firstFlg Num).
Local Abbreviation kDrawn := (Keypad.drawn Num).
Local Abbreviation kPass :=
  (keypadPass Num atof numLe forFloat titleBar minValue maxValue).
Local Abbreviation kLoop :=
  (keypadLoop Num atof numLe forFloat titleBar minValue maxValue).
Local Abbreviation inRange :=
  (fun n : Num => numLe minValue n && numLe n maxValue).

Lemma addDrawn_nil (s : KState) : addDrawn Num [] s = s.
Proof. destruct s. unfold addDrawn. cbn. rewrite app_nil_r. reflexivity. Qed.

(** The answer of [checkForButtonClicked] to a click: on the button, off
    the button. *)
Lemma click_on (ui : TouchUI) (b : BUTTON) :
  clicked b ui -> checkForButtonClicked ui b = (true, [drawButton b false]).
Proof.
  intros [Hk Hin]. unfold checkForButtonClicked, isNoEvent. rewrite Hk.
  cbn [eventType_eqb]. cbv zeta.
  rewrite (rect_false ui TOUCH_PUSHED_EVENT) by wrong_kind.
  rewrite (rect_true ui TOUCH_RELEASED_EVENT) by assumption.
  reflexivity.
Qed.

Lemma click_off (ui : TouchUI) (b : BUTTON) :
  ~ inButton b (touchEventX ui) (touchEventY ui) ->
  checkForButtonClicked ui b = (false, []).
Proof.
  intros Hout. unfold checkForButtonClicked.
  destruct (isNoEvent ui); [reflexivity|]. cbv zeta.
  rewrite !rect_false by (intros [_ Hin]; apply Hout; exact Hin).
  reflexivity.
Qed.

Lemma onClick_off (ui : TouchUI) (b : BUTTON) (action : KState -> KState)
    (s : KState) :
  ~ inButton b (touchEventX ui) (touchEventY ui) ->
  onClick Num ui b action s = s.
Proof.
  intros Hout. unfold onClick. rewrite (click_off ui b Hout).
  apply addDrawn_nil.
Qed.

Ltac button_geometry :=
  unfold inButton, buttonX2, buttonY2, buttonX1, buttonY1, okButton,
    cancelButton, delButton, otherButton, button0, button1, button2, button3,
    button4, button5, button6, button7, button8, button9, buttonDot,
    buttonMinus, digitButton, OTHER_BUTTONS_X, OTHER_BUTTONS_Y,
    OTHER_BUTTONS_WIDTH, OTHER_BUTTONS_HEIGHT, OTHER_BUTTONS_SPACING,
    DIGIT_BUTTONS_X, DIGIT_BUTTONS_Y, DIGIT_BUTTONS_HORZ_SPACING,
    DIGIT_BUTTONS_VERT_SPACING, DIGIT_BUTTONS_WIDTH, DIGIT_BUTTONS_HEIGHT in *;
  cbn [Button.centerX Button.centerY Button.width Button.height] in *.

(** The OK and the Cancel button lie apart from the editing buttons and from
    each other. *)
Lemma editPass_off (ui : TouchUI) (s : KState) :
  inButton okButton (touchEventX ui) (touchEventY ui) \/
  inButton cancelButton (touchEventX ui) (touchEventY ui) ->
  editPass Num forFloat ui s = s.
Proof.
  intros Hin. unfold editPass, digitPass, digitKeys.
  cbn [fold_left fst snd]. cbv zeta.
  rewrite !onClick_off
    by (destruct forFloat; button_geometry; lia).
  destruct forFloat; reflexivity.
Qed.

Lemma ok_not_cancel (x y : Z) :
  inButton okButton x y -> ~ inButton cancelButton x y.
Proof. button_geometry. lia. Qed.

(** A click on OK. *)
Lemma pass_ok (ui : TouchUI) (s : KState) :
  clicked okButton ui ->
  kPass ui s =
  let s1 := mkState Num (kStr s) (kFirst s) (atof (kStr s))
              (kDrawn s ++ [drawButton okButton false]) in
  if inRange (atof (kStr s)) then Keypad.Returns Num true s1
  else Keypad.GoesOn Num
         (addDrawn Num [DrawTitleBar outOfRangeText 0; Delay 1500;
                        DrawTitleBar titleBar 0] s1).
Proof.
  intros Hok. pose proof Hok as [Hk Hin].
  unfold keypadPass. rewrite editPass_off by (left; exact Hin).
  rewrite (click_on ui okButton Hok). cbv zeta.
  cbn [addDrawn Keypad.valueStr Keypad.firstFlg Keypad.value Keypad.drawn].
  destruct (numLe minValue (atof (kStr s)) && numLe (atof (kStr s)) maxValue).
  - reflexivity.
  - rewrite (click_off ui cancelButton)
      by (apply ok_not_cancel; exact Hin).
    cbv zeta. rewrite addDrawn_nil. reflexivity.
Qed.

(** A click on Cancel. *)
Lemma pass_cancel (ui : TouchUI) (s : KState) :
  clicked cancelButton ui ->
  kPass ui s =
  Keypad.Returns Num false (addDrawn Num [drawButton cancelButton false] s).
Proof.
  intros Hc. pose proof Hc as [Hk Hin].
  unfold keypadPass. rewrite editPass_off by (right; exact Hin).
  rewrite (click_off ui okButton)
    by (intros Hok; exact (ok_not_cancel _ _ Hok Hin)).
  cbv zeta. rewrite addDrawn_nil.
  rewrite (click_on ui cancelButton Hc). reflexivity.
Qed.

Lemma checked_clicked (ui : TouchUI) (b : BUTTON) :
  fst (checkForButtonClicked ui b) = true -> clicked b ui.
Proof. intros H. apply clicked_true in H. exact H. Qed.

(** Editing leaves the value alone. *)
Lemma addChar_value (c : ascii) (s : KState) :
  kValue (keypad_AddCharToStringBuf Num c s) = kValue s.
Proof.
  unfold keypad_AddCharToStringBuf. cbv zeta.
  destruct (MAX_CHARACTERS <=? String.length (kStr s))%nat; reflexivity.
Qed.

Lemma onClick_value (ui : TouchUI) (b : BUTTON) (action : KState -> KState)
    (s : KState) :
  (forall s0, kValue (action s0) = kValue s0) ->
  kValue (onClick Num ui b action s) = kValue s.
Proof.
  intros Hact. unfold onClick.
  destruct (checkForButtonClicked ui b) as [[|] dr]; cbv zeta.
  - rewrite Hact. reflexivity.
  - reflexivity.
Qed.

Lemma editPass_value (ui : TouchUI) (s : KState) :
  kValue (editPass Num forFloat ui s) = kValue s.
Proof.
  unfold editPass, digitPass, digitKeys. cbn [fold_left fst snd]. cbv zeta.
  assert (Hdot : forall s0, kValue (dotAction Num s0) = kValue s0).
  { intros s0. unfold dotAction.
    destruct (countDots (kStr s0) =? 0)%nat;
      [apply addChar_value | reflexivity]. }
  assert (Hminus : forall s0, kValue (minusAction Num s0) = kValue s0).
  { intros s0. unfold minusAction.
    destruct (kFirst s0 || (String.length (kStr s0) =? 0)%nat);
      [apply addChar_value | reflexivity]. }
  assert (Hdel : forall s0, kValue (delAction Num s0) = kValue s0)
    by reflexivity.
  rewrite (onClick_value _ _ _ _ Hdel), (onClick_value _ _ _ _ Hminus).
  destruct forFloat; [rewrite (onClick_value _ _ _ _ Hdot)|];
    rewrite !(onClick_value _ _ _ _ (addChar_value _)); reflexivity.
Qed.

(** What a pass that returns, or that changes the value, was caused by. *)
Lemma pass_inversion (ui : TouchUI) (s : KState) :
  match kPass ui s with
  | Keypad.Returns _ true _ =>
      clicked okButton ui /\ inRange (atof (kStr s)) = true
  | Keypad.Returns _ false s' =>
      clicked cancelButton ui /\ kValue s' = kValue s
  | Keypad.GoesOn _ s' =>
      clicked okButton ui \/ kValue s' = kValue s
  end.
Proof.
  destruct (checkForButtonClicked ui okButton) as [okClicked dr] eqn:Eok.
  destruct okClicked.
  - assert (Hok : clicked okButton ui)
      by (apply checked_clicked; rewrite Eok; reflexivity).
    rewrite (pass_ok ui s Hok). cbv zeta.
    destruct (numLe minValue (atof (kStr s)) && numLe (atof (kStr s)) maxValue)
      eqn:Er.
    + split; [exact Hok | reflexivity].
    + left. exact Hok.
  - unfold keypadPass. rewrite Eok. cbv zeta.
    destruct (checkForButtonClicked ui cancelButton) as [cancelClicked dr']
      eqn:Ec.
    destruct cancelClicked.
    + split.
      * apply checked_clicked. rewrite Ec. reflexivity.
      * cbn. apply editPass_value.
    + right. cbn. apply editPass_value.
Qed.

(** Without a click on OK, the value is still the initial one when the
    keypad returns. *)
Lemma cancel_without_ok (uis : list TouchUI) :
  forall (s s' : KState) (result : bool),
  Forall (fun ui => ~ clicked okButton ui) uis ->
  kLoop uis s = Keypad.Returns Num result s' ->
  result = false /\ kValue s' = kValue s.
Proof.
  induction uis as [|ui uis IH]; intros s s' result Hno Hret.
  - discriminate Hret.
  - inversion Hno as [|? ? Hui Hrest]; subst.
    cbn [keypadLoop] in Hret.
    pose proof (pass_inversion ui s) as Hinv.
    destruct (kPass ui s) as [[|] s1|s1].
    + destruct Hinv as [Hok _]. contradiction.
    + injection Hret as <- <-. destruct Hinv as [_ Hv]. split; [reflexivity|].
      exact Hv.
    + destruct Hinv as [Hok|Hv]; [contradiction|].
      destruct (IH s1 s' result Hrest Hret) as [Hr Hv'].
      split; [exact Hr | congruence].
Qed.

(** What one pass through the loop answers to a click on OK and on
    Cancel, and what a pass that returns was caused by. *)
Lemma keypad_pass_spec :
  (forall (ui : TouchUI) (s : KState),
     clicked okButton ui -> inRange (atof (kStr s)) = true ->
     kPass ui s =
     Keypad.Returns Num true
       (mkState Num (kStr s) (kFirst s) (atof (kStr s))
          (kDrawn s ++ [drawButton okButton false]))) /\
  (forall (ui : TouchUI) (s : KState),
     clicked okButton ui -> inRange (atof (kStr s)) = false ->
     kPass ui s =
     Keypad.GoesOn Num
       (mkState Num (kStr s) (kFirst s) (atof (kStr s))
          (kDrawn s ++ [drawButton okButton false;
                        DrawTitleBar outOfRangeText 0; Delay 1500;
                        DrawTitleBar titleBar 0]))) /\
  (forall (ui : TouchUI) (s : KState),
     clicked cancelButton ui ->
     kPass ui s =
     Keypad.Returns Num false
       (mkState Num (kStr s) (kFirst s) (kValue s)
          (kDrawn s ++ [drawButton cancelButton false]))) /\
  (forall (ui : TouchUI) (s s' : KState),
     kPass ui s = Keypad.Returns Num true s' ->
     clicked okButton ui /\ inRange (atof (kStr s)) = true /\
     kValue s' = atof (kStr s)) /\
  (forall (ui : TouchUI) (s s' : KState),
     kPass ui s = Keypad.Returns Num false s' ->
     clicked cancelButton ui /\ kValue s' = kValue s) /\
  (forall (uis : list TouchUI) (s s' : KState) (result : bool),
     Forall (fun ui => ~ clicked okButton ui) uis ->
     kLoop uis s = Keypad.Returns Num result s' ->
     result = false /\ kValue s' = kValue s).
Proof.
  split; [|split; [|split; [|split; [|split]]]].
  - intros ui s Hok Hr. rewrite (pass_ok ui s Hok). cbv zeta.
    cbv beta in Hr. rewrite Hr. reflexivity.
  - intros ui s Hok Hr. rewrite (pass_ok ui s Hok). cbv zeta.
    cbv beta in Hr. rewrite Hr. unfold addDrawn. cbn.
    rewrite <- app_assoc. reflexivity.
  - intros ui s Hc. rewrite (pass_cancel ui s Hc). reflexivity.
  - intros ui s s' Hret. pose proof (pass_inversion ui s) as Hinv.
    rewrite Hret in Hinv. destruct Hinv as [Hok Hr].
    split; [exact Hok|]. split; [exact Hr|].
    rewrite (pass_ok ui s Hok) in Hret. cbv zeta in Hret.
    cbv beta in Hr. rewrite Hr in Hret. injection Hret as <-. reflexivity.
  - intros ui s s' Hret. pose proof (pass_inversion ui s) as Hinv.
    rewrite Hret in Hinv. exact Hinv.
  - intros uis s s' result. apply cancel_without_ok.
Qed.

End KeypadLoop.

(** The value the [int] keypad stores on a click on OK is an [int], whatever
    the text entered, and is the number entered when that is an [int]. *)
Lemma doubleToInt_range (v : Z) : INT_MIN <= doubleToInt v <= INT_MAX.
Proof.
  unfold doubleToInt.
  destruct (Z.ltb_spec v INT_MIN); [unfold INT_MIN, INT_MAX; lia|].
  destruct (Z.gtb_spec v INT_MAX); [unfold INT_MIN, INT_MAX; lia|lia].
Qed.

Lemma doubleToInt_exact (v : Z) : in_int v -> doubleToInt v = v.
Proof.
  unfold in_int, doubleToInt. intros H.
  destruct (Z.ltb_spec v INT_MIN); [lia|].
  destruct (Z.gtb_spec v INT_MAX); [lia|reflexivity].
Qed.

(** The loop over the events of more polls, when it has not returned on the
    first of them. *)
Lemma loop_app_goes_on (Num : Type) (atof : string -> Num)
    (numLe : Num -> Num -> bool) (forFloat : bool) (titleBar : string)
    (minValue maxValue : Num) (uis more : list TouchUI) :
  forall s s' : Keypad.State Num,
    keypadLoop Num atof numLe forFloat titleBar minValue maxValue uis s =
    Keypad.GoesOn Num s' ->
    keypadLoop Num atof numLe forFloat titleBar minValue maxValue
      (uis ++ more) s =
    keypadLoop Num atof numLe forFloat titleBar minValue maxValue more s'.
Proof.
  induction uis as [|ui rest IH]; intros s s' H.
  - injection H as ->. reflexivity.
  - cbn [keypadLoop List.app] in *.
    destruct (keypadPass Num atof numLe forFloat titleBar minValue maxValue
                ui s) as [result s1|s1]; [discriminate H|].
    exact (IH _ _ H).
Qed.

(** A loop that has returned true has stored a value inside the range. *)
Lemma loop_true_in_range (Num : Type) (atof : string -> Num)
    (numLe : Num -> Num -> bool) (forFloat : bool) (titleBar : string)
    (minValue maxValue : Num) (uis : list TouchUI) :
  forall s s' : Keypad.State Num,
    keypadLoop Num atof numLe forFloat titleBar minValue maxValue uis s =
    Keypad.Returns Num true s' ->
    numLe minValue (Keypad.value Num s') && numLe (Keypad.value Num s') maxValue
    = true.
Proof.
  induction uis as [|ui rest IH]; intros s s' H; [discriminate H|].
  cbn [keypadLoop] in H.
  destruct (keypadPass Num atof numLe forFloat titleBar minValue maxValue ui s)
    as [result s1|s1] eqn:E.
  - injection H as -> ->.
    pose proof (pass_inversion Num atof numLe forFloat titleBar
                  minValue maxValue ui s) as Hinv.
    rewrite E in Hinv. destruct Hinv as [Hok Hr].
    rewrite (pass_ok Num atof numLe forFloat titleBar minValue maxValue
               ui s Hok) in E.
    cbv zeta in E. cbv beta in Hr. rewrite Hr in E.
    injection E as <-. exact Hr.
  - exact (IH _ _ H).
Qed.

(** C9 (amended).  [numericKeyPad] tests the range on the value the entry
    converts to, [value = atof(valueStr)]: a click on OK whose converted
    entry lies inside [minValue, maxValue] makes it return true with that
    value stored through the reference; a click on OK whose converted entry
    lies outside shows the out-of-range message, stores the converted entry
    all the same, and the loop goes on; a click on Cancel makes it return
    false and leaves the value as it then is; it returns true only on such
    a click on OK, with a value inside the range, and false only on a click
    on Cancel; without a click on OK, the value returned with false is the
    one the keypad was opened with.  On the keypad for an [int] the entry is
    converted to an [int]: the stored value is the number entered when that
    is an [int], and always lies between the limits of [int], so that with
    the whole of [int] as the range every click on OK returns true. *)
Theorem numeric_keypad_ok_cancel :
  (forall (Num : Type) (atof : string -> Num) (numLe : Num -> Num -> bool)
          (forFloat : bool) (titleBar : string) (minValue maxValue : Num),
     (forall (ui : TouchUI) (s : Keypad.State Num) (rest : list TouchUI),
        clicked okButton ui ->
        numLe minValue (atof (Keypad.valueStr Num s))
          && numLe (atof (Keypad.valueStr Num s)) maxValue = true ->
        keypadLoop Num atof numLe forFloat titleBar minValue maxValue
          (ui :: rest) s =
        Keypad.Returns Num true
          (mkState Num (Keypad.valueStr Num s) (Keypad.firstFlg Num s)
             (atof (Keypad.valueStr Num s))
             (Keypad.drawn Num s ++ [drawButton okButton false]))) /\
     (forall (ui : TouchUI) (s : Keypad.State Num) (rest : list TouchUI),
        clicked okButton ui ->
        numLe minValue (atof (Keypad.valueStr Num s))
          && numLe (atof (Keypad.valueStr Num s)) maxValue = false ->
        keypadLoop Num atof numLe forFloat titleBar minValue maxValue
          (ui :: rest) s =
        keypadLoop Num atof numLe forFloat titleBar minValue maxValue rest
          (mkState Num (Keypad.valueStr Num s) (Keypad.firstFlg Num s)
             (atof (Keypad.valueStr Num s))
             (Keypad.drawn Num s ++ [drawButton okButton false;
                                     DrawTitleBar outOfRangeText 0; Delay 1500;
                                     DrawTitleBar titleBar 0]))) /\
     (forall (ui : TouchUI) (s : Keypad.State Num) (rest : list TouchUI),
        clicked cancelButton ui ->
        keypadLoop Num atof numLe forFloat titleBar minValue maxValue
          (ui :: rest) s =
        Keypad.Returns Num false
          (mkState Num (Keypad.valueStr Num s) (Keypad.firstFlg Num s)
             (Keypad.value Num s)
             (Keypad.drawn Num s ++ [drawButton cancelButton false]))) /\
     (forall (ui : TouchUI) (s s' : Keypad.State Num),
        keypadPass Num atof numLe forFloat titleBar minValue maxValue ui s =
        Keypad.Returns Num true s' ->
        clicked okButton ui /\
        numLe minValue (atof (Keypad.valueStr Num s))
          && numLe (atof (Keypad.valueStr Num s)) maxValue = true /\
        Keypad.value Num s' = atof (Keypad.valueStr Num s)) /\
     (forall (ui : TouchUI) (s s' : Keypad.State Num),
        keypadPass Num atof numLe forFloat titleBar minValue maxValue ui s =
        Keypad.Returns Num false s' ->
        clicked cancelButton ui /\ Keypad.value Num s' = Keypad.value Num s) /\
     (forall (uis : list TouchUI) (s s' : Keypad.State Num),
        keypadLoop Num atof numLe forFloat titleBar minValue maxValue uis s =
        Keypad.Returns Num true s' ->
        numLe minValue (Keypad.value Num s')
          && numLe (Keypad.value Num s') maxValue = true) /\
     (forall (uis : list TouchUI) (s s' : Keypad.State Num) (result : bool),
        Forall (fun ui => ~ clicked okButton ui) uis ->
        keypadLoop Num atof numLe forFloat titleBar minValue maxValue uis s =
        Keypad.Returns Num result s' ->
        result = false /\ Keypad.value Num s' = Keypad.value Num s)) /\
  (forall text : string, INT_MIN <= stringToInt text <= INT_MAX) /\
  (forall text : string,
     in_int (atofWhole text) -> stringToInt text = atofWhole text) /\
  (forall (titleBar : string) (ui : TouchUI) (s : Keypad.State Z)
          (rest : list TouchUI),
     clicked okButton ui ->
     keypadLoop Z stringToInt Z.leb false titleBar INT_MIN INT_MAX
       (ui :: rest) s =
     Keypad.Returns Z true
       (mkState Z (Keypad.valueStr Z s) (Keypad.firstFlg Z s)
          (stringToInt (Keypad.valueStr Z s))
          (Keypad.drawn Z s ++ [drawButton okButton false]))).
Proof.
  assert (Hgen : forall (Num : Type) (atof : string -> Num)
                   (numLe : Num -> Num -> bool) (forFloat : bool)
                   (titleBar : string) (minValue maxValue : Num)
                   (ui : TouchUI) (s : Keypad.State Num) (rest : list TouchUI),
             clicked okButton ui ->
             numLe minValue (atof (Keypad.valueStr Num s))
               && numLe (atof (Keypad.valueStr Num s)) maxValue = true ->
             keypadLoop Num atof numLe forFloat titleBar minValue maxValue
               (ui :: rest) s =
             Keypad.Returns Num true
               (mkState Num (Keypad.valueStr Num s) (Keypad.firstFlg Num s)
                  (atof (Keypad.valueStr Num s))
                  (Keypad.drawn Num s ++ [drawButton okButton false]))).
  { intros Num atof numLe forFloat titleBar minValue maxValue ui s rest Hok Hr.
    destruct (keypad_pass_spec Num atof numLe forFloat titleBar
                minValue maxValue) as [Hp _].
    cbn [keypadLoop]. rewrite (Hp ui s Hok Hr). reflexivity. }
  split; [|split; [|split]].
  - intros Num atof numLe forFloat titleBar minValue maxValue.
    destruct (keypad_pass_spec Num atof numLe forFloat titleBar
                minValue maxValue)
      as [_ [Hreject [Hcancel [Htrue [Hfalse Hquiet]]]]].
    split; [|split; [|split; [|split; [|split; [|split]]]]].
    + apply Hgen.
    + intros ui s rest Hok Hr. cbn [keypadLoop].
      rewrite (Hreject ui s Hok Hr). reflexivity.
    + intros ui s rest Hc. cbn [keypadLoop].
      rewrite (Hcancel ui s Hc). reflexivity.
    + exact Htrue.
    + exact Hfalse.
    + intros uis. apply loop_true_in_range.
    + exact Hquiet.
  - intros text. apply doubleToInt_range.
  - intros text. apply doubleToInt_exact.
  - intros titleBar ui s rest Hok. apply Hgen; [exact Hok|].
    pose proof (doubleToInt_range (atofWhole (Keypad.valueStr Z s))) as Hr.
    fold (stringToInt (Keypad.valueStr Z s)) in Hr.
    apply andb_true_intro. split; apply Z.leb_le; lia.
Qed.

(** C9, as the specification states it, fails in the scenario of the
    specification itself: the keypad is opened on the value 50 for a number
    between 20 and 100, the user types "15", clicks OK, which is rejected,
    and then Cancel: [numericKeyPad] returns false, and the value reference
    holds 15.  And on the keypad for an [int] opened for the whole of
    [int], the user types ten times "9" and clicks OK: 9999999999 lies
    beyond the range, and [numericKeyPad] returns true. *)
Lemma cancel_after_rejected_ok_modifies_value :
  (exists s,
     numericKeyPad Z intToString stringToInt Z.leb false
       "Enter temperature"%string 50 20 100 rejectedThenCancelled
     = Keypad.Returns Z false s /\
     Keypad.valueStr Z s = "15"%string /\
     Keypad.value Z s = 15 /\
     Keypad.value Z s <> 50) /\
  (exists s,
     numericKeyPad Z intToString stringToInt Z.leb false
       "Enter a number"%string 50 INT_MIN INT_MAX tenNines
     = Keypad.Returns Z true s /\
     Keypad.valueStr Z s = "9999999999"%string /\
     atofWhole (Keypad.valueStr Z s) = 9999999999 /\
     ~ (INT_MIN <= atofWhole (Keypad.valueStr Z s) <= INT_MAX)).
Proof.
  split.
  - eexists. split; [vm_compute; reflexivity|].
    split; [reflexivity|]. split; [reflexivity|]. cbn. discriminate.
  - eexists. split; [vm_compute; reflexivity|].
    split; [reflexivity|]. split; [reflexivity|].
    vm_compute. intros [_ H]. apply H. reflexivity.
Qed.

(** Runs the loop over the first events of a scenario. *)
Ltac run_keys :=
  match goal with
  | |- context [keypadLoop ?N ?a ?l ?f ?t ?mn ?mx (?uis ++ ?more) ?s] =>
      let r := eval vm_compute in (keypadLoop N a l f t mn mx uis s) in
      match r with
      | Keypad.GoesOn _ ?s' =>
          rewrite (loop_app_goes_on N a l f t mn mx uis more s s')
            by (vm_compute; reflexivity)
      end
  end.

Lemma numeric_keypad_ok_cancel_witness :
  (exists s,
     numericKeyPad Z intToString stringToInt Z.leb false
       "Enter temperature"%string 50 20 100
       [click button1; click button5; click okButton]
     = Keypad.GoesOn Z s /\
     Keypad.valueStr Z s = "15"%string) /\
  (exists s,
     numericKeyPad Z intToString stringToInt Z.leb false
       "Enter temperature"%string 50 20 100
       [click button7; click button5; click okButton]
     = Keypad.Returns Z true s /\
     Keypad.value Z s = 75) /\
  (exists s,
     numericKeyPad Z intToString stringToInt Z.leb false
       "Enter temperature"%string 50 20 100
       [click button7; click button5; click cancelButton]
     = Keypad.Returns Z false s /\
     Keypad.value Z s = 50) /\
  (exists s,
     numericKeyPad Z intToString stringToInt Z.leb false
       "Enter a number"%string 50 INT_MIN INT_MAX tenNines
     = Keypad.Returns Z true s /\
     Keypad.valueStr Z s = "9999999999"%string /\
     Keypad.value Z s = INT_MAX).
Proof.
  destruct numeric_keypad_ok_cancel as [Hgen [_ [_ Hint]]].
  destruct (Hgen Z stringToInt Z.leb false "Enter temperature"%string 20 100)
    as [Hok [Hreject [_ [_ [_ [_ Hquiet]]]]]].
  assert (HokClick : clicked okButton (click okButton)).
  { unfold clicked, inButton. repeat split; vm_compute; congruence. }
  split; [|split; [|split]].
  - eexists. unfold numericKeyPad.
    change [click button1; click button5; click okButton]
      with ([click button1; click button5] ++ [click okButton]).
    run_keys.
    rewrite Hreject; [|exact HokClick | reflexivity].
    split; reflexivity.
  - eexists. unfold numericKeyPad.
    change [click button7; click button5; click okButton]
      with ([click button7; click button5] ++ [click okButton]).
    run_keys.
    rewrite Hok; [|exact HokClick | reflexivity].
    split; reflexivity.
  - destruct (numericKeyPad Z intToString stringToInt Z.leb false
                "Enter temperature"%string 50 20 100
                [click button7; click button5; click cancelButton])
      as [result s|s] eqn:E; [|vm_compute in E; discriminate E].
    unfold numericKeyPad in E.
    assert (Hno : Forall (fun ui => ~ clicked okButton ui)
                    [click button7; click button5; click cancelButton]).
    { repeat constructor; intros [_ Hin]; revert Hin;
        unfold inButton; vm_compute; intuition congruence. }
    destruct (Hquiet _ _ _ _ Hno E) as [-> Hv].
    exists s. split; [reflexivity | exact Hv].
  - eexists. unfold numericKeyPad, tenNines.
    run_keys.
    rewrite (Hint "Enter a number"%string (click okButton) _ [] HokClick).
    split; [reflexivity|]. split; [reflexivity|]. vm_compute. reflexivity.
Defined.

(** ** Further properties of the touch event state machine *)

Section TouchMachine.
Import Touch.

Lemma spaced_run (polls : list Poll) :
  forall ui last,
  clockInRange polls ->
  (touchState ui <> WAITING_FOR_TOUCH_DOWN_STATE ->
   0 <= touchEventStartTime ui < ULONG_MODULUS - TOUCH_AUTO_REPEAT_DELAY) ->
  repeatTimer ui last ->
  spaced last polls (run ui polls).
Proof.
  induction polls as [|[t touch] polls IH]; intros ui last Hclock Hstart Htimer.
  - exact I.
  - inversion Hclock as [|? ? Ht Hrest]; subst. cbn [pollTime fst] in Ht.
    cbn [run spaced pollTime pollTouch fst snd].
    destruct ui as [st start rx ry k ex ey].
    unfold repeatTimer in Htimer.
    cbn [touchState touchEventStartTime] in Htimer, Hstart.
    unfold TOUCH_AUTO_REPEAT_DELAY, ULONG_MODULUS in Hstart, Ht.
    destruct st;
      try (assert (Hs : 0 <= start < 2 ^ 32 - 800)
             by (apply Hstart; discriminate));
      cbn [getTouchEvents touchState touchEventStartTime
           recordedTouchX recordedTouchY touchEventX touchEventY];
      unfold ulong, ULONG_MODULUS, TOUCH_DEBOUNCE_PERIOD,
        TOUCH_AUTO_REPEAT_DELAY, TOUCH_AUTO_REPEAT_RATE in *;
      destruct touch as [[x y]|];
      repeat match goal with
      | |- context [?a <? ?b] => destruct (Z.ltb_spec a b)
      end;
      cbn [touchEventType];
      try (apply IH;
           [exact Hrest
           | cbn; intros; try lia; try congruence
           | cbn; try exact I; try assumption; reflexivity]).
    all: split; [eexists _, _; split; [exact Htimer | lia]|].
    all: apply IH; [exact Hrest | cbn; lia | reflexivity].
Qed.

(** X1.  AutoRepeat events keep their distance: while the clock does not
    wrap around, the first AutoRepeat event of a touch-down cycle comes at
    least 800 ms after the Pressed event, and every further one at least
    120 ms after the one before, whatever the polls are. *)
Theorem autorepeat_events_are_spaced (ui : TouchUI) (polls : list Poll) :
  touchState ui = WAITING_FOR_TOUCH_DOWN_STATE ->
  clockInRange polls ->
  spaced None polls (run ui polls).
Proof.
  intros Hst Hclock. apply spaced_run.
  - exact Hclock.
  - intros Hne. contradiction.
  - unfold repeatTimer. rewrite Hst. exact I.
Qed.

Lemma autorepeat_events_are_spaced_witness :
  spaced None dragPolls (run touchScreenInitialize dragPolls) /\
  kinds touchScreenInitialize dragPolls =
    [TOUCH_NO_EVENT; TOUCH_NO_EVENT; TOUCH_PUSHED_EVENT; TOUCH_NO_EVENT;
     TOUCH_REPEAT_EVENT; TOUCH_REPEAT_EVENT; TOUCH_NO_EVENT;
     TOUCH_RELEASED_EVENT].
Proof.
  split; [|reflexivity].
  apply (autorepeat_events_are_spaced touchScreenInitialize dragPolls).
  - reflexivity.
  - unfold clockInRange, dragPolls. unfold_periods.
    repeat constructor; cbn; lia.
Defined.

(** A finger that comes back while the release is being confirmed is not
    reported. *)
Lemma confirm_up_touched (polls : list Poll) :
  forall ui,
  touchState ui = CONFIRM_TOUCH_UP_STATE ->
  Forall (fun p => touched p = true) polls ->
  kinds ui polls = repeat TOUCH_NO_EVENT (List.length polls) /\
  touchState (steps ui polls) = CONFIRM_TOUCH_UP_STATE.
Proof.
  induction polls as [|[t touch] polls IH]; intros ui Hst Hall.
  - split; [reflexivity | exact Hst].
  - inversion Hall as [|? ? Hp Hrest]; subst.
    unfold touched in Hp. cbn [pollTouch snd] in Hp.
    destruct touch as [xy|]; [|discriminate Hp].
    rewrite kinds_cons. cbn [steps List.length repeat pollTime pollTouch fst snd].
    destruct ui as [st start rx ry k ex ey]. cbn in Hst. subst st.
    cbn [getTouchEvents touchState touchEventStartTime recordedTouchX
         recordedTouchY touchEventX touchEventY touchEventType].
    destruct (IH (mkTouchUI CONFIRM_TOUCH_UP_STATE t rx ry TOUCH_NO_EVENT ex ey)
                eq_refl Hrest) as [Hk Hs].
    rewrite Hk. split; [reflexivity | exact Hs].
Qed.

(** X2.  One untouched sample ends the auto repeat of a touch: when the
    finger is seen lifted once during a touch-down cycle and then rests on
    the screen again, no event is reported any more, no AutoRepeat either,
    for as long as it rests; the machine stays in CONFIRM_TOUCH_UP_STATE. *)
Theorem lifted_once_ends_auto_repeat (ui : TouchUI) (t : Z)
    (polls : list Poll) :
  touchState ui = WAITING_FOR_TOUCH_UP_STATE \/
  touchState ui = WAITING_FOR_TOUCH_UP_AFTER_AUTO_REPEAT_STATE ->
  Forall (fun p => touched p = true) polls ->
  kinds ui ((t, None) :: polls)
    = repeat TOUCH_NO_EVENT (S (List.length polls)) /\
  touchState (steps ui ((t, None) :: polls)) = CONFIRM_TOUCH_UP_STATE.
Proof.
  intros Hst Hall. rewrite kinds_cons.
  cbn [steps repeat pollTime pollTouch fst snd].
  destruct ui as [st start rx ry k ex ey]. cbn in Hst.
  destruct Hst as [-> | ->];
    cbn [getTouchEvents touchState touchEventStartTime recordedTouchX
         recordedTouchY touchEventX touchEventY touchEventType];
    destruct (confirm_up_touched polls
                (mkTouchUI CONFIRM_TOUCH_UP_STATE start rx ry
                   TOUCH_NO_EVENT ex ey) eq_refl Hall) as [Hk Hs];
    rewrite Hk; split; [reflexivity | exact Hs | reflexivity | exact Hs].
Qed.

Lemma held_touched (touches : list (Z * Z)) :
  forall t, Forall (fun p => touched p = true) (held t touches).
Proof.
  induction touches as [|xy touches IH]; intros t; cbn [held].
  - constructor.
  - constructor; [reflexivity | apply IH].
Qed.

(** A finger that rests for two seconds, is seen lifted once, and rests
    for four more seconds. *)
Lemma lifted_once_ends_auto_repeat_witness :
  kinds (steps touchScreenInitialize (restingPolls 2000))
        ((2001, None) :: held 2001 (repeat (5, 5) 4000))
    = repeat TOUCH_NO_EVENT 4001.
Proof.
  destruct (lifted_once_ends_auto_repeat
              (steps touchScreenInitialize (restingPolls 2000)) 2001
              (held 2001 (repeat (5, 5) 4000))) as [Hk _].
  - right. vm_compute. reflexivity.
  - apply held_touched.
  - rewrite Hk. vm_compute. reflexivity.
Defined.



(** X4.  In the last 30 ms before the [millis()] clock rolls over there is
    no debounce: the end of the debounce period wraps around to a small
    number, so a touch first seen then is reported Pressed by the next
    touched poll before the rollover, however soon it comes. *)
Theorem no_debounce_before_rollover (ui : TouchUI) (t0 t1 : Z)
    (xy0 xy1 : Z * Z) :
  touchState ui = WAITING_FOR_TOUCH_DOWN_STATE ->
  ULONG_MODULUS - TOUCH_DEBOUNCE_PERIOD <= t0 ->
  t0 <= t1 < ULONG_MODULUS ->
  events ui [(t0, Some xy0); (t1, Some xy1)] =
    [(TOUCH_NO_EVENT, touchEventX ui, touchEventY ui);
     (TOUCH_PUSHED_EVENT, fst xy1, snd xy1)].
Proof.
  intros Hst Ht0 Ht1.
  destruct ui as [st start rx ry k ex ey]. cbn in Hst. subst st.
  destruct xy1 as [x1 y1].
  unfold events. cbn [run map pollTime pollTouch fst snd].
  unfold TOUCH_DEBOUNCE_PERIOD, ULONG_MODULUS in Ht0, Ht1.
  cbn [getTouchEvents touchState touchEventStartTime recordedTouchX
       recordedTouchY touchEventX touchEventY touchEventType].
  unfold ulong, ULONG_MODULUS, TOUCH_DEBOUNCE_PERIOD.
  destruct (Z.ltb_spec t1 ((t0 + 30) mod 2 ^ 32)); try lia.
  reflexivity.
Qed.

Lemma no_debounce_before_rollover_witness :
  events touchScreenInitialize
    [(4294967290, Some (7, 8)); (4294967291, Some (7, 9))] =
    [(TOUCH_NO_EVENT, 0, 0); (TOUCH_PUSHED_EVENT, 7, 9)].
Proof.
  apply (no_debounce_before_rollover touchScreenInitialize
           4294967290 4294967291 (7, 8) (7, 9)).
  - reflexivity.
  - vm_compute. discriminate.
  - vm_compute. split; [discriminate | reflexivity].
Defined.

End TouchMachine.

(** ** Touch screen coordinates *)

Lemma constrain_range (amt low high : Z) :
  low <= high ->
  low <= TouchScreen.constrain amt low high <= high.
Proof.
  intros H. unfold TouchScreen.constrain.
  destruct (Z.ltb_spec amt low); [lia|].
  destruct (Z.gtb_spec amt high); lia.
Qed.

Section TouchScreenCoords.
Import TouchScreen.

Variable d : Menu.Display.
Variable c : Calibration.
Hypothesis Hwidth : 1 <= Menu.lcdWidth d.
Hypothesis Hheight : 1 <= Menu.lcdHeight d.

Lemma getTouchScreenCoords_onLCD (raw : option (Z * Z)) (x y : Z) :
  getTouchScreenCoords d c raw = Some (x, y) -> onLCD d x y.
Proof.
  unfold getTouchScreenCoords. destruct raw as [[xRaw yRaw]|]; [|discriminate].
  cbv zeta. intros H. injection H as <- <-.
  split; apply constrain_range; lia.
Qed.

(** Inside a touch-down cycle the recorded coordinates lie on the LCD, and
    so do the coordinates of every event. *)
Lemma run_onLCD (rawPolls : list (Z * option (Z * Z))) :
  forall ui,
  (isDown ui = true -> onLCD d (recordedTouchX ui) (recordedTouchY ui)) ->
  Forall (fun u => touchEventType u <> TOUCH_NO_EVENT ->
                   onLCD d (touchEventX u) (touchEventY u))
         (run ui (lcdPolls d c rawPolls)).
Proof.
  induction rawPolls as [|[t raw] rawPolls IH]; intros ui Hrec.
  - constructor.
  - cbn [lcdPolls map run pollTime pollTouch fst snd].
    pose proof (getTouchEvents_cycle t
                  (getTouchScreenCoords d c raw) ui) as Hc.
    pose proof (getTouchEvents_coords t
                  (getTouchScreenCoords d c raw) ui) as Hx.
    cbv zeta in Hc, Hx.
    remember (getTouchEvents t (getTouchScreenCoords d c raw) ui)
      as u eqn:Hu.
    destruct (touchEventType u) eqn:Hk.
    + constructor; [intros Hne; contradiction|].
      apply IH. destruct Hx as [Hrx Hry]. rewrite Hc, Hrx, Hry. exact Hrec.
    + destruct Hx as [Hs [Hrx Hry]].
      apply getTouchScreenCoords_onLCD in Hs.
      constructor; [intros _; exact Hs|].
      apply IH. intros _. rewrite Hrx, Hry. exact Hs.
    + destruct Hc as [Hd Hd']. destruct Hx as [Hex [Hey [Hrx Hry]]].
      constructor; [intros _; rewrite Hex, Hey; exact (Hrec Hd)|].
      apply IH. intros Hf. congruence.
    + destruct Hc as [Hd Hd']. destruct Hx as [Hex [Hey [Hrx Hry]]].
      constructor; [intros _; rewrite Hex, Hey; exact (Hrec Hd)|].
      apply IH. intros _. rewrite Hrx, Hry. exact (Hrec Hd).
Qed.

(** X5.  [getTouchScreenCoords] reports a touch exactly when the raw screen
    does, at coordinates that lie on the LCD whatever the raw sample and the
    calibration are; so every Pressed, AutoRepeat and Released event of
    [getTouchEvents] lies on the LCD. *)
Theorem touch_events_lie_on_the_lcd :
  (forall raw,
     getTouchScreenCoords d c raw = None <-> raw = None) /\
  (forall raw x y,
     getTouchScreenCoords d c raw = Some (x, y) ->
     onLCD d x y) /\
  (forall ui rawPolls,
     touchState ui = WAITING_FOR_TOUCH_DOWN_STATE ->
     Forall (fun u => touchEventType u <> TOUCH_NO_EVENT ->
                      onLCD d (touchEventX u) (touchEventY u))
            (run ui (lcdPolls d c rawPolls))).
Proof.
  split; [|split].
  - intros raw. unfold getTouchScreenCoords.
    destruct raw as [[xRaw yRaw]|]; split; intros H; congruence.
  - apply getTouchScreenCoords_onLCD.
  - intros ui rawPolls Hst. apply run_onLCD.
    unfold isDown. rewrite Hst. discriminate.
Qed.

End TouchScreenCoords.

(** A finger pressed near the corner of the touch screen, beyond the edge
    of the LCD. *)
Lemma touch_events_lie_on_the_lcd_witness :
  events touchScreenInitialize
    (TouchScreen.lcdPolls Menu.landscape TouchScreen.landscapeCalibration
       [(0, Some (4000, 100)); (40, Some (4000, 100)); (50, None);
        (90, None)]) =
    [(TOUCH_NO_EVENT, 0, 0); (TOUCH_PUSHED_EVENT, 319, 0);
     (TOUCH_NO_EVENT, 319, 0); (TOUCH_RELEASED_EVENT, 319, 0)] /\
  Forall (fun u => touchEventType u <> TOUCH_NO_EVENT ->
                   TouchScreen.onLCD Menu.landscape (touchEventX u) (touchEventY u))
    (run touchScreenInitialize
       (TouchScreen.lcdPolls Menu.landscape TouchScreen.landscapeCalibration
          [(0, Some (4000, 100)); (40, Some (4000, 100)); (50, None);
           (90, None)])).
Proof.
  split; [reflexivity|].
  destruct (touch_events_lie_on_the_lcd Menu.landscape
              TouchScreen.landscapeCalibration) as [_ [_ H]].
  - cbn. lia.
  - cbn. lia.
  - apply H. reflexivity.
Defined.

(** ** Steps of the float Number Box *)

Section NumberBoxFloatSteps.
Import Float32.
Import NumberBoxFloat.

Lemma SFeqb_spec (x y : float) :
  isFloat x = true -> isFloat y = true -> isNaN x = false -> isNaN y = false ->
  SFeqb x y = true <-> ev x = ev y.
Proof.
  intros Hx Hy Nx Ny. unfold SFeqb. rewrite (SFcompare_spec x y Hx Hy Nx Ny).
  destruct (Z.compare_spec (ev x) (ev y)); split; intros; try lia;
    try reflexivity; try discriminate.
Qed.

(** X6.  In a float Number Box with finite bounds a positive step never
    lowers the value and a negative step never raises it, whatever the
    rounding of the sum does; a step that is neither changes nothing.  A
    step too small for the value changes nothing either: at 16777216 a
    step of 1 is lost in the rounding, and the Up button has no effect. *)
Theorem float_step_moves_towards_button (nb : NUMBER_BOX_FLOAT)
    (step : float) :
  wellFormed nb = true -> finiteBounds nb = true -> inRange nb = true ->
  isFloat step = true ->
  (fltb fzero step = true ->
   fleb (value nb) (value (updated nb step)) = true) /\
  (fltb step fzero = true ->
   fleb (value (updated nb step)) (value nb) = true) /\
  (fltb fzero step = false -> fltb step fzero = false ->
   updateNumberBoxNumberFloat nb step = (false, nb, [])) /\
  (feqb (value nb) (fadd (value nb) step) = true ->
   updateNumberBoxNumberFloat nb step = (false, nb, [])).
Proof.
  intros Hwf Hfb Hr Hstep.
  destruct (wellFormed_fields nb Hwf) as [Hv [Hmin [Hmax _]]].
  destruct (inRange_ev nb Hwf Hr) as [Nv [Nmin [Nmax Hev]]].
  assert (Hsum : isNaN step = false -> isNaN (fadd (value nb) step) = false)
    by (intros Nstep; apply finite_sum; assumption).
  destruct (update_float_spec nb step Hwf Hstep Hr Hsum)
    as [W [R [_ [_ [_ [Hup Hdown]]]]]].
  destruct (wellFormed_fields _ W) as [Hv' _].
  destruct (inRange_ev _ W R) as [Nv' _].
  assert (Hz : isFloat fzero = true) by reflexivity.
  assert (Nz : isNaN fzero = false) by reflexivity.
  assert (Ez : ev fzero = 0) by reflexivity.
  unfold fltb, fleb, feqb in *.
  split; [|split; [|split]].
  - intros Eup. specialize (Hup Eup). unfold fadd in *.
    destruct (SFltb_not_nan _ _ Eup) as [_ Nstep].
    apply (SFltb_spec _ _ Hz Hstep Nz Nstep) in Eup.
    specialize (Hsum Nstep).
    assert (Hs : isFloat (SFadd prec emax (value nb) step) = true)
      by (apply SFadd_valid; assumption).
    destruct (SFadd_mono (value nb) step Hv Hstep Nv Nstep Hsum) as [Hmono _].
    specialize (Hmono ltac:(lia)).
    apply (SFleb_spec _ _ Hv Hv' Nv Nv').
    destruct (SFltb (maximumValue nb) (SFadd prec emax (value nb) step)).
    + apply (SFeqb_spec _ _ Hv' Hmax Nv' Nmax) in Hup. lia.
    + apply (SFeqb_spec _ _ Hv' Hs Nv' Hsum) in Hup. lia.
  - intros Edown. specialize (Hdown Edown). unfold fadd in *.
    destruct (SFltb_not_nan _ _ Edown) as [Nstep _].
    apply (SFltb_spec _ _ Hstep Hz Nstep Nz) in Edown.
    specialize (Hsum Nstep).
    assert (Hs : isFloat (SFadd prec emax (value nb) step) = true)
      by (apply SFadd_valid; assumption).
    destruct (SFadd_mono (value nb) step Hv Hstep Nv Nstep Hsum) as [_ Hmono].
    specialize (Hmono ltac:(lia)).
    apply (SFleb_spec _ _ Hv' Hv Nv' Nv).
    destruct (SFltb (SFadd prec emax (value nb) step) (minimumValue nb)).
    + apply (SFeqb_spec _ _ Hv' Hmin Nv' Nmin) in Hdown. lia.
    + apply (SFeqb_spec _ _ Hv' Hs Nv' Hsum) in Hdown. lia.
  - intros E1 E2. unfold updateNumberBoxNumberFloat, fltb. rewrite E1, E2.
    reflexivity.
  - intros Eeq. unfold updateNumberBoxNumberFloat, fltb, feqb.
    unfold fadd in *.
    assert (Nsum : isNaN (SFadd prec emax (value nb) step) = false).
    { destruct (SFadd prec emax (value nb) step); try reflexivity.
      destruct (value nb); discriminate Eeq. }
    assert (Hs : isFloat (SFadd prec emax (value nb) step) = true).
    { apply SFadd_valid; assumption. }
    apply (SFeqb_spec _ _ Hv Hs Nv Nsum) in Eeq.
    cbv zeta.
    assert (Hnomax :
              SFltb (maximumValue nb) (SFadd prec emax (value nb) step) = false).
    { destruct (SFltb (maximumValue nb) (SFadd prec emax (value nb) step)) eqn:E;
        [|reflexivity].
      apply (SFltb_spec _ _ Hmax Hs Nmax Nsum) in E. lia. }
    assert (Hnomin :
              SFltb (SFadd prec emax (value nb) step) (minimumValue nb) = false).
    { destruct (SFltb (SFadd prec emax (value nb) step) (minimumValue nb)) eqn:E;
        [|reflexivity].
      apply (SFltb_spec _ _ Hs Hmin Nsum Nmin) in E. lia. }
    rewrite Hnomax, Hnomin.
    assert (Heq : SFeqb (value nb) (SFadd prec emax (value nb) step) = true)
      by (apply (SFeqb_spec _ _ Hv Hs Nv Nsum); exact Eeq).
    rewrite Heq.
    destruct (SFltb fzero step); [reflexivity|].
    destruct (SFltb step fzero); reflexivity.
Qed.

End NumberBoxFloatSteps.

Lemma float_step_moves_towards_button_witness :
  Float32.fleb (NumberBoxFloat.value NumberBoxFloat.scalerBox)
    (NumberBoxFloat.value
       (NumberBoxFloat.updated NumberBoxFloat.scalerBox
          (NumberBoxFloat.stepAmount NumberBoxFloat.scalerBox))) = true /\
  NumberBoxFloat.updateNumberBoxNumberFloat NumberBoxFloat.countBox (Float32.ofInt 1)
  = (false, NumberBoxFloat.countBox, []).
Proof.
  split.
  - destruct (float_step_moves_towards_button NumberBoxFloat.scalerBox
                (NumberBoxFloat.stepAmount NumberBoxFloat.scalerBox))
      as [Hup _];
      [ vm_compute; reflexivity | vm_compute; reflexivity
      | vm_compute; reflexivity | vm_compute; reflexivity |].
    apply Hup. vm_compute. reflexivity.
  - destruct (float_step_moves_towards_button NumberBoxFloat.countBox (Float32.ofInt 1))
      as [_ [_ [_ Hlost]]];
      [ vm_compute; reflexivity | vm_compute; reflexivity
      | vm_compute; reflexivity | vm_compute; reflexivity |].
    apply Hlost. vm_compute. reflexivity.
Defined.

(** ** The text of the numeric keypad *)

Section KeypadText.
Import Button.
Import Keypad.

Variable Num : Type.
Variable dtostrf : Num -> string.
Variable atof : string -> Num.
Variable numLe : Num -> Num -> bool.
Variable forFloat : bool.
Variable titleBar : string.
Variables minValue maxValue : Num.

Local Abbreviation fits :=
  (fun s : Keypad.State Num =>
     (String.length (Keypad.valueStr Num s) <= MAX_CHARACTERS)%nat).












End KeypadText.
